(** * Telescope: validation and normalisation of launch options

    A shallow embedding of [src/validation.ts], [src/schemas.ts] and
    [src/config.ts] of dangayle/telescope, and the properties of the
    validation engine, the error formatter and the config normaliser.

    Conventions of the embedding.
    - A JavaScript value is a term of [value]; a number is an IEEE 754
      binary64 float, carried as a [spec_float] of the Standard Library
      (precision 53, maximal exponent 1024).
    - A string is a sequence of bytes (UTF-8); every character the code
      inspects (comma, bracket, quote) is ASCII.
    - [throw new Error(msg)] is the result [Err msg]; a function that can
      throw returns in [Result].
    - [JSON.parse], [Number] and the zod combinators ([z.object],
      [z.array], ...) are platform and library code: they are defined here
      after ECMA-262 and zod 3, one definition per combinator, so that the
      schema declarations read as in [schemas.ts].
    - [config.ts] comes in two revisions of [normalizeCLIConfig]: one whose
      structured options are JSON text (module [CliText]) and one whose
      structured options are already parsed (module [PreParsed]). They
      share [parseJSONArrayOrCommaSeparatedStrings] and the second half of
      the function. *)

From Stdlib Require Import ZArith NArith List String Ascii Bool Lia.
From Stdlib Require Import Floats.SpecFloat.
From Stdlib Require Import Numbers.DecimalString.
Import ListNotations.

Set Warnings "-register-all".

Local Open Scope list_scope.
Local Open Scope string_scope.

(** ** Results: a value or a thrown error *)

Inductive Result (E A : Type) : Type :=
| Ok (a : A)
| Err (e : E).
Arguments Ok {E A} a.
Arguments Err {E A} e.

Definition bind {E A B} (r : Result E A) (k : A -> Result E B) : Result E B :=
  match r with
  | Ok a => k a
  | Err e => Err e
  end.

(** [try { body } catch (err) { throw handler(err) }] *)
Definition try_catch {E F A} (body : Result E A) (handler : E -> F) : Result F A :=
  match body with
  | Ok a => Ok a
  | Err e => Err (handler e)
  end.

Definition is_Err {E A} (r : Result E A) : bool :=
  match r with Ok _ => false | Err _ => true end.

Declare Scope result_scope.
Delimit Scope result_scope with result.
Notation "x <- c ;; k" := (bind c (fun x => k))
  (at level 61, c at next level, right associativity) : result_scope.

(** ** Characters and strings *)

Definition dquote : string := String (ascii_of_nat 34) "".
Definition newline : string := String (ascii_of_nat 10) "".

Definition chr (n : nat) : ascii := ascii_of_nat n.
Definition code (c : ascii) : nat := nat_of_ascii c.

Definition is_digit (c : ascii) : bool :=
  (48 <=? code c)%nat && (code c <=? 57)%nat.

Definition digit_val (c : ascii) : Z := (Z.of_nat (code c) - 48)%Z.

Definition hex_val (c : ascii) : option Z :=
  let n := code c in
  if (48 <=? n)%nat && (n <=? 57)%nat then Some (Z.of_nat n - 48)%Z
  else if (65 <=? n)%nat && (n <=? 70)%nat then Some (Z.of_nat n - 55)%Z
  else if (97 <=? n)%nat && (n <=? 102)%nat then Some (Z.of_nat n - 87)%Z
  else None.

(** [String.prototype.startsWith] *)
Fixpoint starts_with (p s : string) : bool :=
  match p with
  | EmptyString => true
  | String a p' =>
      match s with
      | EmptyString => false
      | String b s' => Ascii.eqb a b && starts_with p' s'
      end
  end.

(** [String.prototype.includes] *)
Fixpoint includes (searchString s : string) : bool :=
  if starts_with searchString s then true
  else match s with
       | EmptyString => false
       | String _ s' => includes searchString s'
       end.

(** [String.prototype.split] with a separator that matches exactly one
    character, as the regular expression [/,/] does. *)
Fixpoint split (sep : ascii) (s : string) : list string :=
  match s with
  | EmptyString => [EmptyString]
  | String c s' =>
      if Ascii.eqb c sep then EmptyString :: split sep s'
      else match split sep s' with
           | [] => [String c EmptyString]
           | t :: ts => String c t :: ts
           end
  end.

(** [Array.prototype.join] on strings *)
Definition join (sep : string) (l : list string) : string := String.concat sep l.

(** A string is truthy when it is not empty. *)
Definition truthy_string (s : string) : bool :=
  match s with EmptyString => false | _ => true end.

Definition string_of_nat (n : nat) : string :=
  NilEmpty.string_of_uint (Nat.to_uint n).

(** ** Numbers: IEEE 754 binary64 *)

Definition prec : Z := 53%Z.
Definition emax : Z := 1024%Z.

Definition number : Type := spec_float.

Definition NaN : number := S754_nan.
Definition pos_zero : number := S754_zero false.
Definition Infinity (neg : bool) : number := S754_infinity neg.

(** The float nearest to the integer [m] times two to the [e]. *)
Definition number_of_Z (m : Z) : number := binary_normalize prec emax m 0%Z false.

(** The float nearest (ties to even) to [m * 10 ^ e], with the sign [neg]:
    the value of a decimal literal whose digits are [m]. *)
Definition number_of_decimal (neg : bool) (m : Z) (e : Z) : number :=
  match m with
  | Zpos p =>
      match e with
      | Zneg k =>
          let '(q, e', l) := SFdiv_core_binary prec emax (Zpos p) 0%Z (Z.pow 10 (Zpos k)) 0%Z in
          binary_round_aux prec emax neg q e' l
      | _ => binary_round prec emax neg (Z.to_pos (Zpos p * Z.pow 10 e)%Z) 0%Z
      end
  | _ => S754_zero neg
  end.

Definition num_ltb (x y : number) : bool := SFltb x y.

(** [Number.isInteger] *)
Definition isInteger (x : number) : bool :=
  match x with
  | S754_zero _ => true
  | S754_finite _ m e =>
      match e with
      | Zneg k => Z.eqb (Z.modulo (Zpos m) (Z.pow 2 (Zpos k))) 0%Z
      | _ => true
      end
  | _ => false
  end.

(** A number is falsy when it is a zero or NaN. *)
Definition truthy_number (x : number) : bool :=
  match x with
  | S754_zero _ | S754_nan => false
  | _ => true
  end.

(** ** JavaScript values *)

Inductive value : Type :=
| VUndefined
| VNull
| VBool (b : bool)
| VNum (n : number)
| VStr (s : string)
| VArr (elems : list value)
| VObj (props : list (string * value)).

(** Truthiness, as tested by [if (x)] and [x || d]. *)
Definition truthy (v : value) : bool :=
  match v with
  | VUndefined | VNull => false
  | VBool b => b
  | VNum n => truthy_number n
  | VStr s => truthy_string s
  | VArr _ | VObj _ => true
  end.

(** *** Objects: own string-keyed properties in enumeration order

    Array-index keys come first, in ascending numeric order, then the other
    keys in insertion order. *)

Fixpoint digits_val (s : string) (acc : Z) : option Z :=
  match s with
  | EmptyString => Some acc
  | String c s' => if is_digit c then digits_val s' (10 * acc + digit_val c)%Z else None
  end.

(** A canonical numeric string below 2^32 - 1. *)
Definition array_index (k : string) : option Z :=
  match k with
  | EmptyString => None
  | String c rest =>
      if Ascii.eqb c "0" && truthy_string rest then None
      else match digits_val k 0%Z with
           | Some n => if (n <? 4294967295)%Z then Some n else None
           | None => None
           end
  end.

Fixpoint insert_index (i : Z) (k : string) (v : value) (props : list (string * value))
  : list (string * value) :=
  match props with
  | [] => [(k, v)]
  | (k', v') :: rest =>
      match array_index k' with
      | Some j =>
          if (i <? j)%Z then (k, v) :: props
          else if (i =? j)%Z then (k, v) :: rest
          else (k', v') :: insert_index i k v rest
      | None => (k, v) :: props
      end
  end.

Fixpoint set_string_key (k : string) (v : value) (props : list (string * value))
  : list (string * value) :=
  match props with
  | [] => [(k, v)]
  | (k', v') :: rest =>
      if String.eqb k' k then (k, v) :: rest
      else (k', v') :: set_string_key k v rest
  end.

(** [obj[k] = v] *)
Definition obj_set (k : string) (v : value) (props : list (string * value))
  : list (string * value) :=
  match array_index k with
  | Some i => insert_index i k v props
  | None => set_string_key k v props
  end.

(** [k in obj] *)
Fixpoint has_key (k : string) (props : list (string * value)) : bool :=
  match props with
  | [] => false
  | (k', _) :: rest => String.eqb k' k || has_key k rest
  end.

(** [obj[k]], [undefined] when the key is absent *)
Fixpoint obj_get (k : string) (props : list (string * value)) : value :=
  match props with
  | [] => VUndefined
  | (k', v) :: rest => if String.eqb k' k then v else obj_get k rest
  end.

(** ** [JSON.parse]

    The grammar of ECMA-404. A parser returns the value and the rest of the
    text, or the suffix of the text at which it gave up. *)

Inductive parsed (A : Type) : Type :=
| POk (a : A) (rest : string)
| PErr (at_ : string)
| PFuel.
Arguments POk {A} a rest.
Arguments PErr {A} at_.
Arguments PFuel {A}.

Definition is_ws (c : ascii) : bool :=
  let n := code c in
  (n =? 32)%nat || (n =? 9)%nat || (n =? 10)%nat || (n =? 13)%nat.

Fixpoint skip_ws (s : string) : string :=
  match s with
  | String c s' => if is_ws c then skip_ws s' else s
  | EmptyString => s
  end.

(** The text after the prefix [p] of [s], or the suffix of [s] at the first
    character where it departs from [p]. *)
Fixpoint expect (p s : string) : parsed unit :=
  match p with
  | EmptyString => POk tt s
  | String a p' =>
      match s with
      | EmptyString => PErr s
      | String b s' => if Ascii.eqb a b then expect p' s' else PErr s
      end
  end.

(** *** String literals *)

Inductive str_item : Type :=
| Byte (c : ascii)
| Unit16 (u : Z).

Definition hex4 (a b c d : ascii) : option Z :=
  match hex_val a, hex_val b, hex_val c, hex_val d with
  | Some x, Some y, Some z, Some w => Some (((x * 16 + y) * 16 + z) * 16 + w)%Z
  | _, _, _, _ => None
  end.

Definition simple_escape (e : ascii) : option ascii :=
  let n := code e in
  if (n =? 34)%nat then Some (chr 34)
  else if (n =? 92)%nat then Some (chr 92)
  else if (n =? 47)%nat then Some (chr 47)
  else if (n =? 98)%nat then Some (chr 8)
  else if (n =? 102)%nat then Some (chr 12)
  else if (n =? 110)%nat then Some (chr 10)
  else if (n =? 114)%nat then Some (chr 13)
  else if (n =? 116)%nat then Some (chr 9)
  else None.

(** The text after the opening quote, up to the closing one. *)
Fixpoint parse_string_body (s : string) (acc : list str_item) : parsed (list str_item) :=
  match s with
  | EmptyString => PErr s
  | String c rest =>
      if (code c =? 34)%nat then POk (rev acc) rest
      else if (code c =? 92)%nat then
        match rest with
        | EmptyString => PErr rest
        | String e rest' =>
            match simple_escape e with
            | Some x => parse_string_body rest' (Byte x :: acc)
            | None =>
                if (code e =? 117)%nat then
                  match rest' with
                  | String h1 (String h2 (String h3 (String h4 rest''))) =>
                      match hex4 h1 h2 h3 h4 with
                      | Some u => parse_string_body rest'' (Unit16 u :: acc)
                      | None => PErr rest'
                      end
                  | _ => PErr EmptyString
                  end
                else PErr rest
            end
        end
      else if (code c <? 32)%nat then PErr s
      else parse_string_body rest (Byte c :: acc)
  end.

Definition byte_of_Z (n : Z) : ascii := chr (Z.to_nat n).

(** UTF-8 encoding of a code point *)
Definition utf8 (cp : Z) : list ascii :=
  if (cp <? 128)%Z then [byte_of_Z cp]
  else if (cp <? 2048)%Z then
    [byte_of_Z (192 + cp / 64); byte_of_Z (128 + cp mod 64)]
  else if (cp <? 65536)%Z then
    [byte_of_Z (224 + cp / 4096); byte_of_Z (128 + (cp / 64) mod 64);
     byte_of_Z (128 + cp mod 64)]
  else
    [byte_of_Z (240 + cp / 262144); byte_of_Z (128 + (cp / 4096) mod 64);
     byte_of_Z (128 + (cp / 64) mod 64); byte_of_Z (128 + cp mod 64)].

Definition is_high_surrogate (u : Z) : bool := (55296 <=? u)%Z && (u <=? 56319)%Z.
Definition is_low_surrogate (u : Z) : bool := (56320 <=? u)%Z && (u <=? 57343)%Z.

(** Escaped UTF-16 code units become UTF-8, a surrogate pair one code point. *)
Fixpoint encode_items (items : list str_item) : list ascii :=
  match items with
  | [] => []
  | Byte c :: r => c :: encode_items r
  | Unit16 hi :: r =>
      match r with
      | Unit16 lo :: r' =>
          if is_high_surrogate hi && is_low_surrogate lo
          then (utf8 (65536 + (hi - 55296) * 1024 + (lo - 56320))%Z ++ encode_items r')%list
          else (utf8 hi ++ encode_items r)%list
      | _ => (utf8 hi ++ encode_items r)%list
      end
  end.

Definition parse_string (s : string) : parsed string :=
  match parse_string_body s [] with
  | POk items rest => POk (string_of_list_ascii (encode_items items)) rest
  | PErr r => PErr r
  | PFuel => PFuel
  end.

(** *** Number literals *)

(** The longest prefix of digits: its value continuing [acc], how many
    digits it has, and the rest. *)
Fixpoint digits (s : string) (acc : Z) (n : nat) : Z * nat * string :=
  match s with
  | String c s' => if is_digit c then digits s' (10 * acc + digit_val c)%Z (S n) else (acc, n, s)
  | EmptyString => (acc, n, s)
  end.

(** [. digits] after the integer part [m]: the digits appended to [m] and
    the decimal exponent they bring. *)
Definition parse_fraction (m : Z) (s : string) : parsed (Z * Z) :=
  match s with
  | String c s' =>
      if (code c =? 46)%nat then
        match digits s' m 0 with
        | (_, O, r) => PErr r
        | (m', n, r) => POk (m', (- Z.of_nat n)%Z) r
        end
      else POk (m, 0%Z) s
  | EmptyString => POk (m, 0%Z) s
  end.

(** [e], an optional sign and digits *)
Definition parse_exponent (s : string) : parsed Z :=
  match s with
  | String c s' =>
      if (code c =? 101)%nat || (code c =? 69)%nat then
        let '(neg, s'') :=
          match s' with
          | String sg r =>
              if (code sg =? 45)%nat then (true, r)
              else if (code sg =? 43)%nat then (false, r)
              else (false, s')
          | EmptyString => (false, s')
          end in
        match digits s'' 0%Z 0 with
        | (_, O, r) => PErr r
        | (x, _, r) => POk (if neg then (- x)%Z else x) r
        end
      else POk 0%Z s
  | EmptyString => POk 0%Z s
  end.

Definition parse_unsigned (neg : bool) (s : string) : parsed number :=
  match s with
  | EmptyString => PErr s
  | String c s' =>
      if is_digit c then
        let '(m, r) :=
          if (code c =? 48)%nat then (0%Z, s')
          else let '(m, _, r) := digits s 0%Z 0 in (m, r) in
        match parse_fraction m r with
        | POk (m', e1) r1 =>
            match parse_exponent r1 with
            | POk e2 r2 => POk (number_of_decimal neg m' (e1 + e2)%Z) r2
            | PErr a => PErr a
            | PFuel => PFuel
            end
        | PErr a => PErr a
        | PFuel => PFuel
        end
      else PErr s
  end.

Definition parse_number (s : string) : parsed number :=
  match s with
  | String c s' => if (code c =? 45)%nat then parse_unsigned true s' else parse_unsigned false s
  | EmptyString => PErr s
  end.

(** *** Values *)

Definition lift {A B} (f : A -> B) (r : parsed A) : parsed B :=
  match r with
  | POk a rest => POk (f a) rest
  | PErr a => PErr a
  | PFuel => PFuel
  end.

Fixpoint parse_value (fuel : nat) (s : string) {struct fuel} : parsed value :=
  match fuel with
  | O => PFuel
  | S fuel' =>
      match skip_ws s with
      | EmptyString => PErr EmptyString
      | String c rest as s0 =>
          let n := code c in
          if (n =? 123)%nat then
            match skip_ws rest with
            | String c' rest' as r0 =>
                if (code c' =? 125)%nat then POk (VObj []) rest'
                else parse_members fuel' r0 []
            | EmptyString => PErr EmptyString
            end
          else if (n =? 91)%nat then
            match skip_ws rest with
            | String c' rest' as r0 =>
                if (code c' =? 93)%nat then POk (VArr []) rest'
                else parse_elements fuel' r0 []
            | EmptyString => PErr EmptyString
            end
          else if (n =? 34)%nat then lift VStr (parse_string rest)
          else if (n =? 116)%nat then lift (fun _ => VBool true) (expect "true" s0)
          else if (n =? 102)%nat then lift (fun _ => VBool false) (expect "false" s0)
          else if (n =? 110)%nat then lift (fun _ => VNull) (expect "null" s0)
          else if (n =? 45)%nat || is_digit c then lift VNum (parse_number s0)
          else PErr s0
      end
  end

(** The elements of an array after its opening bracket, [acc] holding the
    earlier ones in reverse. *)
with parse_elements (fuel : nat) (s : string) (acc : list value) {struct fuel}
  : parsed value :=
  match fuel with
  | O => PFuel
  | S fuel' =>
      match parse_value fuel' s with
      | POk v r =>
          match skip_ws r with
          | String c r' as r0 =>
              if (code c =? 44)%nat then parse_elements fuel' r' (v :: acc)
              else if (code c =? 93)%nat then POk (VArr (rev (v :: acc))) r'
              else PErr r0
          | EmptyString => PErr EmptyString
          end
      | PErr a => PErr a
      | PFuel => PFuel
      end
  end

(** The members of an object after its opening brace, [acc] holding the
    properties set so far. *)
with parse_members (fuel : nat) (s : string) (acc : list (string * value)) {struct fuel}
  : parsed value :=
  match fuel with
  | O => PFuel
  | S fuel' =>
      match skip_ws s with
      | EmptyString => PErr EmptyString
      | String q r as s0 =>
          if (code q =? 34)%nat then
            match parse_string r with
            | POk k r1 =>
                match skip_ws r1 with
                | String c r2 as r0 =>
                    if (code c =? 58)%nat then
                      match parse_value fuel' r2 with
                      | POk v r3 =>
                          match skip_ws r3 with
                          | String c' r4 as r0' =>
                              if (code c' =? 44)%nat
                              then parse_members fuel' r4 (obj_set k v acc)
                              else if (code c' =? 125)%nat
                              then POk (VObj (obj_set k v acc)) r4
                              else PErr r0'
                          | EmptyString => PErr EmptyString
                          end
                      | PErr a => PErr a
                      | PFuel => PFuel
                      end
                    else PErr r0
                | EmptyString => PErr EmptyString
                end
            | PErr a => PErr a
            | PFuel => PFuel
            end
          else PErr s0
      end
  end.

(** ** Exceptions: an [Error] object with its [name] and [message] *)

Record Error : Type := mkError { error_name : string; error_message : string }.

(** [new Error(msg)] *)
Definition new_Error (msg : string) : Error :=
  {| error_name := "Error"; error_message := msg |}.

Definition new_SyntaxError (msg : string) : Error :=
  {| error_name := "SyntaxError"; error_message := msg |}.

(** The message for a text [s] that stopped being JSON at its suffix [a];
    the wording is V8's and no property below depends on it. *)
Definition syntax_error (s a : string) : Error :=
  match a with
  | EmptyString => new_SyntaxError "Unexpected end of JSON input"
  | String c _ =>
      let pos := string_of_nat (String.length s - String.length a) in
      let what :=
        if (code c =? 45)%nat || is_digit c then "number"
        else if (code c =? 34)%nat then "string"
        else "token " ++ String c EmptyString in
      new_SyntaxError ("Unexpected " ++ what ++ " in JSON at position " ++ pos)
  end.

Definition parse_fuel (s : string) : nat := 2 * String.length s + 1.

Definition JSON_parse (s : string) : Result Error value :=
  match parse_value (parse_fuel s) s with
  | POk v rest =>
      match skip_ws rest with
      | EmptyString => Ok v
      | a => Err (syntax_error s a)
      end
  | PErr a => Err (syntax_error s a)
  | PFuel => Err (syntax_error s EmptyString)
  end.

(** ** [Number(x)]: conversion to a number (ECMA-262, ToNumber) *)

Definition bytes (l : list nat) : string := string_of_list_ascii (map chr l).

(** White space and line terminators, as UTF-8 byte sequences. *)
Definition str_whitespace : list string :=
  map bytes
    [[9]; [10]; [11]; [12]; [13]; [32]; [194; 160]; [225; 154; 128];
     [226; 128; 128]; [226; 128; 129]; [226; 128; 130]; [226; 128; 131];
     [226; 128; 132]; [226; 128; 133]; [226; 128; 134]; [226; 128; 135];
     [226; 128; 136]; [226; 128; 137]; [226; 128; 138]; [226; 128; 168];
     [226; 128; 169]; [226; 128; 175]; [226; 129; 159]; [227; 128; 128];
     [239; 187; 191]].

Fixpoint strip_prefix (p s : string) : option string :=
  match p with
  | EmptyString => Some s
  | String a p' =>
      match s with
      | String b s' => if Ascii.eqb a b then strip_prefix p' s' else None
      | EmptyString => None
      end
  end.

Fixpoint strip_any (ps : list string) (s : string) : option string :=
  match ps with
  | [] => None
  | p :: ps' =>
      match strip_prefix p s with
      | Some r => Some r
      | None => strip_any ps' s
      end
  end.

Fixpoint trim_start (fuel : nat) (ws : list string) (s : string) : string :=
  match fuel with
  | O => s
  | S fuel' =>
      match strip_any ws s with
      | Some r => trim_start fuel' ws r
      | None => s
      end
  end.

Definition string_rev (s : string) : string :=
  string_of_list_ascii (rev (list_ascii_of_string s)).

(** [String.prototype.trim] *)
Definition trim (s : string) : string :=
  let s1 := trim_start (String.length s) str_whitespace s in
  string_rev (trim_start (String.length s1) (map string_rev str_whitespace) (string_rev s1)).

(** Digits in base [base], all of [s]; [None] for an empty or ill-formed [s]. *)
Fixpoint radix_digits (base : Z) (s : string) (acc : Z) : option Z :=
  match s with
  | EmptyString => Some acc
  | String c s' =>
      match hex_val c with
      | Some d => if (d <? base)%Z then radix_digits base s' (base * acc + d)%Z else None
      | None => None
      end
  end.

Definition radix_literal (base : Z) (s : string) : number :=
  match s with
  | EmptyString => NaN
  | _ => match radix_digits base s 0%Z with
         | Some n => number_of_Z n
         | None => NaN
         end
  end.

(** Digits, an optional fraction and an optional exponent, to the end. *)
Definition str_decimal (neg : bool) (s : string) : number :=
  let '(m1, n1, r1) := digits s 0%Z 0 in
  let '(m2, n2, r2) :=
    match r1 with
    | String c r => if (code c =? 46)%nat then digits r m1 0 else (m1, 0, r1)
    | EmptyString => (m1, 0, r1)
    end in
  if (n1 + n2 =? 0)%nat then NaN
  else match parse_exponent r2 with
       | POk e EmptyString => number_of_decimal neg m2 (e - Z.of_nat n2)%Z
       | _ => NaN
       end.

Definition str_signed (neg : bool) (s : string) : number :=
  if String.eqb s "Infinity" then Infinity neg else str_decimal neg s.

(** StringToNumber *)
Definition StringToNumber (s : string) : number :=
  match trim s with
  | EmptyString => pos_zero
  | String c r as t =>
      if (code c =? 43)%nat then str_signed false r
      else if (code c =? 45)%nat then str_signed true r
      else match r with
           | String x r' =>
               if (code c =? 48)%nat && ((code x =? 120)%nat || (code x =? 88)%nat)
               then radix_literal 16 r'
               else if (code c =? 48)%nat && ((code x =? 111)%nat || (code x =? 79)%nat)
               then radix_literal 8 r'
               else if (code c =? 48)%nat && ((code x =? 98)%nat || (code x =? 66)%nat)
               then radix_literal 2 r'
               else str_signed false t
           | EmptyString => str_signed false t
           end
  end.

(** ToNumber. An array converts through its string form: the empty array
    gives the empty string, a one-element array the string of its element,
    and a longer one a string with a comma, which is no number. A number
    printed and read back is itself, except that [-0] prints as [0]. *)
Fixpoint ToNumber (v : value) : number :=
  match v with
  | VUndefined => NaN
  | VNull => pos_zero
  | VBool b => if b then number_of_Z 1 else pos_zero
  | VNum n => n
  | VStr s => StringToNumber s
  | VArr [] => pos_zero
  | VArr [x] =>
      match x with
      | VUndefined | VNull => pos_zero
      | VBool _ => NaN
      | VNum (S754_zero _) => pos_zero
      | VNum n => n
      | VStr s => StringToNumber s
      | VArr _ => ToNumber x
      | VObj _ => NaN
      end
  | VArr _ => NaN
  | VObj _ => NaN
  end.

(** ** zod: issues, errors and schemas (zod 3)

    A schema is its [_parse] method: from the path of the value within the
    input and the value itself to the typed data, or to the issues found.
    Every schema below reports the issues of all the parts of a value, in
    the order it visits them. *)

Inductive PathSeg : Type :=
| PKey (k : string)
| PIndex (i : nat).

Record ZodIssue : Type := mkIssue {
  issue_code : string;
  path : list PathSeg;
  message : string
}.

Record ZodError : Type := { issues : list ZodIssue }.

Definition ZodSchema (T : Type) : Type :=
  list PathSeg -> value -> Result (list ZodIssue) T.

(** [schema.safeParse(data)]: [Ok] is [{ success: true, data }] and [Err] is
    [{ success: false, error }]. *)
Definition safeParse {T} (schema : ZodSchema T) (data : value) : Result ZodError T :=
  match schema [] data with
  | Ok d => Ok d
  | Err is_ => Err {| issues := is_ |}
  end.

Definition parsed_type (v : value) : string :=
  match v with
  | VUndefined => "undefined"
  | VNull => "null"
  | VBool _ => "boolean"
  | VNum S754_nan => "nan"
  | VNum _ => "number"
  | VStr _ => "string"
  | VArr _ => "array"
  | VObj _ => "object"
  end.

Definition invalid_type (p : list PathSeg) (expected : string) (v : value) : ZodIssue :=
  mkIssue "invalid_type" p
    match v with
    | VUndefined => "Required"
    | _ => "Expected " ++ expected ++ ", received " ++ parsed_type v
    end.

(** [z.string()] *)
Definition z_string : ZodSchema value := fun p v =>
  match v with
  | VStr _ => Ok v
  | _ => Err [invalid_type p "string" v]
  end.

(** [z.number()] *)
Definition z_number : ZodSchema value := fun p v =>
  match v with
  | VNum S754_nan => Err [invalid_type p "number" v]
  | VNum _ => Ok v
  | _ => Err [invalid_type p "number" v]
  end.

(** [z.boolean()] *)
Definition z_boolean : ZodSchema value := fun p v =>
  match v with
  | VBool _ => Ok v
  | _ => Err [invalid_type p "boolean" v]
  end.

(** [schema.optional()] *)
Definition optional (schema : ZodSchema value) : ZodSchema value := fun p v =>
  match v with
  | VUndefined => Ok VUndefined
  | _ => schema p v
  end.

Definition join_values (values : list string) : string :=
  join " | " (map (fun x => "'" ++ x ++ "'") values).

(** [z.enum([...])] *)
Definition z_enum (values : list string) : ZodSchema value := fun p v =>
  match v with
  | VStr s =>
      if existsb (String.eqb s) values then Ok v
      else Err [mkIssue "invalid_enum_value" p
                  ("Invalid enum value. Expected " ++ join_values values
                   ++ ", received '" ++ s ++ "'")]
  | _ => Err [invalid_type p (join_values values) v]
  end.

(** The data of all the parts, or the issues of all the parts. *)
Fixpoint merge {A} (rs : list (Result (list ZodIssue) A)) : Result (list ZodIssue) (list A) :=
  match rs with
  | [] => Ok []
  | r :: rs' =>
      match r, merge rs' with
      | Ok a, Ok l => Ok (a :: l)
      | Ok _, Err is_ => Err is_
      | Err is_, Ok _ => Err is_
      | Err is1, Err is2 => Err (is1 ++ is2)%list
      end
  end.

Fixpoint parse_items (element : ZodSchema value) (p : list PathSeg) (i : nat)
  (l : list value) : list (Result (list ZodIssue) value) :=
  match l with
  | [] => []
  | x :: l' => element (p ++ [PIndex i])%list x :: parse_items element p (S i) l'
  end.

(** [z.array(element)] *)
Definition z_array (element : ZodSchema value) : ZodSchema value := fun p v =>
  match v with
  | VArr l =>
      match merge (parse_items element p 0 l) with
      | Ok l' => Ok (VArr l')
      | Err is_ => Err is_
      end
  | _ => Err [invalid_type p "array" v]
  end.

(** A property of the result: set when the key is in the input or its
    parsed value is not [undefined]. *)
Definition set_parsed (always : bool) (k : string) (v : value)
  (props : list (string * value)) : list (string * value) :=
  match v with
  | VUndefined => if always then obj_set k v props else props
  | _ => obj_set k v props
  end.

Inductive UnknownKeys : Type := Strip | Passthrough.

(** [z.object(shape)], with what it does to the keys outside the shape. *)
Record ZodObject : Type := {
  shape : list (string * ZodSchema value);
  unknownKeys : UnknownKeys
}.

Definition z_object (shape : list (string * ZodSchema value)) : ZodObject :=
  {| shape := shape; unknownKeys := Strip |}.

(** [object.passthrough()] *)
Definition passthrough (o : ZodObject) : ZodObject :=
  {| shape := shape o; unknownKeys := Passthrough |}.

Definition in_shape (o : ZodObject) (k : string) : bool :=
  existsb (fun kv => String.eqb (fst kv) k) (shape o).

Definition extra_props (o : ZodObject) (props : list (string * value))
  : list (string * value) :=
  match unknownKeys o with
  | Strip => []
  | Passthrough => filter (fun kv => negb (in_shape o (fst kv))) props
  end.

Definition parse_object (o : ZodObject) : ZodSchema value := fun p v =>
  match v with
  | VObj props =>
      let fields :=
        map (fun kv => (fst kv, snd kv (p ++ [PKey (fst kv)])%list (obj_get (fst kv) props)))
          (shape o) in
      match merge (map snd fields) with
      | Ok vs =>
          let known :=
            fold_left (fun acc kv => set_parsed (has_key (fst kv) props) (fst kv) (snd kv) acc)
              (combine (map fst fields) vs) [] in
          Ok (VObj (fold_left (fun acc kv => set_parsed false (fst kv) (snd kv) acc)
                      (extra_props o props) known))
      | Err is_ => Err is_
      end
  | _ => Err [invalid_type p "object" v]
  end.

Coercion parse_object : ZodObject >-> ZodSchema.

(** [z.record(keySchema, valueSchema)]: the key is checked first, then the
    value, both at the path of the key. *)
Definition z_record (keySchema valueSchema : ZodSchema value) : ZodSchema value :=
  fun p v =>
  match v with
  | VObj props =>
      let entries :=
        map (fun kv =>
               let p' := (p ++ [PKey (fst kv)])%list in
               match keySchema p' (VStr (fst kv)), valueSchema p' (snd kv) with
               | Ok k, Ok x => Ok (k, x)
               | Ok _, Err is_ => Err is_
               | Err is_, Ok _ => Err is_
               | Err is1, Err is2 => Err (is1 ++ is2)%list
               end) props in
      match merge entries with
      | Ok kvs =>
          Ok (VObj (fold_left
                      (fun acc kx =>
                         match fst kx with
                         | VStr k => if String.eqb k "__proto__" then acc
                                     else set_parsed true k (snd kx) acc
                         | _ => acc
                         end) kvs []))
      | Err is_ => Err is_
      end
  | _ => Err [invalid_type p "object" v]
  end.

(** [z.union(options)]: the data of the first option that accepts the
    value; when none does, one issue at the path of the value. *)
Fixpoint z_union (options : list (ZodSchema value)) : ZodSchema value := fun p v =>
  match options with
  | [] => Err [mkIssue "invalid_union" p "Invalid input"]
  | o :: options' =>
      match o p v with
      | Ok d => Ok d
      | Err _ => z_union options' p v
      end
  end.

(** [z.coerce.number()] and its checks *)
Inductive NumberCheck : Type :=
| CheckInt
| CheckPositive.

Record ZodNumber : Type := { coerce : bool; checks : list NumberCheck }.

Definition z_coerce_number : ZodNumber := {| coerce := true; checks := [] |}.

(** [number.int()] *)
Definition int (n : ZodNumber) : ZodNumber :=
  {| coerce := coerce n; checks := (checks n ++ [CheckInt])%list |}.

(** [number.positive()] *)
Definition positive (n : ZodNumber) : ZodNumber :=
  {| coerce := coerce n; checks := (checks n ++ [CheckPositive])%list |}.

Definition check_number (p : list PathSeg) (x : number) (c : NumberCheck) : list ZodIssue :=
  match c with
  | CheckInt =>
      if isInteger x then []
      else [mkIssue "invalid_type" p "Expected integer, received float"]
  | CheckPositive =>
      if num_ltb pos_zero x then []
      else [mkIssue "too_small" p "Number must be greater than 0"]
  end.

Definition parse_number_schema (n : ZodNumber) : ZodSchema number := fun p v =>
  let v' := if coerce n then VNum (ToNumber v) else v in
  match v' with
  | VNum S754_nan => Err [invalid_type p "number" v']
  | VNum x =>
      match flat_map (check_number p x) (checks n) with
      | [] => Ok x
      | is_ => Err is_
      end
  | _ => Err [invalid_type p "number" v']
  end.

Coercion parse_number_schema : ZodNumber >-> ZodSchema.

(** ** [validation.ts] *)

(** [issue.path.join('.')] *)
Definition seg_string (g : PathSeg) : string :=
  match g with
  | PKey k => k
  | PIndex i => string_of_nat i
  end.

Definition format_issue (issue : ZodIssue) : string :=
  let path_ :=
    match path issue with
    | [] => "(root)"
    | segs => join "." (map seg_string segs)
    end in
  "  - " ++ path_ ++ ": " ++ message issue.

Definition formatZodError (error : ZodError) : string :=
  join newline (map format_issue (issues error)).

(** JSON.parse then schema validation. Throws with flagName context on
    failure. *)
Definition parseCLIOption {T} (flagName jsonString : string) (schema : ZodSchema T)
  : Result Error T :=
  match JSON_parse jsonString with
  | Err err =>
      Err (new_Error ("Invalid JSON for " ++ dquote ++ flagName ++ dquote ++ ": "
                      ++ error_message err))
  | Ok parsed_ =>
      match safeParse schema parsed_ with
      | Err error =>
          Err (new_Error ("Invalid data for " ++ dquote ++ flagName ++ dquote ++ ":"
                          ++ newline ++ formatZodError error))
      | Ok data => Ok data
      end
  end.

(** Schema-only validation for already-parsed data. *)
Definition parseUnknown {T} (flagName : string) (data : value) (schema : ZodSchema T)
  : Result Error T :=
  match safeParse schema data with
  | Err error =>
      Err (new_Error ("Invalid data for " ++ dquote ++ flagName ++ dquote ++ ":"
                      ++ newline ++ formatZodError error))
  | Ok data' => Ok data'
  end.

(** ** [schemas.ts] *)

Definition CookieSchema : ZodObject :=
  passthrough (z_object
    [ ("name", z_string);
      ("value", z_string);
      ("domain", z_string);
      ("path", z_string);
      ("expires", optional z_number);
      ("httpOnly", optional z_boolean);
      ("secure", optional z_boolean);
      ("sameSite", optional (z_enum ["Strict"; "Lax"; "None"]));
      ("url", optional z_string) ]).

Definition CookiesSchema : ZodSchema value :=
  z_union [z_array CookieSchema; parse_object CookieSchema].

Definition HeadersSchema : ZodSchema value := z_record z_string z_string.

Definition AuthSchema : ZodObject :=
  z_object
    [ ("username", z_string);
      ("password", z_string);
      ("origin", optional z_string);
      ("send", optional (z_enum ["unauthorized"; "always"])) ].

Definition FirefoxPrefsSchema : ZodSchema value :=
  z_record z_string (z_union [z_string; z_number; z_boolean]).

Definition OverrideHostSchema : ZodSchema value := z_record z_string z_string.

Definition StringArraySchema : ZodSchema value := z_array z_string.

Definition PositiveIntSchema : ZodNumber := positive (int z_coerce_number).
Definition PositiveFloatSchema : ZodNumber := positive z_coerce_number.

(** ** [config.ts]

    The declarations of [CLIOptions], [LaunchOptions] ([types.ts]) and
    [DEFAULT_OPTIONS] ([defaultOptions.ts]) are not among the sources: the
    fields and their types are read off their uses in [normalizeCLIConfig],
    an optional field being [None] when it is [undefined], and the defaults
    are a parameter of the development. The field [list] is [list_] here. *)

Module Config.

Record LaunchOptions : Type := {
  url : string;
  browser : string;
  width : number;
  height : number;
  frameRate : number;
  timeout : number;
  blockDomains : list string;
  block : list string;
  disableJS : bool;
  debug : bool;
  html : bool;
  openHtml : bool;
  list_ : bool;
  connectionType : value;
  auth : value;
  zip : bool;
  dry : bool;
  delayUsing : string;
  cookies : option value;
  headers : option value;
  delay : option value;
  firefoxPrefs : option value;
  overrideHost : option value;
  args : option (list string);
  cpuThrottle : option number;
  uploadUrl : option string
}.

(** [config.f = v], one definition per field the normaliser assigns. *)
Definition set_cookies (v : value) (c : LaunchOptions) : LaunchOptions :=
  {| url := url c; browser := browser c; width := width c; height := height c;
     frameRate := frameRate c; timeout := timeout c; blockDomains := blockDomains c;
     block := block c; disableJS := disableJS c; debug := debug c; html := html c;
     openHtml := openHtml c; list_ := list_ c; connectionType := connectionType c;
     auth := auth c; zip := zip c; dry := dry c; delayUsing := delayUsing c;
     cookies := Some v; headers := headers c; delay := delay c;
     firefoxPrefs := firefoxPrefs c; overrideHost := overrideHost c; args := args c;
     cpuThrottle := cpuThrottle c; uploadUrl := uploadUrl c |}.

Definition set_headers (v : value) (c : LaunchOptions) : LaunchOptions :=
  {| url := url c; browser := browser c; width := width c; height := height c;
     frameRate := frameRate c; timeout := timeout c; blockDomains := blockDomains c;
     block := block c; disableJS := disableJS c; debug := debug c; html := html c;
     openHtml := openHtml c; list_ := list_ c; connectionType := connectionType c;
     auth := auth c; zip := zip c; dry := dry c; delayUsing := delayUsing c;
     cookies := cookies c; headers := Some v; delay := delay c;
     firefoxPrefs := firefoxPrefs c; overrideHost := overrideHost c; args := args c;
     cpuThrottle := cpuThrottle c; uploadUrl := uploadUrl c |}.

Definition set_auth (v : value) (c : LaunchOptions) : LaunchOptions :=
  {| url := url c; browser := browser c; width := width c; height := height c;
     frameRate := frameRate c; timeout := timeout c; blockDomains := blockDomains c;
     block := block c; disableJS := disableJS c; debug := debug c; html := html c;
     openHtml := openHtml c; list_ := list_ c; connectionType := connectionType c;
     auth := v; zip := zip c; dry := dry c; delayUsing := delayUsing c;
     cookies := cookies c; headers := headers c; delay := delay c;
     firefoxPrefs := firefoxPrefs c; overrideHost := overrideHost c; args := args c;
     cpuThrottle := cpuThrottle c; uploadUrl := uploadUrl c |}.

Definition set_delay (v : value) (c : LaunchOptions) : LaunchOptions :=
  {| url := url c; browser := browser c; width := width c; height := height c;
     frameRate := frameRate c; timeout := timeout c; blockDomains := blockDomains c;
     block := block c; disableJS := disableJS c; debug := debug c; html := html c;
     openHtml := openHtml c; list_ := list_ c; connectionType := connectionType c;
     auth := auth c; zip := zip c; dry := dry c; delayUsing := delayUsing c;
     cookies := cookies c; headers := headers c; delay := Some v;
     firefoxPrefs := firefoxPrefs c; overrideHost := overrideHost c; args := args c;
     cpuThrottle := cpuThrottle c; uploadUrl := uploadUrl c |}.

Definition set_delayUsing (v : string) (c : LaunchOptions) : LaunchOptions :=
  {| url := url c; browser := browser c; width := width c; height := height c;
     frameRate := frameRate c; timeout := timeout c; blockDomains := blockDomains c;
     block := block c; disableJS := disableJS c; debug := debug c; html := html c;
     openHtml := openHtml c; list_ := list_ c; connectionType := connectionType c;
     auth := auth c; zip := zip c; dry := dry c; delayUsing := v; cookies := cookies c;
     headers := headers c; delay := delay c; firefoxPrefs := firefoxPrefs c;
     overrideHost := overrideHost c; args := args c; cpuThrottle := cpuThrottle c;
     uploadUrl := uploadUrl c |}.

Definition set_firefoxPrefs (v : value) (c : LaunchOptions) : LaunchOptions :=
  {| url := url c; browser := browser c; width := width c; height := height c;
     frameRate := frameRate c; timeout := timeout c; blockDomains := blockDomains c;
     block := block c; disableJS := disableJS c; debug := debug c; html := html c;
     openHtml := openHtml c; list_ := list_ c; connectionType := connectionType c;
     auth := auth c; zip := zip c; dry := dry c; delayUsing := delayUsing c;
     cookies := cookies c; headers := headers c; delay := delay c;
     firefoxPrefs := Some v; overrideHost := overrideHost c; args := args c;
     cpuThrottle := cpuThrottle c; uploadUrl := uploadUrl c |}.

Definition set_overrideHost (v : value) (c : LaunchOptions) : LaunchOptions :=
  {| url := url c; browser := browser c; width := width c; height := height c;
     frameRate := frameRate c; timeout := timeout c; blockDomains := blockDomains c;
     block := block c; disableJS := disableJS c; debug := debug c; html := html c;
     openHtml := openHtml c; list_ := list_ c; connectionType := connectionType c;
     auth := auth c; zip := zip c; dry := dry c; delayUsing := delayUsing c;
     cookies := cookies c; headers := headers c; delay := delay c;
     firefoxPrefs := firefoxPrefs c; overrideHost := Some v; args := args c;
     cpuThrottle := cpuThrottle c; uploadUrl := uploadUrl c |}.

Definition set_args (v : list string) (c : LaunchOptions) : LaunchOptions :=
  {| url := url c; browser := browser c; width := width c; height := height c;
     frameRate := frameRate c; timeout := timeout c; blockDomains := blockDomains c;
     block := block c; disableJS := disableJS c; debug := debug c; html := html c;
     openHtml := openHtml c; list_ := list_ c; connectionType := connectionType c;
     auth := auth c; zip := zip c; dry := dry c; delayUsing := delayUsing c;
     cookies := cookies c; headers := headers c; delay := delay c;
     firefoxPrefs := firefoxPrefs c; overrideHost := overrideHost c; args := Some v;
     cpuThrottle := cpuThrottle c; uploadUrl := uploadUrl c |}.

Definition set_cpuThrottle (v : number) (c : LaunchOptions) : LaunchOptions :=
  {| url := url c; browser := browser c; width := width c; height := height c;
     frameRate := frameRate c; timeout := timeout c; blockDomains := blockDomains c;
     block := block c; disableJS := disableJS c; debug := debug c; html := html c;
     openHtml := openHtml c; list_ := list_ c; connectionType := connectionType c;
     auth := auth c; zip := zip c; dry := dry c; delayUsing := delayUsing c;
     cookies := cookies c; headers := headers c; delay := delay c;
     firefoxPrefs := firefoxPrefs c; overrideHost := overrideHost c; args := args c;
     cpuThrottle := Some v; uploadUrl := uploadUrl c |}.

Definition set_block (v : list string) (c : LaunchOptions) : LaunchOptions :=
  {| url := url c; browser := browser c; width := width c; height := height c;
     frameRate := frameRate c; timeout := timeout c; blockDomains := blockDomains c;
     block := v; disableJS := disableJS c; debug := debug c; html := html c;
     openHtml := openHtml c; list_ := list_ c; connectionType := connectionType c;
     auth := auth c; zip := zip c; dry := dry c; delayUsing := delayUsing c;
     cookies := cookies c; headers := headers c; delay := delay c;
     firefoxPrefs := firefoxPrefs c; overrideHost := overrideHost c; args := args c;
     cpuThrottle := cpuThrottle c; uploadUrl := uploadUrl c |}.

Definition set_blockDomains (v : list string) (c : LaunchOptions) : LaunchOptions :=
  {| url := url c; browser := browser c; width := width c; height := height c;
     frameRate := frameRate c; timeout := timeout c; blockDomains := v;
     block := block c; disableJS := disableJS c; debug := debug c; html := html c;
     openHtml := openHtml c; list_ := list_ c; connectionType := connectionType c;
     auth := auth c; zip := zip c; dry := dry c; delayUsing := delayUsing c;
     cookies := cookies c; headers := headers c; delay := delay c;
     firefoxPrefs := firefoxPrefs c; overrideHost := overrideHost c; args := args c;
     cpuThrottle := cpuThrottle c; uploadUrl := uploadUrl c |}.

Definition set_uploadUrl (v : string) (c : LaunchOptions) : LaunchOptions :=
  {| url := url c; browser := browser c; width := width c; height := height c;
     frameRate := frameRate c; timeout := timeout c; blockDomains := blockDomains c;
     block := block c; disableJS := disableJS c; debug := debug c; html := html c;
     openHtml := openHtml c; list_ := list_ c; connectionType := connectionType c;
     auth := auth c; zip := zip c; dry := dry c; delayUsing := delayUsing c;
     cookies := cookies c; headers := headers c; delay := delay c;
     firefoxPrefs := firefoxPrefs c; overrideHost := overrideHost c; args := args c;
     cpuThrottle := cpuThrottle c; uploadUrl := Some v |}.

End Config.

Record DefaultOptions : Type := {
  default_browser : string;
  default_width : number;
  default_height : number;
  default_frameRate : number;
  default_timeout : number;
  default_blockDomains : list string;
  default_block : list string;
  default_disableJS : bool;
  default_debug : bool;
  default_html : bool;
  default_openHtml : bool;
  default_list : bool;
  default_connectionType : value;
  default_auth : value;
  default_zip : bool;
  default_dry : bool;
  default_delayUsing : string
}.

(** [x || d] on an optional string, boolean and array, [x ?? d] on a number *)
Definition or_string (x : option string) (d : string) : string :=
  match x with
  | Some s => if truthy_string s then s else d
  | None => d
  end.

Definition or_value (x : option string) (d : value) : value :=
  match x with
  | Some s => if truthy_string s then VStr s else d
  | None => d
  end.

Definition or_bool (x : option bool) (d : bool) : bool :=
  match x with
  | Some true => true
  | _ => d
  end.

Definition or_array {A} (x : option (list A)) (d : list A) : list A :=
  match x with
  | Some l => l
  | None => d
  end.

Definition nullish (x : option number) (d : number) : number :=
  match x with
  | Some n => n
  | None => d
  end.

(** The string elements of an array that [StringArraySchema] accepted. *)
Definition string_elems (v : value) : list string :=
  match v with
  | VArr l => flat_map (fun x => match x with VStr s => [s] | _ => [] end) l
  | _ => []
  end.

(** Parse the command line parameters options whether they be a JSON array
    or comma separated strings. [chosen] is the array the loop pushes to. *)
Definition parseJSONArrayOrCommaSeparatedStrings (flagName : string) (choices : list string)
  : Result Error (list string) :=
  fold_left
    (fun (state : Result Error (list string)) (opt_group : string) =>
       (chosen <- state ;;
        if includes "[" opt_group then
          parsed_ <- JSON_parse opt_group ;;
          strings <- parseUnknown flagName parsed_ StringArraySchema ;;
          Ok (chosen ++ string_elems strings)%list
        else
          Ok (fold_left
                (fun chosen opt => if truthy_string opt then (chosen ++ [opt])%list else chosen)
                (split "," opt_group) chosen))%result)
    choices (Ok []).

Definition problem_parsing (flag : string) (err : Error) : Error :=
  new_Error ("Problem parsing " ++ dquote ++ flag ++ dquote ++ " options - "
             ++ error_message err).

(** [if (x) { ... }] on an optional string, value and number: the block runs
    on a truthy [x] and the configuration is left as it is otherwise. *)
Definition if_string {A} (x : option string) (config : A) (block_ : string -> Result Error A)
  : Result Error A :=
  match x with
  | Some s => if truthy_string s then block_ s else Ok config
  | None => Ok config
  end.

Definition if_value {A} (x : option value) (config : A) (assign : value -> A -> A) : A :=
  match x with
  | Some v => if truthy v then assign v config else config
  | None => config
  end.

Definition if_number {A} (x : option number) (config : A) (assign : number -> A -> A) : A :=
  match x with
  | Some n => if truthy_number n then assign n config else config
  | None => config
  end.

(** *** First revision of [config.ts]: the structured options are JSON text

    The structured options reach [parseCLIOption], whose parameter is a
    string: they are strings here. *)

Module CliText.

Module Options.

Record CLIOptions : Type := {
  url : string;
  browser : option string;
  width : option number;
  height : option number;
  frameRate : option number;
  timeout : option number;
  blockDomains : option (list string);
  block : option (list string);
  disableJS : option bool;
  debug : option bool;
  html : option bool;
  openHtml : option bool;
  list_ : option bool;
  connectionType : option string;
  zip : option bool;
  dry : option bool;
  cookies : option string;
  headers : option string;
  auth : option string;
  delay : option string;
  delayUsing : option string;
  firefoxPrefs : option string;
  overrideHost : option string;
  flags : option (list string);
  cpuThrottle : option number;
  uploadUrl : option string
}.

End Options.

Section Normalize.

Variable DEFAULT_OPTIONS : DefaultOptions.
(** [new URL(s)] does not throw. *)
Variable URL_canParse : string -> bool.

(** Normalize raw CLI options into a typed LaunchOptions config. *)
Definition normalizeCLIConfig (options : Options.CLIOptions) : Result Error Config.LaunchOptions :=
 (
  let config : Config.LaunchOptions :=
    {| Config.url := Options.url options;
       Config.browser := or_string (Options.browser options) (default_browser DEFAULT_OPTIONS);
       Config.width := nullish (Options.width options) (default_width DEFAULT_OPTIONS);
       Config.height := nullish (Options.height options) (default_height DEFAULT_OPTIONS);
       Config.frameRate := nullish (Options.frameRate options) (default_frameRate DEFAULT_OPTIONS);
       Config.timeout := nullish (Options.timeout options) (default_timeout DEFAULT_OPTIONS);
       Config.blockDomains :=
         or_array (Options.blockDomains options) (default_blockDomains DEFAULT_OPTIONS);
       Config.block := or_array (Options.block options) (default_block DEFAULT_OPTIONS);
       Config.disableJS := or_bool (Options.disableJS options) (default_disableJS DEFAULT_OPTIONS);
       Config.debug := or_bool (Options.debug options) (default_debug DEFAULT_OPTIONS);
       Config.html := or_bool (Options.html options) (default_html DEFAULT_OPTIONS);
       Config.openHtml := or_bool (Options.openHtml options) (default_openHtml DEFAULT_OPTIONS);
       Config.list_ := or_bool (Options.list_ options) (default_list DEFAULT_OPTIONS);
       Config.connectionType :=
         or_value (Options.connectionType options) (default_connectionType DEFAULT_OPTIONS);
       Config.auth := default_auth DEFAULT_OPTIONS;
       Config.zip := or_bool (Options.zip options) (default_zip DEFAULT_OPTIONS);
       Config.dry := or_bool (Options.dry options) (default_dry DEFAULT_OPTIONS);
       Config.delayUsing := default_delayUsing DEFAULT_OPTIONS;
       Config.cookies := None; Config.headers := None; Config.delay := None;
       Config.firefoxPrefs := None; Config.overrideHost := None; Config.args := None;
       Config.cpuThrottle := None; Config.uploadUrl := None |} in
  (* Parse JSON strings from CLI (pass through objects from programmatic) *)
  config <-
    if_string (Options.cookies options) config
      (fun cookies =>
         v <- parseCLIOption "--cookies" cookies CookiesSchema ;;
         Ok (Config.set_cookies v config)) ;;
  config <-
    if_string (Options.headers options) config
      (fun headers =>
         v <- parseCLIOption "--headers" headers HeadersSchema ;;
         Ok (Config.set_headers v config)) ;;
  config <-
    if_string (Options.auth options) config
      (fun auth =>
         v <- parseCLIOption "--auth" auth (parse_object AuthSchema) ;;
         Ok (Config.set_auth v config)) ;;
  config <-
    if_string (Options.delay options) config
      (fun delay =>
         v <- JSON_parse delay ;;
         Ok (Config.set_delay v config)) ;;
  let config :=
    match Options.delayUsing options with
    | Some delayUsing =>
        if truthy_string delayUsing
           && (String.eqb delayUsing "fulfill" || String.eqb delayUsing "continue")
        then Config.set_delayUsing delayUsing config
        else config
    | None => config
    end in
  config <-
    if_string (Options.firefoxPrefs options) config
      (fun firefoxPrefs =>
         v <- parseCLIOption "--firefoxPrefs" firefoxPrefs FirefoxPrefsSchema ;;
         Ok (Config.set_firefoxPrefs v config)) ;;
  config <-
    if_string (Options.overrideHost options) config
      (fun overrideHost =>
         v <- parseCLIOption "--overrideHost" overrideHost OverrideHostSchema ;;
         Ok (Config.set_overrideHost v config)) ;;
  (* flags already parsed to string[] by argParser *)
  let config :=
    match Options.flags options with
    | Some flags => Config.set_args flags config
    | None => config
    end in
  (* cpuThrottle already parsed to number by argParser *)
  let config := if_number (Options.cpuThrottle options) config Config.set_cpuThrottle in
  config <-
    match Options.block options with
    | Some choices =>
        try_catch
          (chosen <- parseJSONArrayOrCommaSeparatedStrings "--block" choices ;;
           Ok (Config.set_block chosen config))
          (problem_parsing "--block")
    | None => Ok config
    end ;;
  config <-
    match Options.blockDomains options with
    | Some choices =>
        try_catch
          (chosen <- parseJSONArrayOrCommaSeparatedStrings "--blockDomains" choices ;;
           Ok (Config.set_blockDomains chosen config))
          (problem_parsing "--blockDomains")
    | None => Ok config
    end ;;
  (* Validate uploadUrl if provided *)
  config <-
    if_string (Options.uploadUrl options) config
      (fun uploadUrl =>
         if URL_canParse uploadUrl then Ok (Config.set_uploadUrl uploadUrl config)
         else Err (new_Error "--uploadUrl must be a valid URL")) ;;
  Ok config)%result.

End Normalize.

End CliText.

(** *** Second revision of [config.ts]: the structured options are already
    parsed and pass through directly *)

Module PreParsed.

Module Options.

Record CLIOptions : Type := {
  url : string;
  browser : option string;
  width : option number;
  height : option number;
  frameRate : option number;
  timeout : option number;
  blockDomains : option (list string);
  block : option (list string);
  disableJS : option bool;
  debug : option bool;
  html : option bool;
  openHtml : option bool;
  list_ : option bool;
  connectionType : option string;
  zip : option bool;
  dry : option bool;
  cookies : option value;
  headers : option value;
  auth : option value;
  delay : option value;
  delayUsing : option string;
  firefoxPrefs : option value;
  overrideHost : option value;
  flags : option (list string);
  cpuThrottle : option number;
  uploadUrl : option string
}.

End Options.

Section Normalize.

Variable DEFAULT_OPTIONS : DefaultOptions.
(** [new URL(s)] does not throw. *)
Variable URL_canParse : string -> bool.

(** Normalize CLI options into a typed LaunchOptions config. Applies
    defaults and maps CLI field names to internal config fields. *)
Definition normalizeCLIConfig (options : Options.CLIOptions) : Result Error Config.LaunchOptions :=
 (
  let config : Config.LaunchOptions :=
    {| Config.url := Options.url options;
       Config.browser := or_string (Options.browser options) (default_browser DEFAULT_OPTIONS);
       Config.width := nullish (Options.width options) (default_width DEFAULT_OPTIONS);
       Config.height := nullish (Options.height options) (default_height DEFAULT_OPTIONS);
       Config.frameRate := nullish (Options.frameRate options) (default_frameRate DEFAULT_OPTIONS);
       Config.timeout := nullish (Options.timeout options) (default_timeout DEFAULT_OPTIONS);
       Config.blockDomains :=
         or_array (Options.blockDomains options) (default_blockDomains DEFAULT_OPTIONS);
       Config.block := or_array (Options.block options) (default_block DEFAULT_OPTIONS);
       Config.disableJS := or_bool (Options.disableJS options) (default_disableJS DEFAULT_OPTIONS);
       Config.debug := or_bool (Options.debug options) (default_debug DEFAULT_OPTIONS);
       Config.html := or_bool (Options.html options) (default_html DEFAULT_OPTIONS);
       Config.openHtml := or_bool (Options.openHtml options) (default_openHtml DEFAULT_OPTIONS);
       Config.list_ := or_bool (Options.list_ options) (default_list DEFAULT_OPTIONS);
       Config.connectionType :=
         or_value (Options.connectionType options) (default_connectionType DEFAULT_OPTIONS);
       Config.auth := default_auth DEFAULT_OPTIONS;
       Config.zip := or_bool (Options.zip options) (default_zip DEFAULT_OPTIONS);
       Config.dry := or_bool (Options.dry options) (default_dry DEFAULT_OPTIONS);
       Config.delayUsing := default_delayUsing DEFAULT_OPTIONS;
       Config.cookies := None; Config.headers := None; Config.delay := None;
       Config.firefoxPrefs := None; Config.overrideHost := None; Config.args := None;
       Config.cpuThrottle := None; Config.uploadUrl := None |} in
  (* Already-parsed JSON options: pass through directly *)
  let config := if_value (Options.cookies options) config Config.set_cookies in
  let config := if_value (Options.headers options) config Config.set_headers in
  let config := if_value (Options.auth options) config Config.set_auth in
  let config := if_value (Options.delay options) config Config.set_delay in
  let config :=
    match Options.delayUsing options with
    | Some delayUsing =>
        if truthy_string delayUsing then Config.set_delayUsing delayUsing config else config
    | None => config
    end in
  let config := if_value (Options.firefoxPrefs options) config Config.set_firefoxPrefs in
  let config := if_value (Options.overrideHost options) config Config.set_overrideHost in
  (* flags already parsed to string[] by argParser *)
  let config :=
    match Options.flags options with
    | Some flags => Config.set_args flags config
    | None => config
    end in
  (* cpuThrottle already parsed to number by argParser *)
  let config := if_number (Options.cpuThrottle options) config Config.set_cpuThrottle in
  config <-
    match Options.block options with
    | Some choices =>
        try_catch
          (chosen <- parseJSONArrayOrCommaSeparatedStrings "--block" choices ;;
           Ok (Config.set_block chosen config))
          (problem_parsing "--block")
    | None => Ok config
    end ;;
  config <-
    match Options.blockDomains options with
    | Some choices =>
        try_catch
          (chosen <- parseJSONArrayOrCommaSeparatedStrings "--blockDomains" choices ;;
           Ok (Config.set_blockDomains chosen config))
          (problem_parsing "--blockDomains")
    | None => Ok config
    end ;;
  (* Validate uploadUrl if provided *)
  config <-
    if_string (Options.uploadUrl options) config
      (fun uploadUrl =>
         if URL_canParse uploadUrl then Ok (Config.set_uploadUrl uploadUrl config)
         else Err (new_Error "--uploadUrl must be a valid URL")) ;;
  Ok config)%result.

End Normalize.

End PreParsed.

(** * Specification

    What the properties are stated with: the messages, what each step of
    the normaliser contributes, the behaviour the specification describes,
    and the options the examples run on. *)

(** ** Messages *)

Definition invalid_json_message (flagName detail : string) : string :=
  "Invalid JSON for " ++ dquote ++ flagName ++ dquote ++ ": " ++ detail.

Definition invalid_data_message (flagName : string) (lines : list string) : string :=
  "Invalid data for " ++ dquote ++ flagName ++ dquote ++ ":" ++ newline
  ++ join newline lines.

Definition problem_parsing_message (flag inner : string) : string :=
  "Problem parsing " ++ dquote ++ flag ++ dquote ++ " options - " ++ inner.

(** The path of an issue as the report shows it. *)
Definition rendered_path (segs : list PathSeg) : string :=
  match segs with
  | [] => "(root)"
  | _ => join "." (map seg_string segs)
  end.

(** ** The steps of the normaliser *)

(** Whether a step [if (x) { config.f = P(x) }] throws. *)
Definition step_fails {B} (x : option string) (P : string -> Result Error B) : bool :=
  match x with
  | Some s => truthy_string s && is_Err (P s)
  | None => false
  end.

(** What the step assigns, when it assigns. *)
Definition step_value {B} (x : option string) (P : string -> Result Error B) : option B :=
  match x with
  | Some s => if truthy_string s then match P s with Ok v => Some v | Err _ => None end
              else None
  | None => None
  end.

(** Whether a step [if (x) try { config.f = parse(flag, x) } catch ...]
    throws, and what it assigns. *)
Definition list_fails (flag : string) (x : option (list string)) : bool :=
  match x with
  | Some choices => is_Err (parseJSONArrayOrCommaSeparatedStrings flag choices)
  | None => false
  end.

Definition list_value (flag : string) (x : option (list string)) : option (list string) :=
  match x with
  | Some choices =>
      match parseJSONArrayOrCommaSeparatedStrings flag choices with
      | Ok l => Some l
      | Err _ => None
      end
  | None => None
  end.

(** Whether the step that checks [uploadUrl] throws, and what it assigns. *)
Definition upload_fails (URL_canParse : string -> bool) (x : option string) : bool :=
  match x with
  | Some s => truthy_string s && negb (URL_canParse s)
  | None => false
  end.

Definition upload_value (URL_canParse : string -> bool) (x : option string) : option string :=
  match x with
  | Some s => if truthy_string s && URL_canParse s then Some s else None
  | None => None
  end.

(** [if (x) config.f = x], written on the configuration. *)
Definition upd {L V} (x : option V) (g : V -> L -> L) (c : L) : L :=
  match x with
  | Some v => g v c
  | None => c
  end.

Definition truthy_opt {V} (t : V -> bool) (x : option V) : option V :=
  match x with
  | Some v => if t v then Some v else None
  | None => None
  end.

(** *** The first revision *)

(** The options with their defaults, before any optional field is set. *)
Definition text_defaulted (DEFAULT_OPTIONS : DefaultOptions)
  (options : CliText.Options.CLIOptions) : Config.LaunchOptions :=
    {| Config.url := CliText.Options.url options;
       Config.browser := or_string (CliText.Options.browser options)
         (default_browser DEFAULT_OPTIONS);
       Config.width := nullish (CliText.Options.width options) (default_width DEFAULT_OPTIONS);
       Config.height := nullish (CliText.Options.height options) (default_height DEFAULT_OPTIONS);
       Config.frameRate := nullish (CliText.Options.frameRate options)
         (default_frameRate DEFAULT_OPTIONS);
       Config.timeout := nullish (CliText.Options.timeout options)
         (default_timeout DEFAULT_OPTIONS);
       Config.blockDomains :=
         or_array (CliText.Options.blockDomains options) (default_blockDomains DEFAULT_OPTIONS);
       Config.block := or_array (CliText.Options.block options) (default_block DEFAULT_OPTIONS);
       Config.disableJS := or_bool (CliText.Options.disableJS options)
         (default_disableJS DEFAULT_OPTIONS);
       Config.debug := or_bool (CliText.Options.debug options) (default_debug DEFAULT_OPTIONS);
       Config.html := or_bool (CliText.Options.html options) (default_html DEFAULT_OPTIONS);
       Config.openHtml := or_bool (CliText.Options.openHtml options)
         (default_openHtml DEFAULT_OPTIONS);
       Config.list_ := or_bool (CliText.Options.list_ options) (default_list DEFAULT_OPTIONS);
       Config.connectionType :=
         or_value (CliText.Options.connectionType options) (default_connectionType DEFAULT_OPTIONS);
       Config.auth := default_auth DEFAULT_OPTIONS;
       Config.zip := or_bool (CliText.Options.zip options) (default_zip DEFAULT_OPTIONS);
       Config.dry := or_bool (CliText.Options.dry options) (default_dry DEFAULT_OPTIONS);
       Config.delayUsing := default_delayUsing DEFAULT_OPTIONS;
       Config.cookies := None; Config.headers := None; Config.delay := None;
       Config.firefoxPrefs := None; Config.overrideHost := None; Config.args := None;
       Config.cpuThrottle := None; Config.uploadUrl := None |}.

Definition cookies_step (s : string) : Result Error value :=
  parseCLIOption "--cookies" s CookiesSchema.
Definition headers_step (s : string) : Result Error value :=
  parseCLIOption "--headers" s HeadersSchema.
Definition auth_step (s : string) : Result Error value :=
  parseCLIOption "--auth" s (parse_object AuthSchema).
Definition firefoxPrefs_step (s : string) : Result Error value :=
  parseCLIOption "--firefoxPrefs" s FirefoxPrefsSchema.
Definition overrideHost_step (s : string) : Result Error value :=
  parseCLIOption "--overrideHost" s OverrideHostSchema.

(** The [delayUsing] that overrides the default, if any. *)
Definition text_delayUsing_value (x : option string) : option string :=
  match x with
  | Some s =>
      if truthy_string s && (String.eqb s "fulfill" || String.eqb s "continue")
      then Some s else None
  | None => None
  end.

(** Whether one of the structured options makes the normaliser throw. *)
Definition text_json_fails (options : CliText.Options.CLIOptions) : bool :=
  step_fails (CliText.Options.cookies options) cookies_step
  || (step_fails (CliText.Options.headers options) headers_step
  || (step_fails (CliText.Options.auth options) auth_step
  || (step_fails (CliText.Options.delay options) JSON_parse
  || (step_fails (CliText.Options.firefoxPrefs options) firefoxPrefs_step
  || step_fails (CliText.Options.overrideHost options) overrideHost_step)))).

(** Whether the normaliser throws. *)
Definition text_fails (URL_canParse : string -> bool)
  (options : CliText.Options.CLIOptions) : bool :=
  step_fails (CliText.Options.cookies options) cookies_step
  || (step_fails (CliText.Options.headers options) headers_step
  || (step_fails (CliText.Options.auth options) auth_step
  || (step_fails (CliText.Options.delay options) JSON_parse
  || (step_fails (CliText.Options.firefoxPrefs options) firefoxPrefs_step
  || (step_fails (CliText.Options.overrideHost options) overrideHost_step
  || (list_fails "--block" (CliText.Options.block options)
  || (list_fails "--blockDomains" (CliText.Options.blockDomains options)
  || upload_fails URL_canParse (CliText.Options.uploadUrl options)))))))).

(** The configuration the normaliser returns when it does not throw. *)
Definition text_assemble (DEFAULT_OPTIONS : DefaultOptions) (URL_canParse : string -> bool)
  (options : CliText.Options.CLIOptions) : Config.LaunchOptions :=
  upd (upload_value URL_canParse (CliText.Options.uploadUrl options)) Config.set_uploadUrl
  (upd (list_value "--blockDomains" (CliText.Options.blockDomains options)) Config.set_blockDomains
  (upd (list_value "--block" (CliText.Options.block options)) Config.set_block
  (upd (truthy_opt truthy_number (CliText.Options.cpuThrottle options)) Config.set_cpuThrottle
  (upd (CliText.Options.flags options) Config.set_args
  (upd (step_value (CliText.Options.overrideHost options) overrideHost_step) Config.set_overrideHost
  (upd (step_value (CliText.Options.firefoxPrefs options) firefoxPrefs_step) Config.set_firefoxPrefs
  (upd (text_delayUsing_value (CliText.Options.delayUsing options)) Config.set_delayUsing
  (upd (step_value (CliText.Options.delay options) JSON_parse) Config.set_delay
  (upd (step_value (CliText.Options.auth options) auth_step) Config.set_auth
  (upd (step_value (CliText.Options.headers options) headers_step) Config.set_headers
  (upd (step_value (CliText.Options.cookies options) cookies_step) Config.set_cookies
       (text_defaulted DEFAULT_OPTIONS options)))))))))))).

(** *** The second revision *)

(** The options with their defaults, before any optional field is set. *)
Definition typed_defaulted (DEFAULT_OPTIONS : DefaultOptions)
  (options : PreParsed.Options.CLIOptions) : Config.LaunchOptions :=
    {| Config.url := PreParsed.Options.url options;
       Config.browser := or_string (PreParsed.Options.browser options)
         (default_browser DEFAULT_OPTIONS);
       Config.width := nullish (PreParsed.Options.width options) (default_width DEFAULT_OPTIONS);
       Config.height := nullish (PreParsed.Options.height options) (default_height DEFAULT_OPTIONS);
       Config.frameRate := nullish (PreParsed.Options.frameRate options)
         (default_frameRate DEFAULT_OPTIONS);
       Config.timeout := nullish (PreParsed.Options.timeout options)
         (default_timeout DEFAULT_OPTIONS);
       Config.blockDomains :=
         or_array (PreParsed.Options.blockDomains options) (default_blockDomains DEFAULT_OPTIONS);
       Config.block := or_array (PreParsed.Options.block options) (default_block DEFAULT_OPTIONS);
       Config.disableJS := or_bool (PreParsed.Options.disableJS options)
         (default_disableJS DEFAULT_OPTIONS);
       Config.debug := or_bool (PreParsed.Options.debug options) (default_debug DEFAULT_OPTIONS);
       Config.html := or_bool (PreParsed.Options.html options) (default_html DEFAULT_OPTIONS);
       Config.openHtml := or_bool (PreParsed.Options.openHtml options)
         (default_openHtml DEFAULT_OPTIONS);
       Config.list_ := or_bool (PreParsed.Options.list_ options) (default_list DEFAULT_OPTIONS);
       Config.connectionType :=
         or_value (PreParsed.Options.connectionType options)
           (default_connectionType DEFAULT_OPTIONS);
       Config.auth := default_auth DEFAULT_OPTIONS;
       Config.zip := or_bool (PreParsed.Options.zip options) (default_zip DEFAULT_OPTIONS);
       Config.dry := or_bool (PreParsed.Options.dry options) (default_dry DEFAULT_OPTIONS);
       Config.delayUsing := default_delayUsing DEFAULT_OPTIONS;
       Config.cookies := None; Config.headers := None; Config.delay := None;
       Config.firefoxPrefs := None; Config.overrideHost := None; Config.args := None;
       Config.cpuThrottle := None; Config.uploadUrl := None |}.

(** Whether the normaliser throws. *)
Definition typed_fails (URL_canParse : string -> bool)
  (options : PreParsed.Options.CLIOptions) : bool :=
  list_fails "--block" (PreParsed.Options.block options)
  || (list_fails "--blockDomains" (PreParsed.Options.blockDomains options)
  || upload_fails URL_canParse (PreParsed.Options.uploadUrl options)).

(** The configuration the normaliser returns when it does not throw. *)
Definition typed_assemble (DEFAULT_OPTIONS : DefaultOptions) (URL_canParse : string -> bool)
  (options : PreParsed.Options.CLIOptions) : Config.LaunchOptions :=
  upd (upload_value URL_canParse (PreParsed.Options.uploadUrl options)) Config.set_uploadUrl
  (upd (list_value "--blockDomains" (PreParsed.Options.blockDomains options))
      Config.set_blockDomains
  (upd (list_value "--block" (PreParsed.Options.block options)) Config.set_block
  (upd (truthy_opt truthy_number (PreParsed.Options.cpuThrottle options)) Config.set_cpuThrottle
  (upd (PreParsed.Options.flags options) Config.set_args
  (upd (truthy_opt truthy (PreParsed.Options.overrideHost options)) Config.set_overrideHost
  (upd (truthy_opt truthy (PreParsed.Options.firefoxPrefs options)) Config.set_firefoxPrefs
  (upd (truthy_opt truthy_string (PreParsed.Options.delayUsing options)) Config.set_delayUsing
  (upd (truthy_opt truthy (PreParsed.Options.delay options)) Config.set_delay
  (upd (truthy_opt truthy (PreParsed.Options.auth options)) Config.set_auth
  (upd (truthy_opt truthy (PreParsed.Options.headers options)) Config.set_headers
  (upd (truthy_opt truthy (PreParsed.Options.cookies options)) Config.set_cookies
       (typed_defaulted DEFAULT_OPTIONS options)))))))))))).

(** ** The behaviour the specification describes *)

(** What one entry contributes, in the words of the specification. *)
Definition entry_strings (flagName entry : string) : Result Error (list string) :=
  if includes "[" entry then
    bind (JSON_parse entry) (fun parsed_ =>
    bind (parseUnknown flagName parsed_ StringArraySchema) (fun strings =>
    Ok (string_elems strings)))
  else Ok (filter truthy_string (split "," entry)).

(** The entries in order, flattened; the first entry that fails decides. *)
Fixpoint all_entries (flagName : string) (choices : list string)
  : Result Error (list string) :=
  match choices with
  | [] => Ok []
  | entry :: rest =>
      bind (entry_strings flagName entry) (fun l =>
      bind (all_entries flagName rest) (fun ls => Ok (l ++ ls)%list))
  end.

(** The path the specification gives a supplied value: parse and validate
    a string, validate anything else. *)
Definition routed_by_type (flagName : string) (schema : ZodSchema value) (supplied : value)
  : Result Error value :=
  match supplied with
  | VStr s => parseCLIOption flagName s schema
  | _ => parseUnknown flagName supplied schema
  end.

(** A normaliser chooses the path of the cookies by their runtime type. *)
Definition dispatches_on_type
  (normalize : PreParsed.Options.CLIOptions -> Result Error Config.LaunchOptions) : Prop :=
  forall (o : PreParsed.Options.CLIOptions) (v : value),
    PreParsed.Options.cookies o = Some v -> truthy v = true ->
    match routed_by_type "--cookies" CookiesSchema v with
    | Ok v' => forall c, normalize o = Ok c -> Config.cookies c = Some v'
    | Err _ => is_Err (normalize o) = true
    end.

(** A supplied non-empty text was parsed and validated to the result. *)
Definition parsed_and_validated (x : option string) (flagName : string)
  (schema : ZodSchema value) (result : option value) : Prop :=
  forall s, x = Some s -> s <> EmptyString ->
            exists v, parseCLIOption flagName s schema = Ok v /\ result = Some v.

(** A supplied non-empty text that does not parse and validate makes the
    normaliser throw. *)
Definition rejected_when_invalid {A} (x : option string) (flagName : string)
  (schema : ZodSchema value) (r : Result Error A) : Prop :=
  forall s, x = Some s -> s <> EmptyString ->
            is_Err (parseCLIOption flagName s schema) = true -> is_Err r = true.

(** A supplied truthy value is the result, as it is. *)
Definition passed_through (x : option value) (result : option value) : Prop :=
  forall v, x = Some v -> truthy v = true -> result = Some v.

(** The [delayUsing] the specification gives the configuration. *)
Definition lenient_delayUsing (supplied : option string) (default : string) : string :=
  match supplied with
  | Some s => if String.eqb s "fulfill" || String.eqb s "continue" then s else default
  | None => default
  end.

(** The sizes and rates of the configuration. *)
Definition dimensions (c : Config.LaunchOptions) : number * number * number * number :=
  (Config.width c, Config.height c, Config.frameRate c, Config.timeout c).

(** ** Options and defaults to run the normaliser on

    Of the defaults only the width, 1366, is fixed by the tests; the other
    values stand for those of [defaultOptions.ts], and [includes "://"] for
    the check [new URL] makes. The general statements below hold for every
    choice of defaults and of that check. *)

Definition quoted (s : string) : string :=
  string_of_list_ascii
    (map (fun c => if Ascii.eqb c "'" then chr 34 else c) (list_ascii_of_string s)).

Definition example_defaults : DefaultOptions :=
  {| default_browser := "chrome";
     default_width := number_of_Z 1366;
     default_height := number_of_Z 768;
     default_frameRate := number_of_Z 1;
     default_timeout := number_of_Z 30000;
     default_blockDomains := [];
     default_block := [];
     default_disableJS := false;
     default_debug := false;
     default_html := false;
     default_openHtml := false;
     default_list := false;
     default_connectionType := VBool false;
     default_auth := VBool false;
     default_zip := false;
     default_dry := false;
     default_delayUsing := "continue" |}.

Definition example_URL_canParse (s : string) : bool := includes "://" s.

(** Options for [https://example.com] with the given fields and no other. *)
Definition text_options (cookies delay delayUsing : option string)
  (block : option (list string)) (width cpuThrottle : option number)
  : CliText.Options.CLIOptions :=
  {| CliText.Options.url := "https://example.com"; CliText.Options.browser := None;
     CliText.Options.width := width; CliText.Options.height := None;
     CliText.Options.frameRate := None; CliText.Options.timeout := None;
     CliText.Options.blockDomains := None; CliText.Options.block := block;
     CliText.Options.disableJS := None; CliText.Options.debug := None;
     CliText.Options.html := None; CliText.Options.openHtml := None;
     CliText.Options.list_ := None; CliText.Options.connectionType := None;
     CliText.Options.zip := None; CliText.Options.dry := None;
     CliText.Options.cookies := cookies; CliText.Options.headers := None;
     CliText.Options.auth := None; CliText.Options.delay := delay;
     CliText.Options.delayUsing := delayUsing; CliText.Options.firefoxPrefs := None;
     CliText.Options.overrideHost := None; CliText.Options.flags := None;
     CliText.Options.cpuThrottle := cpuThrottle; CliText.Options.uploadUrl := None |}.

Definition typed_options (cookies delay : option value) (delayUsing : option string)
  (block : option (list string)) (width cpuThrottle : option number)
  : PreParsed.Options.CLIOptions :=
  {| PreParsed.Options.url := "https://example.com"; PreParsed.Options.browser := None;
     PreParsed.Options.width := width; PreParsed.Options.height := None;
     PreParsed.Options.frameRate := None; PreParsed.Options.timeout := None;
     PreParsed.Options.blockDomains := None; PreParsed.Options.block := block;
     PreParsed.Options.disableJS := None; PreParsed.Options.debug := None;
     PreParsed.Options.html := None; PreParsed.Options.openHtml := None;
     PreParsed.Options.list_ := None; PreParsed.Options.connectionType := None;
     PreParsed.Options.zip := None; PreParsed.Options.dry := None;
     PreParsed.Options.cookies := cookies; PreParsed.Options.headers := None;
     PreParsed.Options.auth := None; PreParsed.Options.delay := delay;
     PreParsed.Options.delayUsing := delayUsing; PreParsed.Options.firefoxPrefs := None;
     PreParsed.Options.overrideHost := None; PreParsed.Options.flags := None;
     PreParsed.Options.cpuThrottle := cpuThrottle; PreParsed.Options.uploadUrl := None |}.

(** The options [o] with [delayUsing] replaced. *)
Definition text_with_delayUsing (x : option string) (o : CliText.Options.CLIOptions)
  : CliText.Options.CLIOptions :=
  {| CliText.Options.url := CliText.Options.url o;
     CliText.Options.browser := CliText.Options.browser o;
     CliText.Options.width := CliText.Options.width o;
     CliText.Options.height := CliText.Options.height o;
     CliText.Options.frameRate := CliText.Options.frameRate o;
     CliText.Options.timeout := CliText.Options.timeout o;
     CliText.Options.blockDomains := CliText.Options.blockDomains o;
     CliText.Options.block := CliText.Options.block o;
     CliText.Options.disableJS := CliText.Options.disableJS o;
     CliText.Options.debug := CliText.Options.debug o;
     CliText.Options.html := CliText.Options.html o;
     CliText.Options.openHtml := CliText.Options.openHtml o;
     CliText.Options.list_ := CliText.Options.list_ o;
     CliText.Options.connectionType := CliText.Options.connectionType o;
     CliText.Options.zip := CliText.Options.zip o;
     CliText.Options.dry := CliText.Options.dry o;
     CliText.Options.cookies := CliText.Options.cookies o;
     CliText.Options.headers := CliText.Options.headers o;
     CliText.Options.auth := CliText.Options.auth o;
     CliText.Options.delay := CliText.Options.delay o; CliText.Options.delayUsing := x;
     CliText.Options.firefoxPrefs := CliText.Options.firefoxPrefs o;
     CliText.Options.overrideHost := CliText.Options.overrideHost o;
     CliText.Options.flags := CliText.Options.flags o;
     CliText.Options.cpuThrottle := CliText.Options.cpuThrottle o;
     CliText.Options.uploadUrl := CliText.Options.uploadUrl o |}.

Definition typed_with_delayUsing (x : option string) (o : PreParsed.Options.CLIOptions)
  : PreParsed.Options.CLIOptions :=
  {| PreParsed.Options.url := PreParsed.Options.url o;
     PreParsed.Options.browser := PreParsed.Options.browser o;
     PreParsed.Options.width := PreParsed.Options.width o;
     PreParsed.Options.height := PreParsed.Options.height o;
     PreParsed.Options.frameRate := PreParsed.Options.frameRate o;
     PreParsed.Options.timeout := PreParsed.Options.timeout o;
     PreParsed.Options.blockDomains := PreParsed.Options.blockDomains o;
     PreParsed.Options.block := PreParsed.Options.block o;
     PreParsed.Options.disableJS := PreParsed.Options.disableJS o;
     PreParsed.Options.debug := PreParsed.Options.debug o;
     PreParsed.Options.html := PreParsed.Options.html o;
     PreParsed.Options.openHtml := PreParsed.Options.openHtml o;
     PreParsed.Options.list_ := PreParsed.Options.list_ o;
     PreParsed.Options.connectionType := PreParsed.Options.connectionType o;
     PreParsed.Options.zip := PreParsed.Options.zip o;
     PreParsed.Options.dry := PreParsed.Options.dry o;
     PreParsed.Options.cookies := PreParsed.Options.cookies o;
     PreParsed.Options.headers := PreParsed.Options.headers o;
     PreParsed.Options.auth := PreParsed.Options.auth o;
     PreParsed.Options.delay := PreParsed.Options.delay o;
     PreParsed.Options.delayUsing := x;
     PreParsed.Options.firefoxPrefs := PreParsed.Options.firefoxPrefs o;
     PreParsed.Options.overrideHost := PreParsed.Options.overrideHost o;
     PreParsed.Options.flags := PreParsed.Options.flags o;
     PreParsed.Options.cpuThrottle := PreParsed.Options.cpuThrottle o;
     PreParsed.Options.uploadUrl := PreParsed.Options.uploadUrl o |}.

(** The delay of the test [rejects a non-number value]. *)
Definition delay_slow : string := quoted "{'.css$': 'slow'}".

(** The cookies of the test [passes through already-parsed cookies]. *)
Definition test_cookies : value :=
  VArr [VObj [("name", VStr "a"); ("value", VStr "b"); ("domain", VStr "d"); ("path", VStr "/")]].

Definition auth_bad_password_and_send : value :=
  VObj [("username", VStr "u"); ("password", VNum (number_of_Z 3)); ("send", VStr "never")].

Definition auth_issues : ZodError :=
  {| issues :=
       [ mkIssue "invalid_type" [PKey "password"] "Expected string, received number";
         mkIssue "invalid_enum_value" [PKey "send"]
           "Invalid enum value. Expected 'unauthorized' | 'always', received 'never'" ] |}.

(** ** Further behaviour of the validation engine, the schemas and the
    normaliser *)

Definition is_str (v : value) : bool :=
  match v with VStr _ => true | _ => false end.

Definition is_bool (v : value) : bool :=
  match v with VBool _ => true | _ => false end.

(** A number other than NaN. *)
Definition is_num (v : value) : bool :=
  match v with
  | VNum S754_nan => false
  | VNum _ => true
  | _ => false
  end.

(** Absent, or as [ok] wants it. *)
Definition absent_or (ok : value -> bool) (v : value) : bool :=
  match v with VUndefined => true | _ => ok v end.

Definition one_of (values : list string) (v : value) : bool :=
  match v with
  | VStr s => existsb (String.eqb s) values
  | _ => false
  end.

(** The issues of a result. *)
Definition errs {A} (r : Result (list ZodIssue) A) : list ZodIssue :=
  match r with
  | Ok _ => []
  | Err is_ => is_
  end.

(** What a map from strings to strings is, and the issues of a value that
    is none: one for each value that is not a string, at its key. *)
Definition string_map_accepts (v : value) : bool :=
  match v with
  | VObj props => forallb (fun kv => is_str (snd kv)) props
  | _ => false
  end.

Definition string_map_issues (v : value) : list ZodIssue :=
  match v with
  | VObj props =>
      flat_map (fun kv => if is_str (snd kv) then []
                          else [invalid_type [PKey (fst kv)] "string" (snd kv)]) props
  | _ => [invalid_type [] "object" v]
  end.

(** A preference value: a string, a number or a boolean. *)
Definition pref_ok (v : value) : bool := is_str v || is_num v || is_bool v.

Definition prefs_accepts (v : value) : bool :=
  match v with
  | VObj props => forallb (fun kv => pref_ok (snd kv)) props
  | _ => false
  end.

Definition prefs_issues (v : value) : list ZodIssue :=
  match v with
  | VObj props =>
      flat_map (fun kv => if pref_ok (snd kv) then []
                          else [mkIssue "invalid_union" [PKey (fst kv)] "Invalid input"]) props
  | _ => [invalid_type [] "object" v]
  end.

(** The issues of an array that is not all strings: one for each element
    that is not a string, at its index (the first element has index [i]). *)
Fixpoint string_items_issues (i : nat) (l : list value) : list ZodIssue :=
  match l with
  | [] => []
  | x :: l' =>
      ((if is_str x then [] else [invalid_type [PIndex i] "string" x])
       ++ string_items_issues (S i) l')%list
  end.

Definition string_array_accepts (v : value) : bool :=
  match v with
  | VArr l => forallb is_str l
  | _ => false
  end.

Definition string_array_issues (v : value) : list ZodIssue :=
  match v with
  | VArr l => string_items_issues 0 l
  | _ => [invalid_type [] "array" v]
  end.

(** A schema that hands back the value it accepts. *)
Definition returns_input (schema : ZodSchema value) : Prop :=
  forall p x y, schema p x = Ok y -> y = x.

(** What a cookie is for [CookieSchema], and what the cookies option is for
    [CookiesSchema]. *)
Definition cookie_accepts (v : value) : bool :=
  match v with
  | VObj props =>
      is_str (obj_get "name" props)
      && is_str (obj_get "value" props)
      && is_str (obj_get "domain" props)
      && is_str (obj_get "path" props)
      && absent_or is_num (obj_get "expires" props)
      && absent_or is_bool (obj_get "httpOnly" props)
      && absent_or is_bool (obj_get "secure" props)
      && absent_or (one_of ["Strict"; "Lax"; "None"]) (obj_get "sameSite" props)
      && absent_or is_str (obj_get "url" props)
  | _ => false
  end.

Definition cookies_accepts (v : value) : bool :=
  match v with
  | VArr l => forallb cookie_accepts l
  | _ => cookie_accepts v
  end.

(** What credentials are for [AuthSchema]. *)
Definition auth_accepts (v : value) : bool :=
  match v with
  | VObj props =>
      is_str (obj_get "username" props)
      && is_str (obj_get "password" props)
      && absent_or is_str (obj_get "origin" props)
      && absent_or (one_of ["unauthorized"; "always"]) (obj_get "send" props)
  | _ => false
  end.

(** The error a step of the normaliser throws, if it throws. *)
Definition step_error {B} (x : option string) (P : string -> Result Error B) : option Error :=
  match x with
  | Some s => if truthy_string s then match P s with Err e => Some e | Ok _ => None end
              else None
  | None => None
  end.

Definition list_error (flag : string) (x : option (list string)) : option Error :=
  match x with
  | Some choices =>
      match parseJSONArrayOrCommaSeparatedStrings flag choices with
      | Err e => Some (problem_parsing flag e)
      | Ok _ => None
      end
  | None => None
  end.

Definition upload_error (URL_canParse : string -> bool) (x : option string) : option Error :=
  match x with
  | Some s => if truthy_string s && negb (URL_canParse s)
              then Some (new_Error "--uploadUrl must be a valid URL") else None
  | None => None
  end.

(** The first error of a run of steps. *)
Fixpoint first_error (steps : list (option Error)) : option Error :=
  match steps with
  | [] => None
  | Some e :: _ => Some e
  | None :: steps' => first_error steps'
  end.

(** The steps of the two revisions that can throw, in the order of the
    source. *)
Definition text_first_error (URL_canParse : string -> bool)
  (options : CliText.Options.CLIOptions) : option Error :=
  first_error
    [ step_error (CliText.Options.cookies options) cookies_step;
      step_error (CliText.Options.headers options) headers_step;
      step_error (CliText.Options.auth options) auth_step;
      step_error (CliText.Options.delay options) JSON_parse;
      step_error (CliText.Options.firefoxPrefs options) firefoxPrefs_step;
      step_error (CliText.Options.overrideHost options) overrideHost_step;
      list_error "--block" (CliText.Options.block options);
      list_error "--blockDomains" (CliText.Options.blockDomains options);
      upload_error URL_canParse (CliText.Options.uploadUrl options) ].

Definition typed_first_error (URL_canParse : string -> bool)
  (options : PreParsed.Options.CLIOptions) : option Error :=
  first_error
    [ list_error "--block" (PreParsed.Options.block options);
      list_error "--blockDomains" (PreParsed.Options.blockDomains options);
      upload_error URL_canParse (PreParsed.Options.uploadUrl options) ].


(** A flag is on exactly when it is supplied as [true] or is on by
    default. *)
Definition on_when (supplied : option bool) (default result : bool) : Prop :=
  result = true <-> (supplied = Some true \/ default = true).

(** An empty text read as no text. *)
Definition blank (x : option string) : option string :=
  match x with
  | Some s => if truthy_string s then x else None
  | None => None
  end.

(** The options [o] with the six structured options replaced. *)
Definition text_with_structured
  (cookies headers auth delay firefoxPrefs overrideHost : option string)
  (o : CliText.Options.CLIOptions) : CliText.Options.CLIOptions :=
  {| CliText.Options.url := CliText.Options.url o;
     CliText.Options.browser := CliText.Options.browser o;
     CliText.Options.width := CliText.Options.width o;
     CliText.Options.height := CliText.Options.height o;
     CliText.Options.frameRate := CliText.Options.frameRate o;
     CliText.Options.timeout := CliText.Options.timeout o;
     CliText.Options.blockDomains := CliText.Options.blockDomains o;
     CliText.Options.block := CliText.Options.block o;
     CliText.Options.disableJS := CliText.Options.disableJS o;
     CliText.Options.debug := CliText.Options.debug o;
     CliText.Options.html := CliText.Options.html o;
     CliText.Options.openHtml := CliText.Options.openHtml o;
     CliText.Options.list_ := CliText.Options.list_ o;
     CliText.Options.connectionType := CliText.Options.connectionType o;
     CliText.Options.zip := CliText.Options.zip o;
     CliText.Options.dry := CliText.Options.dry o; CliText.Options.cookies := cookies;
     CliText.Options.headers := headers; CliText.Options.auth := auth;
     CliText.Options.delay := delay;
     CliText.Options.delayUsing := CliText.Options.delayUsing o;
     CliText.Options.firefoxPrefs := firefoxPrefs;
     CliText.Options.overrideHost := overrideHost;
     CliText.Options.flags := CliText.Options.flags o;
     CliText.Options.cpuThrottle := CliText.Options.cpuThrottle o;
     CliText.Options.uploadUrl := CliText.Options.uploadUrl o |}.

(** Defaults with [debug] on, and options that supply [debug] as [false]. *)
Definition defaults_with_debug_on : DefaultOptions :=
  {| default_browser := "chrome";
     default_width := number_of_Z 1366;
     default_height := number_of_Z 768;
     default_frameRate := number_of_Z 1;
     default_timeout := number_of_Z 30000;
     default_blockDomains := [];
     default_block := [];
     default_disableJS := false;
     default_debug := true;
     default_html := false;
     default_openHtml := false;
     default_list := false;
     default_connectionType := VBool false;
     default_auth := VBool false;
     default_zip := false;
     default_dry := false;
     default_delayUsing := "continue" |}.

Definition text_options_debug_off : CliText.Options.CLIOptions :=
  {| CliText.Options.url := "https://example.com"; CliText.Options.browser := None;
     CliText.Options.width := None; CliText.Options.height := None;
     CliText.Options.frameRate := None; CliText.Options.timeout := None;
     CliText.Options.blockDomains := None; CliText.Options.block := None;
     CliText.Options.disableJS := None; CliText.Options.debug := Some false;
     CliText.Options.html := None; CliText.Options.openHtml := None;
     CliText.Options.list_ := None; CliText.Options.connectionType := None;
     CliText.Options.zip := None; CliText.Options.dry := None;
     CliText.Options.cookies := None; CliText.Options.headers := None;
     CliText.Options.auth := None; CliText.Options.delay := None;
     CliText.Options.delayUsing := None; CliText.Options.firefoxPrefs := None;
     CliText.Options.overrideHost := None; CliText.Options.flags := None;
     CliText.Options.cpuThrottle := None; CliText.Options.uploadUrl := None |}.

(** Options with flags and an upload url, and no other. *)
Definition text_options_upload (flags : option (list string)) (uploadUrl : option string)
  : CliText.Options.CLIOptions :=
  {| CliText.Options.url := "https://example.com"; CliText.Options.browser := None;
     CliText.Options.width := None; CliText.Options.height := None;
     CliText.Options.frameRate := None; CliText.Options.timeout := None;
     CliText.Options.blockDomains := None; CliText.Options.block := None;
     CliText.Options.disableJS := None; CliText.Options.debug := None;
     CliText.Options.html := None; CliText.Options.openHtml := None;
     CliText.Options.list_ := None; CliText.Options.connectionType := None;
     CliText.Options.zip := None; CliText.Options.dry := None;
     CliText.Options.cookies := None; CliText.Options.headers := None;
     CliText.Options.auth := None; CliText.Options.delay := None;
     CliText.Options.delayUsing := None; CliText.Options.firefoxPrefs := None;
     CliText.Options.overrideHost := None; CliText.Options.flags := flags;
     CliText.Options.cpuThrottle := None; CliText.Options.uploadUrl := uploadUrl |}.


(** * Properties *)

(** ** Strings *)

Lemma starts_with_app (p b : string) : starts_with p (p ++ b) = true.
Proof.
  induction p as [|a p IH]; simpl; [reflexivity|].
  now rewrite Ascii.eqb_refl.
Qed.

Lemma starts_with_app_l (p s b : string) :
  starts_with p s = true -> starts_with p (s ++ b) = true.
Proof.
  revert s. induction p as [|a p IH]; intros s H; simpl in *; [reflexivity|].
  destruct s as [|c s]; [discriminate|]. simpl.
  apply andb_true_iff in H as [H1 H2]. rewrite H1. now apply IH.
Qed.

Lemma includes_prefix (p s : string) : starts_with p s = true -> includes p s = true.
Proof. intros H. destruct s; simpl; rewrite H; reflexivity. Qed.

Lemma includes_cons (p : string) (c : ascii) (s : string) :
  includes p s = true -> includes p (String c s) = true.
Proof.
  intros H. cbn [includes]. destruct (starts_with p (String c s)); [reflexivity | exact H].
Qed.

Lemma includes_app_r (p a s : string) : includes p s = true -> includes p (a ++ s) = true.
Proof.
  intros H. induction a as [|c a IH]; simpl append; [exact H|].
  now apply includes_cons.
Qed.

Lemma includes_app_l (p s b : string) : includes p s = true -> includes p (s ++ b) = true.
Proof.
  induction s as [|c s IH]; intros H.
  - simpl in H. destruct p; [|discriminate]. destruct b; reflexivity.
  - cbn [includes] in H. change (String c s ++ b) with (String c (s ++ b)).
    destruct (starts_with p (String c s)) eqn:E.
    + apply includes_prefix. now apply (starts_with_app_l p (String c s) b).
    + apply includes_cons. now apply IH.
Qed.

Lemma includes_refl (p : string) : includes p p = true.
Proof.
  apply includes_prefix. rewrite <- (starts_with_app p EmptyString) at 1.
  f_equal. induction p; simpl; congruence.
Qed.

Lemma includes_mid (p a b : string) : includes p (a ++ p ++ b) = true.
Proof. apply includes_app_r, includes_prefix, starts_with_app. Qed.

Lemma includes_join (sep x : string) (l : list string) :
  In x l -> includes x (join sep l) = true.
Proof.
  unfold join. induction l as [|y l IH]; intros H; [contradiction|].
  destruct l as [|z l].
  - destruct H as [->|[]]. apply includes_refl.
  - change (String.concat sep (y :: z :: l)) with (y ++ sep ++ String.concat sep (z :: l)).
    destruct H as [->|H].
    + apply includes_prefix, starts_with_app.
    + apply includes_app_r, includes_app_r, IH, H.
Qed.

(** ** [JSON.parse] always has enough fuel *)

Lemma skip_ws_length (s : string) : String.length (skip_ws s) <= String.length s.
Proof. induction s as [|c s IH]; simpl; [lia|]. destruct (is_ws c); simpl; lia. Qed.

Lemma expect_length (p s r : string) (u : unit) :
  expect p s = POk u r -> String.length r + String.length p = String.length s.
Proof.
  revert s. induction p as [|a p IH]; intros s; simpl.
  - intros H. injection H as _ <-. lia.
  - destruct s as [|b s]; [discriminate|]. destruct (Ascii.eqb a b); [|discriminate].
    intros H. apply IH in H. simpl. lia.
Qed.

Lemma expect_fuel (p s : string) : expect p s <> PFuel.
Proof.
  revert s. induction p as [|a p IH]; intros s; simpl; [discriminate|].
  destruct s as [|b s]; [discriminate|]. destruct (Ascii.eqb a b); [apply IH | discriminate].
Qed.

Lemma parse_string_body_spec (n : nat) :
  forall s acc, String.length s <= n ->
    parse_string_body s acc <> PFuel /\
    forall items r, parse_string_body s acc = POk items r -> String.length r < String.length s.
Proof.
  induction n as [|n IH]; intros s acc Hn.
  - destruct s; [|simpl in Hn; lia]. simpl. split; [discriminate | intros; discriminate].
  - destruct s as [|c rest]; [simpl; split; [discriminate | intros; discriminate]|].
    simpl in Hn. cbn [parse_string_body].
    destruct (code c =? 34)%nat.
    { split; [discriminate|]. intros items r H. injection H as _ <-. simpl. lia. }
    destruct (code c =? 92)%nat.
    { destruct rest as [|e rest']; [split; [discriminate | intros; discriminate]|].
      simpl in Hn. destruct (simple_escape e).
      - destruct (IH rest' (Byte a :: acc)) as [F L]; [lia|]. split; [exact F|].
        intros items r H. apply L in H. simpl. lia.
      - destruct (code e =? 117)%nat; [|split; [discriminate | intros; discriminate]].
        destruct rest' as [|h1 [|h2 [|h3 [|h4 rest'']]]];
          try (split; [discriminate | intros; discriminate]).
        simpl in Hn. destruct (hex4 h1 h2 h3 h4);
          [|split; [discriminate | intros; discriminate]].
        destruct (IH rest'' (Unit16 z :: acc)) as [F L]; [lia|]. split; [exact F|].
        intros items r H. apply L in H. simpl. lia. }
    destruct (code c <? 32)%nat; [split; [discriminate | intros; discriminate]|].
    destruct (IH rest (Byte c :: acc)) as [F L]; [lia|]. split; [exact F|].
    intros items r H. apply L in H. simpl. lia.
Qed.

Lemma parse_string_spec (s : string) :
  parse_string s <> PFuel /\
  forall k r, parse_string s = POk k r -> String.length r < String.length s.
Proof.
  unfold parse_string.
  destruct (parse_string_body_spec (String.length s) s [] (le_n _)) as [F L].
  destruct (parse_string_body s []) as [items rest| |]; [| |now elim F].
  - split; [discriminate|]. intros k r H. injection H as _ <-. now apply (L items).
  - split; [discriminate | intros; discriminate].
Qed.

Lemma digits_length (s : string) :
  forall acc n m k r, digits s acc n = (m, k, r) ->
    String.length r <= String.length s.
Proof.
  induction s as [|c s IH]; intros acc n m k r; simpl.
  - intros H. injection H as _ _ <-. simpl. lia.
  - destruct (is_digit c).
    + intros H. apply IH in H. lia.
    + intros H. injection H as _ _ <-. simpl. lia.
Qed.

Lemma parse_fraction_spec (m : Z) (s : string) :
  parse_fraction m s <> PFuel /\
  forall x r, parse_fraction m s = POk x r -> String.length r <= String.length s.
Proof.
  unfold parse_fraction. destruct s as [|c s']; [split; [discriminate|]|].
  - intros x r H. injection H as _ <-. lia.
  - destruct (code c =? 46)%nat.
    + destruct (digits s' m 0) as [[m' k] r0] eqn:E. apply digits_length in E.
      destruct k; (split; [discriminate|]); intros x r H; [discriminate|].
      injection H as _ <-. simpl. lia.
    + split; [discriminate|]. intros x r H. injection H as _ <-. lia.
Qed.

Lemma exponent_digits_spec (neg : bool) (s0 s : string) :
  String.length s0 <= String.length s ->
  match digits s0 0%Z 0 with
  | (_, O, r) => PErr r
  | (x, _, r) => POk (if neg then (- x)%Z else x) r
  end <> @PFuel Z /\
  forall x r,
    match digits s0 0%Z 0 with
    | (_, O, r) => PErr r
    | (x, _, r) => POk (if neg then (- x)%Z else x) r
    end = POk x r -> String.length r <= String.length s.
Proof.
  intros Hs. destruct (digits s0 0%Z 0) as [[x0 k] r0] eqn:E. apply digits_length in E.
  destruct k; (split; [discriminate|]); intros x r H; [discriminate|].
  injection H as _ <-. lia.
Qed.

Lemma parse_exponent_spec (s : string) :
  parse_exponent s <> PFuel /\
  forall x r, parse_exponent s = POk x r -> String.length r <= String.length s.
Proof.
  unfold parse_exponent. destruct s as [|c s']; [split; [discriminate|]|].
  - intros x r H. injection H as _ <-. lia.
  - destruct (_ || _).
    + destruct s' as [|sg r1];
        [apply (exponent_digits_spec false EmptyString (String c EmptyString)); simpl; lia|].
      destruct (code sg =? 45)%nat;
        [apply (exponent_digits_spec true r1 (String c (String sg r1))); simpl; lia|].
      destruct (code sg =? 43)%nat;
        [apply (exponent_digits_spec false r1 (String c (String sg r1))); simpl; lia|].
      apply (exponent_digits_spec false (String sg r1) (String c (String sg r1))); simpl; lia.
    + split; [discriminate|]. intros x r H. injection H as _ <-. lia.
Qed.

Lemma parse_unsigned_spec (neg : bool) (s : string) :
  parse_unsigned neg s <> PFuel /\
  forall x r, parse_unsigned neg s = POk x r -> String.length r < String.length s.
Proof.
  unfold parse_unsigned. destruct s as [|c s']; [split; [discriminate | intros; discriminate]|].
  destruct (is_digit c) eqn:Hd; [|split; [discriminate | intros; discriminate]].
  assert (A : forall m r0, String.length r0 <= String.length s' ->
            match parse_fraction m r0 with
            | POk (m', e1) r1 =>
                match parse_exponent r1 with
                | POk e2 r2 => POk (number_of_decimal neg m' (e1 + e2)%Z) r2
                | PErr a => PErr a
                | PFuel => PFuel
                end
            | PErr a => PErr a
            | PFuel => PFuel
            end <> PFuel /\
            forall x r,
              match parse_fraction m r0 with
              | POk (m', e1) r1 =>
                  match parse_exponent r1 with
                  | POk e2 r2 => POk (number_of_decimal neg m' (e1 + e2)%Z) r2
                  | PErr a => PErr a
                  | PFuel => PFuel
                  end
              | PErr a => PErr a
              | PFuel => PFuel
              end = POk x r -> String.length r < String.length (String c s')).
  { intros m r0 Hr. destruct (parse_fraction_spec m r0) as [F1 L1].
    destruct (parse_fraction m r0) as [[m' e1] r1| |]; [| |now elim F1].
    - specialize (L1 _ _ eq_refl). destruct (parse_exponent_spec r1) as [F2 L2].
      destruct (parse_exponent r1) as [e2 r2| |]; [| |now elim F2].
      + specialize (L2 _ _ eq_refl). split; [discriminate|].
        intros x r H. injection H as _ <-. simpl. lia.
      + split; [discriminate | intros; discriminate].
    - split; [discriminate | intros; discriminate]. }
  destruct (code c =? 48)%nat.
  - apply A. lia.
  - destruct (digits (String c s') 0%Z 0) as [[m k] r0] eqn:E.
    apply A. simpl in E. rewrite Hd in E. now apply digits_length in E.
Qed.

Lemma parse_number_spec (s : string) :
  parse_number s <> PFuel /\
  forall x r, parse_number s = POk x r -> String.length r < String.length s.
Proof.
  unfold parse_number. destruct s as [|c s']; [split; [discriminate | intros; discriminate]|].
  destruct (code c =? 45)%nat.
  - destruct (parse_unsigned_spec true s') as [F L]. split; [exact F|].
    intros x r H. apply L in H. simpl. lia.
  - apply parse_unsigned_spec.
Qed.

Lemma lift_spec {A B} (f : A -> B) (p : parsed A) (n : nat) :
  p <> PFuel -> (forall a r, p = POk a r -> String.length r < n) ->
  lift f p <> PFuel /\ forall b r, lift f p = POk b r -> String.length r < n.
Proof.
  intros F L. destruct p as [a rest| |]; simpl; [| |now elim F].
  - split; [discriminate|]. intros b r H. injection H as _ <-. now apply (L a).
  - split; [discriminate | intros; discriminate].
Qed.

Lemma skip_ws_cons (s : string) (c : ascii) (r : string) :
  skip_ws s = String c r -> String.length r < String.length s.
Proof. intros H. pose proof (skip_ws_length s) as L. rewrite H in L. simpl in L. lia. Qed.

(** With fuel above twice the length of the text the parser never runs
    out, and what it leaves is shorter than what it was given. *)
Lemma parse_value_spec (fuel : nat) :
  (forall s, (2 * String.length s + 1 <= fuel -> parse_value fuel s <> PFuel) /\
             forall v r, parse_value fuel s = POk v r -> String.length r < String.length s) /\
  (forall s acc, (2 * String.length s + 2 <= fuel -> parse_elements fuel s acc <> PFuel) /\
                 forall v r, parse_elements fuel s acc = POk v r ->
                             String.length r < String.length s) /\
  (forall s acc, (2 * String.length s + 2 <= fuel -> parse_members fuel s acc <> PFuel) /\
                 forall v r, parse_members fuel s acc = POk v r ->
                             String.length r < String.length s).
Proof.
  induction fuel as [|fuel (IHv & IHe & IHm)].
  { repeat split; intros; simpl in *; try lia; discriminate. }
  split; [|split].
  - intros s. cbn [parse_value].
    destruct (skip_ws s) as [|c rest] eqn:Es; [split; [discriminate | intros; discriminate]|].
    apply skip_ws_cons in Es.
    destruct (code c =? 123)%nat.
    { destruct (skip_ws rest) as [|c' rest'] eqn:Er;
        [split; [discriminate | intros; discriminate]|].
      pose proof (skip_ws_length rest) as Lr. rewrite Er in Lr. simpl in Lr.
      destruct (code c' =? 125)%nat.
      - split; [discriminate|]. intros v r H. injection H as _ <-. lia.
      - destruct (IHm (String c' rest') []) as [F L]. split.
        + intros Hf. apply F. simpl. lia.
        + intros v r H. apply L in H. simpl in H. lia. }
    destruct (code c =? 91)%nat.
    { destruct (skip_ws rest) as [|c' rest'] eqn:Er;
        [split; [discriminate | intros; discriminate]|].
      pose proof (skip_ws_length rest) as Lr. rewrite Er in Lr. simpl in Lr.
      destruct (code c' =? 93)%nat.
      - split; [discriminate|]. intros v r H. injection H as _ <-. lia.
      - destruct (IHe (String c' rest') []) as [F L]. split.
        + intros Hf. apply F. simpl. lia.
        + intros v r H. apply L in H. simpl in H. lia. }
    destruct (code c =? 34)%nat.
    { destruct (parse_string_spec rest) as [F L].
      destruct (lift_spec VStr (parse_string rest) (String.length s) F) as [F' L'];
        [intros a r H; apply L in H; lia | split; [intros _; exact F' | exact L']]. }
    assert (K : forall (f : unit -> value) (p : string),
               p <> EmptyString ->
               (fun q => q <> PFuel /\
                         forall v r, q = POk v r -> String.length r < String.length s)
                 (lift f (expect p (String c rest)))).
    { intros f p Hp.
      destruct (lift_spec f (expect p (String c rest)) (String.length s) (expect_fuel _ _))
        as [F' L']; [|split; [exact F' | exact L']].
      intros [] r H. apply expect_length in H. destruct p; [now elim Hp|]. simpl in *. lia. }
    destruct (code c =? 116)%nat;
      [destruct (K (fun _ => VBool true) "true") as [F L];
       [discriminate | split; [intros _; exact F | exact L]]|].
    destruct (code c =? 102)%nat;
      [destruct (K (fun _ => VBool false) "false") as [F L];
       [discriminate | split; [intros _; exact F | exact L]]|].
    destruct (code c =? 110)%nat;
      [destruct (K (fun _ => VNull) "null") as [F L];
       [discriminate | split; [intros _; exact F | exact L]]|].
    destruct ((code c =? 45)%nat || is_digit c);
      [|split; [discriminate | intros; discriminate]].
    destruct (parse_number_spec (String c rest)) as [F L].
    destruct (lift_spec VNum (parse_number (String c rest)) (String.length s) F) as [F' L'];
      [intros a r H; apply L in H; simpl in *; lia | split; [intros _; exact F' | exact L']].
  - intros s acc. cbn [parse_elements].
    destruct (IHv s) as [Fv Lv].
    destruct (parse_value fuel s) as [v r| |] eqn:Ev.
    + specialize (Lv _ _ eq_refl).
      destruct (skip_ws r) as [|c r'] eqn:Er; [split; [discriminate | intros; discriminate]|].
      apply skip_ws_cons in Er.
      destruct (code c =? 44)%nat.
      * destruct (IHe r' (v :: acc)) as [F L]. split.
        -- intros Hf. apply F. lia.
        -- intros v0 r0 H. apply L in H. lia.
      * destruct (code c =? 93)%nat; [|split; [discriminate | intros; discriminate]].
        split; [discriminate|]. intros v0 r0 H. injection H as _ <-. lia.
    + split; [discriminate | intros; discriminate].
    + split; [|intros; discriminate]. intros Hf _. apply Fv; [lia | reflexivity].
  - intros s acc. cbn [parse_members].
    destruct (skip_ws s) as [|q r] eqn:Es; [split; [discriminate | intros; discriminate]|].
    apply skip_ws_cons in Es.
    destruct (code q =? 34)%nat; [|split; [discriminate | intros; discriminate]].
    destruct (parse_string_spec r) as [Fs Ls].
    destruct (parse_string r) as [k r1| |]; [| |now elim Fs].
    2: { split; [discriminate | intros; discriminate]. }
    specialize (Ls _ _ eq_refl).
    destruct (skip_ws r1) as [|c r2] eqn:E1; [split; [discriminate | intros; discriminate]|].
    apply skip_ws_cons in E1.
    destruct (code c =? 58)%nat; [|split; [discriminate | intros; discriminate]].
    destruct (IHv r2) as [Fv Lv].
    destruct (parse_value fuel r2) as [v r3| |] eqn:Ev.
    + specialize (Lv _ _ eq_refl).
      destruct (skip_ws r3) as [|c' r4] eqn:E3; [split; [discriminate | intros; discriminate]|].
      apply skip_ws_cons in E3.
      destruct (code c' =? 44)%nat.
      * destruct (IHm r4 (obj_set k v acc)) as [F L]. split.
        -- intros Hf. apply F. lia.
        -- intros v0 r0 H. apply L in H. lia.
      * destruct (code c' =? 125)%nat; [|split; [discriminate | intros; discriminate]].
        split; [discriminate|]. intros v0 r0 H. injection H as _ <-. lia.
    + split; [discriminate | intros; discriminate].
    + split; [|intros; discriminate]. intros Hf _. apply Fv; [lia | reflexivity].
Qed.

(** [JSON_parse] never reports a text as invalid for want of fuel: it
    answers with the value parsed and nothing but white space after it, or
    with the place where the text stopped being JSON. *)
Theorem JSON_parse_fuel (s : string) : parse_value (parse_fuel s) s <> PFuel.
Proof. apply (proj1 (parse_value_spec (parse_fuel s))). unfold parse_fuel. lia. Qed.

Lemma JSON_parse_Ok (s : string) (v : value) :
  JSON_parse s = Ok v <->
  exists rest, parse_value (parse_fuel s) s = POk v rest /\ skip_ws rest = EmptyString.
Proof.
  unfold JSON_parse. pose proof (JSON_parse_fuel s) as F.
  destruct (parse_value (parse_fuel s) s) as [v0 rest| |]; [| |now elim F].
  - destruct (skip_ws rest) eqn:E.
    + split; [intros H; injection H as <-; now exists rest|].
      intros (r & H & _). now injection H as <- _.
    + split; [discriminate|]. intros (r & H & Hr). injection H as _ <-. congruence.
  - split; [discriminate|]. intros (r & H & _). discriminate.
Qed.

(** ** The validation engine *)

Lemma JSON_parse_empty : is_Err (JSON_parse EmptyString) = true.
Proof. reflexivity. Qed.

(** The malformed texts of the tests: single quotes, a trailing comma and
    an unquoted key. *)
Lemma JSON_parse_malformed :
  map (fun s => is_Err (JSON_parse s))
    ["{'a': 1}"; quoted "{'a': 1,}"; "{a: 1}"; "[ 'one', 'two' ]"; "01"; "[1,]"; "tru"]
  = [true; true; true; true; true; true; true].
Proof. vm_compute. reflexivity. Qed.

(** C1. Whatever the flag name and the schema, a text that [JSON.parse]
    rejects makes [parseCLIOption] throw an error whose message is
    [Invalid JSON for "<flag>": <parser's description>]: it contains
    [Invalid JSON], the flag name and the description. The error is fixed
    by the flag and the text alone, so no schema has been consulted. *)
Theorem parseCLIOption_invalid_json :
  forall (T : Type) (flagName jsonString : string) (schema : ZodSchema T),
    is_Err (JSON_parse jsonString) = true ->
    exists err : Error,
      JSON_parse jsonString = Err err /\
      parseCLIOption flagName jsonString schema
        = Err (new_Error (invalid_json_message flagName (error_message err))) /\
      includes "Invalid JSON" (invalid_json_message flagName (error_message err)) = true /\
      includes flagName (invalid_json_message flagName (error_message err)) = true /\
      includes (error_message err) (invalid_json_message flagName (error_message err)) = true /\
      forall (T' : Type) (schema' : ZodSchema T'),
        is_Err (parseCLIOption flagName jsonString schema') = true /\
        (forall e e', parseCLIOption flagName jsonString schema = Err e ->
                      parseCLIOption flagName jsonString schema' = Err e' -> e = e').
Proof.
  intros T flagName jsonString schema H.
  destruct (JSON_parse jsonString) as [v|err] eqn:E; [discriminate|].
  exists err. unfold parseCLIOption, invalid_json_message. rewrite E.
  split; [reflexivity|]. split; [reflexivity|]. split; [reflexivity|].
  split; [apply (includes_mid flagName ("Invalid JSON for " ++ dquote))|].
  split; [do 5 apply includes_app_r; apply includes_refl|].
  intros T' schema'. split; [reflexivity|].
  intros e e' H1 H2. congruence.
Qed.

(** The empty text under the cookie schema. *)
Lemma parseCLIOption_invalid_json_witness :
  exists err : Error,
    JSON_parse EmptyString = Err err /\
    parseCLIOption "--cookies" EmptyString CookiesSchema
      = Err (new_Error (invalid_json_message "--cookies" (error_message err))) /\
    includes "Invalid JSON" (invalid_json_message "--cookies" (error_message err)) = true /\
    includes "--cookies" (invalid_json_message "--cookies" (error_message err)) = true /\
    includes (error_message err) (invalid_json_message "--cookies" (error_message err)) = true /\
    forall (T' : Type) (schema' : ZodSchema T'),
      is_Err (parseCLIOption "--cookies" EmptyString schema') = true /\
      (forall e e', parseCLIOption "--cookies" EmptyString CookiesSchema = Err e ->
                    parseCLIOption "--cookies" EmptyString schema' = Err e' -> e = e').
Proof.
  apply (parseCLIOption_invalid_json value "--cookies" EmptyString CookiesSchema).
  reflexivity.
Defined.

Lemma format_issue_line (issue : ZodIssue) :
  format_issue issue = "  - " ++ rendered_path (path issue) ++ ": " ++ message issue.
Proof. unfold format_issue, rendered_path. destruct (path issue); reflexivity. Qed.

(** C2. A value the schema rejects, whether [parseUnknown] receives it as it
    is or [parseCLIOption] reads it from valid JSON, makes either throw the
    error [Invalid data for "<flag>":] followed by the report: one line per
    issue, in the order of the issues, each line two spaces, a dash, the
    path joined with dots (or [(root)] for the empty path), a colon and the
    message of the issue. *)
Theorem invalid_data_report :
  forall (T : Type) (flagName : string) (schema : ZodSchema T) (data : value)
         (error : ZodError),
    safeParse schema data = Err error ->
    let lines := map format_issue (issues error) in
    let msg := invalid_data_message flagName lines in
    parseUnknown flagName data schema = Err (new_Error msg) /\
    (forall jsonString, JSON_parse jsonString = Ok data ->
                        parseCLIOption flagName jsonString schema = Err (new_Error msg)) /\
    includes "Invalid data" msg = true /\
    includes flagName msg = true /\
    List.length lines = List.length (issues error) /\
    (forall (i : nat) (issue : ZodIssue),
        nth_error (issues error) i = Some issue ->
        nth_error lines i
          = Some ("  - " ++ rendered_path (path issue) ++ ": " ++ message issue) /\
        includes ("  - " ++ rendered_path (path issue) ++ ": " ++ message issue) msg = true).
Proof.
  intros T flagName schema data error H lines msg.
  split; [unfold parseUnknown; now rewrite H|].
  split; [intros jsonString E; unfold parseCLIOption; now rewrite E, H|].
  split; [reflexivity|].
  split; [apply (includes_mid flagName ("Invalid data for " ++ dquote))|].
  split; [apply length_map|].
  intros i issue Hi. rewrite <- format_issue_line. split.
  - subst lines. now rewrite nth_error_map, Hi.
  - subst msg. unfold invalid_data_message. do 6 apply includes_app_r.
    apply includes_join. subst lines. apply in_map. eapply nth_error_In, Hi.
Qed.

(** Credentials with a numeric password and an unknown [send]: two lines,
    the password first. *)
Lemma invalid_data_report_witness :
  safeParse AuthSchema auth_bad_password_and_send = Err auth_issues /\
  parseUnknown "--auth" auth_bad_password_and_send (parse_object AuthSchema)
    = Err (new_Error
             (invalid_data_message "--auth"
                [ "  - password: Expected string, received number";
                  "  - send: Invalid enum value. Expected 'unauthorized' | 'always', "
                  ++ "received 'never'" ])).
Proof.
  split; [reflexivity|].
  apply (invalid_data_report value "--auth" AuthSchema auth_bad_password_and_send
           auth_issues eq_refl).
Defined.

(** A value of the wrong kind is reported at the root, an element of the
    wrong type at its index. *)
Lemma root_and_index_lines :
  parseCLIOption "--headers" "[]" HeadersSchema
  = Err (new_Error (invalid_data_message "--headers"
                      ["  - (root): Expected object, received array"])) /\
  parseCLIOption "--block" (quoted "[1, 'a', null]") StringArraySchema
  = Err (new_Error (invalid_data_message "--block"
                      [ "  - 0: Expected string, received number";
                        "  - 2: Expected string, received null" ])).
Proof. split; vm_compute; reflexivity. Qed.

(** ** The schemas *)

Lemma merge_is_Err {A} (rs : list (Result (list ZodIssue) A)) :
  is_Err (merge rs) = existsb is_Err rs.
Proof.
  induction rs as [|r rs IH]; [reflexivity|].
  simpl. rewrite <- IH. destruct r, (merge rs); reflexivity.
Qed.

Lemma parse_object_is_Err (o : ZodObject) (p : list PathSeg) (props : list (string * value)) :
  is_Err (parse_object o p (VObj props))
  = existsb (fun kv => is_Err (snd kv (p ++ [PKey (fst kv)])%list (obj_get (fst kv) props)))
      (shape o).
Proof.
  unfold parse_object. rewrite map_map.
  match goal with |- is_Err (match merge ?l with _ => _ end) = _ =>
    pose proof (merge_is_Err l) as H; destruct (merge l) end;
  simpl in *; rewrite H; clear H; induction (shape o) as [|kv l IH]; simpl; congruence.
Qed.

(** C3. The cookie schema of [schemas.ts] requires [domain] and [path]: an
    object that lacks either is rejected, by the schema of one cookie and
    by the schema of the option, whatever else it holds. *)
Theorem cookie_without_domain_or_path_rejected :
  forall props : list (string * value),
    obj_get "domain" props = VUndefined \/ obj_get "path" props = VUndefined ->
    is_Err (safeParse CookieSchema (VObj props)) = true /\
    is_Err (safeParse CookiesSchema (VObj props)) = true.
Proof.
  intros props H.
  assert (E : is_Err (parse_object CookieSchema [] (VObj props)) = true).
  { rewrite parse_object_is_Err. cbn [CookieSchema passthrough z_object shape existsb fst snd].
    destruct H as [H|H]; rewrite H; cbn [z_string is_Err]; rewrite ?orb_true_r; reflexivity. }
  split.
  - unfold safeParse.
    destruct (parse_object CookieSchema [] (VObj props)); [discriminate | reflexivity].
  - unfold safeParse, CookiesSchema. cbn [z_union z_array].
    destruct (parse_object CookieSchema [] (VObj props)); [discriminate | reflexivity].
Qed.

(** The cookie of the test [accepts a cookie with only name and value]. *)
Lemma cookie_without_domain_or_path_rejected_witness :
  JSON_parse (quoted "{'name':'a','value':'b'}")
  = Ok (VObj [("name", VStr "a"); ("value", VStr "b")]) /\
  is_Err (safeParse CookieSchema (VObj [("name", VStr "a"); ("value", VStr "b")])) = true /\
  is_Err (safeParse CookiesSchema (VObj [("name", VStr "a"); ("value", VStr "b")])) = true.
Proof.
  split; [reflexivity|].
  apply (cookie_without_domain_or_path_rejected [("name", VStr "a"); ("value", VStr "b")]).
  left. reflexivity.
Defined.

(** What the option parser answers for the cookies of the tests. *)
Lemma cookie_name_value_only :
  parseCLIOption "--cookies" (quoted "{'name':'a','value':'b'}") CookiesSchema
  = Err (new_Error (invalid_data_message "--cookies" ["  - (root): Invalid input"])).
Proof. reflexivity. Qed.

Lemma cookie_url_only :
  parseCLIOption "--cookies" (quoted "{'name':'a','value':'b','url':'https://example.com'}")
    CookiesSchema
  = Err (new_Error (invalid_data_message "--cookies" ["  - (root): Invalid input"])).
Proof. reflexivity. Qed.

Lemma cookie_name_value_only_issues :
  safeParse CookieSchema (VObj [("name", VStr "a"); ("value", VStr "b")])
  = Err {| issues := [ mkIssue "invalid_type" [PKey "domain"] "Required";
                       mkIssue "invalid_type" [PKey "path"] "Required" ] |}.
Proof. reflexivity. Qed.

Lemma cookie_single_with_extra_field :
  parseCLIOption "--cookies"
    (quoted "{'name':'a','value':'b','domain':'d','path':'/','extra':'field'}") CookiesSchema
  = Ok (VObj [("name", VStr "a"); ("value", VStr "b"); ("domain", VStr "d");
              ("path", VStr "/"); ("extra", VStr "field")]).
Proof. reflexivity. Qed.

Lemma cookie_array :
  parseCLIOption "--cookies"
    (quoted ("[{'name':'a','value':'b','domain':'d','path':'/'},"
             ++ "{'name':'c','value':'d','domain':'d','path':'/','url':'u'}]"))
    CookiesSchema
  = Ok (VArr [ VObj [("name", VStr "a"); ("value", VStr "b"); ("domain", VStr "d");
                     ("path", VStr "/")];
               VObj [("name", VStr "c"); ("value", VStr "d"); ("domain", VStr "d");
                     ("path", VStr "/"); ("url", VStr "u")] ]).
Proof. reflexivity. Qed.

Lemma cookie_requires_name_and_value :
  forall props : list (string * value),
    obj_get "name" props = VUndefined \/ obj_get "value" props = VUndefined ->
    is_Err (safeParse CookieSchema (VObj props)) = true.
Proof.
  intros props H. unfold safeParse.
  assert (E : is_Err (parse_object CookieSchema [] (VObj props)) = true).
  { rewrite parse_object_is_Err. cbn [CookieSchema passthrough z_object shape existsb fst snd].
    destruct H as [H|H]; rewrite H; cbn [z_string is_Err]; rewrite ?orb_true_r; reflexivity. }
  destruct (parse_object CookieSchema [] (VObj props)); [discriminate | reflexivity].
Qed.

(** ** The normaliser: reasoning about a chain of steps that may throw *)

Lemma bind_Ok_inv {E A B} (r : Result E A) (k : A -> Result E B) (b : B) :
  bind r k = Ok b -> exists a, r = Ok a /\ k a = Ok b.
Proof. destruct r as [a|e]; simpl; intros H; [now exists a | discriminate]. Qed.

Lemma is_Err_bind {E A B} (r : Result E A) (k : A -> Result E B) (b : bool) :
  (forall a, is_Err (k a) = b) -> is_Err (bind r k) = is_Err r || b.
Proof. intros H. destruct r as [a|e]; simpl; [apply H | reflexivity]. Qed.

Lemma is_Err_false {E A} (r : Result E A) : is_Err r = false -> exists a, r = Ok a.
Proof. destruct r as [a|e]; [now exists a | discriminate]. Qed.

Section Steps.

Context {L B : Type}.
Variables (x : option string) (P : string -> Result Error B) (g : B -> L -> L).

Local Abbreviation step c :=
  (if_string x c (fun s => bind (P s) (fun v => Ok (g v c)))).

Lemma step_is_Err (c : L) : is_Err (step c) = step_fails x P.
Proof.
  unfold if_string, step_fails. destruct x as [s|]; [|reflexivity].
  destruct (truthy_string s); [|reflexivity]. destruct (P s); reflexivity.
Qed.

Lemma step_Ok (c c' : L) :
  step c = Ok c' ->
  step_fails x P = false /\
  c' = match step_value x P with Some v => g v c | None => c end.
Proof.
  unfold if_string, step_fails, step_value. destruct x as [s|].
  - destruct (truthy_string s).
    + destruct (P s); simpl; intros H; [|discriminate].
      injection H as <-. split; reflexivity.
    + intros H. injection H as <-. split; reflexivity.
  - intros H. injection H as <-. split; reflexivity.
Qed.

End Steps.

(** One step of the kind [if (x) try { config.f = parse(flag, x) } catch ...]. *)
Section ListSteps.

Context {L : Type}.
Variables (flag : string) (x : option (list string)) (g : list string -> L -> L).

Local Abbreviation step c :=
  (match x with
   | Some choices =>
       try_catch
         (bind (parseJSONArrayOrCommaSeparatedStrings flag choices)
               (fun chosen => Ok (g chosen c)))
         (problem_parsing flag)
   | None => Ok c
   end).

Lemma list_step_is_Err (c : L) : is_Err (step c) = list_fails flag x.
Proof.
  unfold list_fails. destruct x as [choices|]; [|reflexivity].
  destruct (parseJSONArrayOrCommaSeparatedStrings flag choices); reflexivity.
Qed.

Lemma list_step_Ok (c c' : L) :
  step c = Ok c' ->
  c' = match list_value flag x with Some l => g l c | None => c end.
Proof.
  unfold list_value. destruct x as [choices|].
  - destruct (parseJSONArrayOrCommaSeparatedStrings flag choices); simpl; intros H;
      [now injection H as <- | discriminate].
  - intros H. now injection H as <-.
Qed.

Lemma list_step_Err (c : L) (choices : list string) (inner : Error) :
  x = Some choices ->
  parseJSONArrayOrCommaSeparatedStrings flag choices = Err inner ->
  step c = Err (problem_parsing flag inner).
Proof. intros -> H. now rewrite H. Qed.

End ListSteps.

(** The step that checks [uploadUrl]. *)
Section UploadStep.

Context {L : Type}.
Variables (URL_canParse : string -> bool) (x : option string) (g : string -> L -> L).

Local Abbreviation step c :=
  (if_string x c
     (fun uploadUrl =>
        if URL_canParse uploadUrl then Ok (g uploadUrl c)
        else Err (new_Error "--uploadUrl must be a valid URL"))).

Lemma upload_step_is_Err (c : L) : is_Err (step c) = upload_fails URL_canParse x.
Proof.
  unfold if_string, upload_fails. destruct x as [s|]; [|reflexivity].
  destruct (truthy_string s); [|reflexivity]. destruct (URL_canParse s); reflexivity.
Qed.

Lemma upload_step_Ok (c c' : L) :
  step c = Ok c' ->
  c' = match upload_value URL_canParse x with Some s => g s c | None => c end.
Proof.
  unfold if_string, upload_value. destruct x as [s|].
  - destruct (truthy_string s); simpl.
    + destruct (URL_canParse s); intros H; [now injection H as <- | discriminate].
    + intros H. now injection H as <-.
  - intros H. now injection H as <-.
Qed.

End UploadStep.

Lemma upd_frame {L V W} (pi : L -> W) (x : option V) (g : V -> L -> L) (c : L) :
  (forall v c0, pi (g v c0) = pi c0) -> pi (upd x g c) = pi c.
Proof. intros H. destruct x; [apply H | reflexivity]. Qed.

Lemma if_value_upd {L} (x : option value) (c : L) (g : value -> L -> L) :
  if_value x c g = upd (truthy_opt truthy x) g c.
Proof.
  unfold if_value, upd, truthy_opt. destruct x as [v|]; [destruct (truthy v)|]; reflexivity.
Qed.

Lemma if_number_upd {L} (x : option number) (c : L) (g : number -> L -> L) :
  if_number x c g = upd (truthy_opt truthy_number x) g c.
Proof.
  unfold if_number, upd, truthy_opt. destruct x as [v|]; [destruct (truthy_number v)|]; reflexivity.
Qed.

(** *** The first revision, step by step *)

Section TextFacts.

Variable DEFAULT_OPTIONS : DefaultOptions.
Variable URL_canParse : string -> bool.

Lemma text_delayUsing_upd (x : option string) (c : Config.LaunchOptions) :
  match x with
  | Some delayUsing =>
      if truthy_string delayUsing
         && (String.eqb delayUsing "fulfill" || String.eqb delayUsing "continue")
      then Config.set_delayUsing delayUsing c
      else c
  | None => c
  end = upd (text_delayUsing_value x) Config.set_delayUsing c.
Proof.
  unfold text_delayUsing_value, upd. destruct x as [s|]; [|reflexivity].
  destruct (truthy_string s && (String.eqb s "fulfill" || String.eqb s "continue"));
    reflexivity.
Qed.

Lemma text_normalize_Ok (options : CliText.Options.CLIOptions) (c : Config.LaunchOptions) :
  CliText.normalizeCLIConfig DEFAULT_OPTIONS URL_canParse options = Ok c ->
  c = text_assemble DEFAULT_OPTIONS URL_canParse options.
Proof.
  unfold CliText.normalizeCLIConfig. cbv zeta. intros H.
  apply bind_Ok_inv in H as (c1 & E1 & H). apply step_Ok in E1 as [_ ->].
  apply bind_Ok_inv in H as (c2 & E2 & H). apply step_Ok in E2 as [_ ->].
  apply bind_Ok_inv in H as (c3 & E3 & H). apply step_Ok in E3 as [_ ->].
  apply bind_Ok_inv in H as (c4 & E4 & H). apply step_Ok in E4 as [_ ->].
  apply bind_Ok_inv in H as (c5 & E5 & H). apply step_Ok in E5 as [_ ->].
  apply bind_Ok_inv in H as (c6 & E6 & H). apply step_Ok in E6 as [_ ->].
  apply bind_Ok_inv in H as (c7 & E7 & H). apply list_step_Ok in E7 as ->.
  apply bind_Ok_inv in H as (c8 & E8 & H). apply list_step_Ok in E8 as ->.
  apply bind_Ok_inv in H as (c9 & E9 & H). apply upload_step_Ok in E9 as ->.
  injection H as <-.
  rewrite if_number_upd, text_delayUsing_upd. reflexivity.
Qed.

Lemma text_normalize_is_Err (options : CliText.Options.CLIOptions) :
  is_Err (CliText.normalizeCLIConfig DEFAULT_OPTIONS URL_canParse options)
  = text_fails URL_canParse options.
Proof.
  unfold CliText.normalizeCLIConfig, text_fails. cbv zeta.
  repeat (erewrite is_Err_bind; [rewrite step_is_Err; f_equal|intros ?]).
  repeat (erewrite is_Err_bind; [rewrite list_step_is_Err; f_equal|intros ?]).
  erewrite is_Err_bind; [rewrite upload_step_is_Err|intros ?; simpl; reflexivity].
  now rewrite orb_false_r.
Qed.

(** The normaliser returns the assembled configuration, or throws. *)
Lemma text_normalize_total (options : CliText.Options.CLIOptions) :
  text_fails URL_canParse options = false ->
  CliText.normalizeCLIConfig DEFAULT_OPTIONS URL_canParse options
  = Ok (text_assemble DEFAULT_OPTIONS URL_canParse options).
Proof.
  intros H. rewrite <- text_normalize_is_Err in H.
  destruct (is_Err_false _ H) as [c E]. rewrite E. f_equal. now apply text_normalize_Ok.
Qed.

Lemma text_normalize_block_Err (options : CliText.Options.CLIOptions) (choices : list string)
  (inner : Error) :
  text_json_fails options = false ->
  CliText.Options.block options = Some choices ->
  parseJSONArrayOrCommaSeparatedStrings "--block" choices = Err inner ->
  CliText.normalizeCLIConfig DEFAULT_OPTIONS URL_canParse options
  = Err (problem_parsing "--block" inner).
Proof.
  unfold text_json_fails, CliText.normalizeCLIConfig. cbv zeta. intros F Hb Hp.
  repeat (apply orb_false_iff in F as [?F F]).
  repeat match goal with
         | H : step_fails ?x ?P = false |- context [bind (if_string ?x ?c ?K) _] =>
             let c' := fresh "c" in let E := fresh "E" in
             destruct (is_Err_false (if_string x c K)) as [c' E];
             [rewrite (step_is_Err x P); exact H | rewrite E; cbn [bind]; clear H E]
         end.
  now rewrite (list_step_Err _ _ _ _ choices inner Hb Hp).
Qed.

Lemma text_normalize_blockDomains_Err (options : CliText.Options.CLIOptions) (choices : list string)
  (inner : Error) :
  text_json_fails options = false ->
  list_fails "--block" (CliText.Options.block options) = false ->
  CliText.Options.blockDomains options = Some choices ->
  parseJSONArrayOrCommaSeparatedStrings "--blockDomains" choices = Err inner ->
  CliText.normalizeCLIConfig DEFAULT_OPTIONS URL_canParse options
  = Err (problem_parsing "--blockDomains" inner).
Proof.
  unfold text_json_fails, CliText.normalizeCLIConfig. cbv zeta. intros F Fb Hb Hp.
  repeat (apply orb_false_iff in F as [?F F]).
  repeat match goal with
         | H : step_fails ?x ?P = false |- context [bind (if_string ?x ?c ?K) _] =>
             let c' := fresh "c" in let E := fresh "E" in
             destruct (is_Err_false (if_string x c K)) as [c' E];
             [rewrite (step_is_Err x P); exact H | rewrite E; cbn [bind]; clear H E]
         end.
  match goal with
  | |- bind ?r _ = _ =>
      destruct (is_Err_false r) as [c' E];
      [rewrite list_step_is_Err; exact Fb | rewrite E; cbn [bind]]
  end.
  now rewrite (list_step_Err _ _ _ _ choices inner Hb Hp).
Qed.

End TextFacts.

(** *** The second revision, step by step *)

Section TypedFacts.

Variable DEFAULT_OPTIONS : DefaultOptions.
Variable URL_canParse : string -> bool.

Lemma typed_delayUsing_upd (x : option string) (c : Config.LaunchOptions) :
  match x with
  | Some delayUsing =>
      if truthy_string delayUsing then Config.set_delayUsing delayUsing c else c
  | None => c
  end = upd (truthy_opt truthy_string x) Config.set_delayUsing c.
Proof.
  unfold truthy_opt, upd. destruct x as [s|]; [|reflexivity].
  destruct (truthy_string s); reflexivity.
Qed.

Lemma typed_normalize_Ok (options : PreParsed.Options.CLIOptions) (c : Config.LaunchOptions) :
  PreParsed.normalizeCLIConfig DEFAULT_OPTIONS URL_canParse options = Ok c ->
  c = typed_assemble DEFAULT_OPTIONS URL_canParse options.
Proof.
  unfold PreParsed.normalizeCLIConfig. cbv zeta. intros H.
  apply bind_Ok_inv in H as (c7 & E7 & H). apply list_step_Ok in E7 as ->.
  apply bind_Ok_inv in H as (c8 & E8 & H). apply list_step_Ok in E8 as ->.
  apply bind_Ok_inv in H as (c9 & E9 & H). apply upload_step_Ok in E9 as ->.
  injection H as <-.
  rewrite if_number_upd, typed_delayUsing_upd, !if_value_upd. reflexivity.
Qed.

Lemma typed_normalize_is_Err (options : PreParsed.Options.CLIOptions) :
  is_Err (PreParsed.normalizeCLIConfig DEFAULT_OPTIONS URL_canParse options)
  = typed_fails URL_canParse options.
Proof.
  unfold PreParsed.normalizeCLIConfig, typed_fails. cbv zeta.
  repeat (erewrite is_Err_bind; [rewrite list_step_is_Err; f_equal|intros ?]).
  erewrite is_Err_bind; [rewrite upload_step_is_Err|intros ?; simpl; reflexivity].
  now rewrite orb_false_r.
Qed.

(** The normaliser returns the assembled configuration, or throws. *)
Lemma typed_normalize_total (options : PreParsed.Options.CLIOptions) :
  typed_fails URL_canParse options = false ->
  PreParsed.normalizeCLIConfig DEFAULT_OPTIONS URL_canParse options
  = Ok (typed_assemble DEFAULT_OPTIONS URL_canParse options).
Proof.
  intros H. rewrite <- typed_normalize_is_Err in H.
  destruct (is_Err_false _ H) as [c E]. rewrite E. f_equal. now apply typed_normalize_Ok.
Qed.

Lemma typed_normalize_block_Err (options : PreParsed.Options.CLIOptions) (choices : list string)
  (inner : Error) :
  PreParsed.Options.block options = Some choices ->
  parseJSONArrayOrCommaSeparatedStrings "--block" choices = Err inner ->
  PreParsed.normalizeCLIConfig DEFAULT_OPTIONS URL_canParse options
  = Err (problem_parsing "--block" inner).
Proof.
  unfold PreParsed.normalizeCLIConfig. cbv zeta. intros Hb Hp.
  now rewrite (list_step_Err _ _ _ _ choices inner Hb Hp).
Qed.

Lemma typed_normalize_blockDomains_Err (options : PreParsed.Options.CLIOptions)
  (choices : list string)
  (inner : Error) :
  list_fails "--block" (PreParsed.Options.block options) = false ->
  PreParsed.Options.blockDomains options = Some choices ->
  parseJSONArrayOrCommaSeparatedStrings "--blockDomains" choices = Err inner ->
  PreParsed.normalizeCLIConfig DEFAULT_OPTIONS URL_canParse options
  = Err (problem_parsing "--blockDomains" inner).
Proof.
  unfold PreParsed.normalizeCLIConfig. cbv zeta. intros Fb Hb Hp.
  match goal with
  | |- bind ?r _ = _ =>
      destruct (is_Err_false r) as [c' E];
      [rewrite list_step_is_Err; exact Fb | rewrite E; cbn [bind]]
  end.
  now rewrite (list_step_Err _ _ _ _ choices inner Hb Hp).
Qed.

End TypedFacts.

(** ** Lists of strings given as JSON arrays or comma separated *)

Lemma push_tokens (tokens chosen : list string) :
  fold_left (fun chosen opt => if truthy_string opt then (chosen ++ [opt])%list else chosen)
    tokens chosen
  = (chosen ++ filter truthy_string tokens)%list.
Proof.
  revert chosen. induction tokens as [|t tokens IH]; intros chosen; simpl.
  - now rewrite app_nil_r.
  - rewrite IH. destruct (truthy_string t); [now rewrite <- app_assoc | reflexivity].
Qed.

Section ParseList.

Variable flagName : string.

Local Abbreviation body :=
  (fun (state : Result Error (list string)) (opt_group : string) =>
     bind state (fun chosen =>
       if includes "[" opt_group then
         bind (JSON_parse opt_group) (fun parsed_ =>
         bind (parseUnknown flagName parsed_ StringArraySchema) (fun strings =>
         Ok (chosen ++ string_elems strings)%list))
       else
         Ok (fold_left
               (fun chosen opt => if truthy_string opt then (chosen ++ [opt])%list else chosen)
               (split "," opt_group) chosen))).

Lemma loop_aborted (choices : list string) (e : Error) :
  fold_left body choices (Err e) = Err e.
Proof. induction choices as [|c choices IH]; simpl; [reflexivity | exact IH]. Qed.

Lemma loop_from (choices chosen : list string) :
  fold_left body choices (Ok chosen)
  = bind (all_entries flagName choices) (fun ls => Ok (chosen ++ ls)%list).
Proof.
  revert chosen. induction choices as [|c choices IH]; intros chosen.
  - simpl. now rewrite app_nil_r.
  - cbn [fold_left all_entries bind]. unfold entry_strings.
    destruct (includes "[" c).
    + destruct (JSON_parse c) as [v|e]; cbn [bind]; [|apply loop_aborted].
      destruct (parseUnknown flagName v StringArraySchema) as [a|e]; cbn [bind];
        [|apply loop_aborted].
      rewrite IH. destruct (all_entries flagName choices); cbn [bind];
        [now rewrite app_assoc | reflexivity].
    + rewrite push_tokens, IH. cbn [bind].
      destruct (all_entries flagName choices); cbn [bind];
        [now rewrite app_assoc | reflexivity].
Qed.

Lemma parse_list_entries (choices : list string) :
  parseJSONArrayOrCommaSeparatedStrings flagName choices = all_entries flagName choices.
Proof.
  unfold parseJSONArrayOrCommaSeparatedStrings. rewrite loop_from.
  destruct (all_entries flagName choices); reflexivity.
Qed.

End ParseList.

(** The string-array schema accepts exactly the arrays of strings, as they
    are. *)
Lemma string_items_Ok (p : list PathSeg) (l : list value) (i : nat) (l' : list value) :
  merge (parse_items z_string p i l) = Ok l' ->
  l' = l /\ exists strings, l = map VStr strings.
Proof.
  revert i l'. induction l as [|x l IH]; intros i l'; simpl.
  - intros H. injection H as <-. split; [reflexivity | now exists []].
  - destruct x; simpl; try (destruct (merge (parse_items z_string p (S i) l)); discriminate).
    destruct (merge (parse_items z_string p (S i) l)) as [l0|] eqn:E; [|discriminate].
    intros H. injection H as <-. destruct (IH _ _ E) as [-> [strings ->]].
    split; [reflexivity | now exists (s :: strings)].
Qed.

Lemma string_elems_map (strings : list string) : string_elems (VArr (map VStr strings)) = strings.
Proof. simpl. induction strings as [|s l IH]; simpl; congruence. Qed.

Lemma StringArraySchema_Ok (flagName : string) (v a : value) :
  parseUnknown flagName v StringArraySchema = Ok a ->
  exists strings, v = VArr (map VStr strings) /\ a = v /\ string_elems a = strings.
Proof.
  unfold parseUnknown, safeParse, StringArraySchema, z_array.
  destruct v; try discriminate.
  destruct (merge (parse_items z_string [] 0 elems)) as [l'|] eqn:E; [|discriminate].
  intros H. injection H as <-. destruct (string_items_Ok _ _ _ _ E) as [-> [strings ->]].
  exists strings. split; [reflexivity|]. split; [reflexivity | apply string_elems_map].
Qed.

(** ** The normaliser *)

Lemma step_value_Some {B} (x : option string) (P : string -> Result Error B) (s : string) :
  x = Some s -> s <> EmptyString -> step_fails x P = false ->
  exists v, P s = Ok v /\ step_value x P = Some v.
Proof.
  intros -> Hs. unfold step_fails, step_value.
  destruct s; [now elim Hs|]. simpl. destruct (P _) as [v|e]; [|discriminate].
  intros _. now exists v.
Qed.

Lemma step_fails_true {B} (x : option string) (P : string -> Result Error B) (s : string) :
  x = Some s -> s <> EmptyString -> is_Err (P s) = true -> step_fails x P = true.
Proof. intros -> Hs H. unfold step_fails. rewrite H. destruct s; [now elim Hs | reflexivity]. Qed.

(** With the url alone the configuration is the defaults, the width 1366
    among them. *)
Lemma url_only_gives_defaults :
  CliText.normalizeCLIConfig example_defaults example_URL_canParse
    (text_options None None None None None None)
  = Ok (text_defaulted example_defaults (text_options None None None None None None)) /\
  Config.width (text_defaulted example_defaults (text_options None None None None None None))
  = number_of_Z 1366.
Proof. split; reflexivity. Qed.

(** C4. Normalisation does not validate the delay map: a delay whose value
    is the string [slow] is read by [JSON.parse] and stored as it is, for
    every choice of defaults. *)
Theorem delay_with_string_value_accepted :
  forall (D : DefaultOptions) (U : string -> bool),
  exists c : Config.LaunchOptions,
    CliText.normalizeCLIConfig D U
      (text_options None (Some delay_slow) None None None None) = Ok c /\
    Config.delay c = Some (VObj [(".css$", VStr "slow")]).
Proof. intros D U. eexists. split; reflexivity. Qed.

(** The neighbouring options are validated: the same text as cookies is
    refused. *)
Lemma cookies_with_string_value_rejected (D : DefaultOptions) (U : string -> bool) :
  CliText.normalizeCLIConfig D U (text_options (Some delay_slow) None None None None None)
  = Err (new_Error (invalid_data_message "--cookies" ["  - (root): Invalid input"])).
Proof. reflexivity. Qed.

(** The second revision stores a given delay map as it is as well. *)
Lemma typed_delay_with_string_value_accepted (D : DefaultOptions) (U : string -> bool) :
  exists c : Config.LaunchOptions,
    PreParsed.normalizeCLIConfig D U
      (typed_options None (Some (VObj [(".css$", VStr "slow")])) None None None None) = Ok c /\
    Config.delay c = Some (VObj [(".css$", VStr "slow")]).
Proof. eexists. split; reflexivity. Qed.

(** In every successful normalisation of the first revision the delay is
    whatever [JSON.parse] returned. *)
Lemma delay_is_parsed_only (D : DefaultOptions) (U : string -> bool)
  (o : CliText.Options.CLIOptions) (c : Config.LaunchOptions) (s : string) :
  CliText.normalizeCLIConfig D U o = Ok c ->
  CliText.Options.delay o = Some s -> s <> EmptyString ->
  exists v, JSON_parse s = Ok v /\ Config.delay c = Some v.
Proof.
  intros H Hd Hs.
  assert (F : text_fails U o = false)
    by (rewrite <- (text_normalize_is_Err D), H; reflexivity).
  unfold text_fails in F. repeat (apply orb_false_iff in F as [?F F]).
  destruct (step_value_Some _ JSON_parse s Hd Hs) as [v [E V]]; [assumption|].
  exists v. split; [exact E|].
  apply text_normalize_Ok in H as ->. unfold text_assemble.
  do 8 (rewrite (upd_frame Config.delay) by (intros; reflexivity)).
  rewrite V. reflexivity.
Qed.

(** *** Structured options: which path validates them *)

(** C5, as stated, fails: cookies given as the array [[1]] violate the
    cookie schema, and cookies given as the text of an unclosed brace are
    not JSON, yet the second revision returns both as they are. *)
Lemma normalizer_dispatches_on_type_counterexample :
  ~ dispatches_on_type (PreParsed.normalizeCLIConfig example_defaults example_URL_canParse).
Proof.
  intros H.
  specialize (H (typed_options (Some (VArr [VNum (number_of_Z 1)])) None None None None None)
                (VArr [VNum (number_of_Z 1)]) eq_refl eq_refl).
  vm_compute in H. discriminate H.
Qed.

Lemma typed_cookies_text_passes (D : DefaultOptions) (U : string -> bool) :
  is_Err (routed_by_type "--cookies" CookiesSchema (VStr "{")) = true /\
  exists c : Config.LaunchOptions,
    PreParsed.normalizeCLIConfig D U (typed_options (Some (VStr "{")) None None None None None)
    = Ok c /\ Config.cookies c = Some (VStr "{").
Proof. split; [reflexivity|]. eexists. split; reflexivity. Qed.

Lemma truthy_opt_Some {V} (t : V -> bool) (x : option V) (v : V) :
  x = Some v -> t v = true -> truthy_opt t x = Some v.
Proof. intros -> H. unfold truthy_opt. now rewrite H. Qed.

(** C5, amended. Neither revision looks at the runtime type. The first
    sends every supplied non-empty text of cookies, headers, auth,
    firefoxPrefs and overrideHost through [parseCLIOption] with the schema
    of the field, and throws when that throws. The second hands every
    supplied truthy value of the six structured fields over unchanged, and
    throws for none of them: with no block, blockDomains and uploadUrl it
    always returns. *)
Theorem structured_fields_fixed_path :
  forall (D : DefaultOptions) (U : string -> bool),
    (forall (o : CliText.Options.CLIOptions) (c : Config.LaunchOptions),
        CliText.normalizeCLIConfig D U o = Ok c ->
        parsed_and_validated (CliText.Options.cookies o) "--cookies" CookiesSchema
          (Config.cookies c) /\
        parsed_and_validated (CliText.Options.headers o) "--headers" HeadersSchema
          (Config.headers c) /\
        parsed_and_validated (CliText.Options.auth o) "--auth" (parse_object AuthSchema)
          (Some (Config.auth c)) /\
        parsed_and_validated (CliText.Options.firefoxPrefs o) "--firefoxPrefs"
          FirefoxPrefsSchema (Config.firefoxPrefs c) /\
        parsed_and_validated (CliText.Options.overrideHost o) "--overrideHost"
          OverrideHostSchema (Config.overrideHost c)) /\
    (forall o : CliText.Options.CLIOptions,
        let r := CliText.normalizeCLIConfig D U o in
        rejected_when_invalid (CliText.Options.cookies o) "--cookies" CookiesSchema r /\
        rejected_when_invalid (CliText.Options.headers o) "--headers" HeadersSchema r /\
        rejected_when_invalid (CliText.Options.auth o) "--auth" (parse_object AuthSchema) r /\
        rejected_when_invalid (CliText.Options.firefoxPrefs o) "--firefoxPrefs"
          FirefoxPrefsSchema r /\
        rejected_when_invalid (CliText.Options.overrideHost o) "--overrideHost"
          OverrideHostSchema r) /\
    (forall (o : PreParsed.Options.CLIOptions) (c : Config.LaunchOptions),
        PreParsed.normalizeCLIConfig D U o = Ok c ->
        passed_through (PreParsed.Options.cookies o) (Config.cookies c) /\
        passed_through (PreParsed.Options.headers o) (Config.headers c) /\
        passed_through (PreParsed.Options.auth o) (Some (Config.auth c)) /\
        passed_through (PreParsed.Options.delay o) (Config.delay c) /\
        passed_through (PreParsed.Options.firefoxPrefs o) (Config.firefoxPrefs c) /\
        passed_through (PreParsed.Options.overrideHost o) (Config.overrideHost c)) /\
    (forall o : PreParsed.Options.CLIOptions,
        PreParsed.Options.block o = None ->
        PreParsed.Options.blockDomains o = None ->
        PreParsed.Options.uploadUrl o = None ->
        is_Err (PreParsed.normalizeCLIConfig D U o) = false).
Proof.
  intros D U. split; [|split; [|split]].
  - intros o c H.
    assert (F : text_fails U o = false)
      by (rewrite <- (text_normalize_is_Err D), H; reflexivity).
    unfold text_fails in F. repeat (apply orb_false_iff in F as [?F F]).
    apply text_normalize_Ok in H as ->. unfold text_assemble.
    repeat split; intros s Hx Hs;
      match goal with
      | Hf : step_fails ?x ?P = false, Hx : ?x = Some s |- _ =>
          destruct (step_value_Some x P s Hx Hs Hf) as [v [E V]]; exists v;
          split; [exact E|]
      end.
    + do 11 (rewrite (upd_frame Config.cookies) by (intros; reflexivity)).
      rewrite V. reflexivity.
    + do 10 (rewrite (upd_frame Config.headers) by (intros; reflexivity)).
      rewrite V. reflexivity.
    + f_equal. do 9 (rewrite (upd_frame Config.auth) by (intros; reflexivity)).
      rewrite V. reflexivity.
    + do 6 (rewrite (upd_frame Config.firefoxPrefs) by (intros; reflexivity)).
      rewrite V. reflexivity.
    + do 5 (rewrite (upd_frame Config.overrideHost) by (intros; reflexivity)).
      rewrite V. reflexivity.
  - intros o r. subst r. unfold rejected_when_invalid.
    repeat split; intros s Hx Hs He;
      rewrite (text_normalize_is_Err D); unfold text_fails;
      match goal with
      | Hx : ?x = Some s |- context [step_fails ?x ?P] =>
          rewrite (step_fails_true x P s Hx Hs He)
      end; rewrite ?orb_true_r; reflexivity.
  - intros o c H. apply typed_normalize_Ok in H as ->. unfold typed_assemble.
    repeat split; intros v Hx Hv.
    + do 11 (rewrite (upd_frame Config.cookies) by (intros; reflexivity)).
      now rewrite (truthy_opt_Some truthy _ v Hx Hv).
    + do 10 (rewrite (upd_frame Config.headers) by (intros; reflexivity)).
      now rewrite (truthy_opt_Some truthy _ v Hx Hv).
    + f_equal. do 9 (rewrite (upd_frame Config.auth) by (intros; reflexivity)).
      now rewrite (truthy_opt_Some truthy _ v Hx Hv).
    + do 8 (rewrite (upd_frame Config.delay) by (intros; reflexivity)).
      now rewrite (truthy_opt_Some truthy _ v Hx Hv).
    + do 6 (rewrite (upd_frame Config.firefoxPrefs) by (intros; reflexivity)).
      now rewrite (truthy_opt_Some truthy _ v Hx Hv).
    + do 5 (rewrite (upd_frame Config.overrideHost) by (intros; reflexivity)).
      now rewrite (truthy_opt_Some truthy _ v Hx Hv).
  - intros o Hb Hd Hu. rewrite (typed_normalize_is_Err D).
    unfold typed_fails. now rewrite Hb, Hd, Hu.
Qed.

Lemma structured_fields_fixed_path_witness :
  is_Err (PreParsed.normalizeCLIConfig example_defaults example_URL_canParse
            (typed_options (Some test_cookies) None None None None None)) = false /\
  exists c : Config.LaunchOptions,
    PreParsed.normalizeCLIConfig example_defaults example_URL_canParse
      (typed_options (Some test_cookies) None None None None None) = Ok c /\
    Config.cookies c = Some test_cookies.
Proof.
  destruct (structured_fields_fixed_path example_defaults example_URL_canParse)
    as (_ & _ & H3 & H4).
  split.
  - apply H4; reflexivity.
  - eexists. split; [reflexivity|].
    apply (H3 (typed_options (Some test_cookies) None None None None None) _ eq_refl);
      reflexivity.
Defined.

(** *** [delayUsing] *)

(** C6, as stated, fails on the second revision: the supplied [foo]
    replaces the default [continue]. *)
Lemma lenient_delayUsing_counterexample :
  ~ (forall (o : PreParsed.Options.CLIOptions) (c : Config.LaunchOptions),
       PreParsed.normalizeCLIConfig example_defaults example_URL_canParse o = Ok c ->
       Config.delayUsing c
       = lenient_delayUsing (PreParsed.Options.delayUsing o)
           (default_delayUsing example_defaults)).
Proof.
  intros H.
  specialize (H (typed_options None None (Some "foo") None None None) _ eq_refl).
  vm_compute in H. discriminate H.
Qed.

Lemma upd_delayUsing (x : option string) (c : Config.LaunchOptions) :
  Config.delayUsing (upd x Config.set_delayUsing c)
  = match x with Some v => v | None => Config.delayUsing c end.
Proof. destruct x; reflexivity. Qed.

Lemma text_fails_without_delayUsing (U : string -> bool) (x : option string)
  (o : CliText.Options.CLIOptions) :
  text_fails U (text_with_delayUsing x o) = text_fails U o.
Proof. reflexivity. Qed.

Lemma typed_fails_without_delayUsing (U : string -> bool) (x : option string)
  (o : PreParsed.Options.CLIOptions) :
  typed_fails U (typed_with_delayUsing x o) = typed_fails U o.
Proof. reflexivity. Qed.

(** C6, amended. The first revision overrides [delayUsing] only when the
    supplied value is exactly [fulfill] or [continue] and keeps the default
    for every other value; the second overrides it with every supplied
    non-empty value. In both, the value of [delayUsing] never decides
    whether the normaliser throws. *)
Theorem delayUsing_override :
  forall (D : DefaultOptions) (U : string -> bool),
    (forall (o : CliText.Options.CLIOptions) (c : Config.LaunchOptions),
        CliText.normalizeCLIConfig D U o = Ok c ->
        Config.delayUsing c
        = lenient_delayUsing (CliText.Options.delayUsing o) (default_delayUsing D)) /\
    (forall (o : CliText.Options.CLIOptions) (x : option string),
        is_Err (CliText.normalizeCLIConfig D U (text_with_delayUsing x o))
        = is_Err (CliText.normalizeCLIConfig D U o)) /\
    (forall (o : PreParsed.Options.CLIOptions) (c : Config.LaunchOptions),
        PreParsed.normalizeCLIConfig D U o = Ok c ->
        Config.delayUsing c
        = match PreParsed.Options.delayUsing o with
          | Some s => if truthy_string s then s else default_delayUsing D
          | None => default_delayUsing D
          end) /\
    (forall (o : PreParsed.Options.CLIOptions) (x : option string),
        is_Err (PreParsed.normalizeCLIConfig D U (typed_with_delayUsing x o))
        = is_Err (PreParsed.normalizeCLIConfig D U o)).
Proof.
  intros D U. split; [|split; [|split]].
  - intros o c H. apply text_normalize_Ok in H as ->. unfold text_assemble.
    do 7 (rewrite (upd_frame Config.delayUsing) by (intros; reflexivity)).
    rewrite upd_delayUsing.
    do 4 (rewrite (upd_frame Config.delayUsing) by (intros; reflexivity)).
    unfold text_delayUsing_value, lenient_delayUsing.
    destruct (CliText.Options.delayUsing o) as [s|]; [|reflexivity].
    destruct s as [|a s]; [reflexivity|]. cbn [truthy_string andb].
    destruct (String.eqb _ "fulfill" || String.eqb _ "continue"); reflexivity.
  - intros o x. rewrite !(text_normalize_is_Err D). apply text_fails_without_delayUsing.
  - intros o c H. apply typed_normalize_Ok in H as ->. unfold typed_assemble.
    do 7 (rewrite (upd_frame Config.delayUsing) by (intros; reflexivity)).
    rewrite upd_delayUsing.
    do 4 (rewrite (upd_frame Config.delayUsing) by (intros; reflexivity)).
    unfold truthy_opt.
    destruct (PreParsed.Options.delayUsing o) as [s|]; [|reflexivity].
    destruct (truthy_string s); reflexivity.
  - intros o x. rewrite !(typed_normalize_is_Err D).
    apply typed_fails_without_delayUsing.
Qed.

(** The first revision keeps the default when [foo] is supplied. *)
Lemma delayUsing_override_witness :
  exists c : Config.LaunchOptions,
    CliText.normalizeCLIConfig example_defaults example_URL_canParse
      (text_options None None (Some "foo") None None None) = Ok c /\
    Config.delayUsing c = "continue".
Proof.
  eexists. split; [reflexivity|].
  apply (proj1 (delayUsing_override example_defaults example_URL_canParse)
           (text_options None None (Some "foo") None None None) _ eq_refl).
Defined.

(** *** [block] and [blockDomains] *)

Lemma upd_block (x : option (list string)) (c : Config.LaunchOptions) :
  Config.block (upd x Config.set_block c)
  = match x with Some v => v | None => Config.block c end.
Proof. destruct x; reflexivity. Qed.

Lemma upd_blockDomains (x : option (list string)) (c : Config.LaunchOptions) :
  Config.blockDomains (upd x Config.set_blockDomains c)
  = match x with Some v => v | None => Config.blockDomains c end.
Proof. destruct x; reflexivity. Qed.

(** C7. The list parser gives, for every flag and every list of entries,
    the concatenation in order of what each entry contributes: an entry
    with a bracket is read by [JSON.parse] and validated as an array of
    strings, every other entry is split on commas and its empty tokens are
    dropped. In both revisions of the normaliser the result becomes the
    [block] (the [blockDomains]) of the configuration, and a failure of the
    parser is thrown again as [Problem parsing "--block" options - ]
    followed by the message of the failure, once the steps before it have
    passed. *)
Theorem block_lists_parsed :
  forall (D : DefaultOptions) (U : string -> bool),
    (forall flagName choices,
        parseJSONArrayOrCommaSeparatedStrings flagName choices
        = all_entries flagName choices) /\
    (forall flagName entry,
        includes "[" entry = true ->
        forall strings,
          entry_strings flagName entry = Ok strings ->
          exists v, JSON_parse entry = Ok v /\ v = VArr (map VStr strings)) /\
    (forall (o : PreParsed.Options.CLIOptions) (c : Config.LaunchOptions),
        PreParsed.normalizeCLIConfig D U o = Ok c ->
        (forall choices, PreParsed.Options.block o = Some choices ->
                         all_entries "--block" choices = Ok (Config.block c)) /\
        (forall choices, PreParsed.Options.blockDomains o = Some choices ->
                         all_entries "--blockDomains" choices = Ok (Config.blockDomains c))) /\
    (forall (o : CliText.Options.CLIOptions) (c : Config.LaunchOptions),
        CliText.normalizeCLIConfig D U o = Ok c ->
        (forall choices, CliText.Options.block o = Some choices ->
                         all_entries "--block" choices = Ok (Config.block c)) /\
        (forall choices, CliText.Options.blockDomains o = Some choices ->
                         all_entries "--blockDomains" choices = Ok (Config.blockDomains c))) /\
    (forall (o : PreParsed.Options.CLIOptions) choices inner,
        (PreParsed.Options.block o = Some choices ->
         all_entries "--block" choices = Err inner ->
         PreParsed.normalizeCLIConfig D U o
         = Err (new_Error (problem_parsing_message "--block" (error_message inner)))) /\
        (list_fails "--block" (PreParsed.Options.block o) = false ->
         PreParsed.Options.blockDomains o = Some choices ->
         all_entries "--blockDomains" choices = Err inner ->
         PreParsed.normalizeCLIConfig D U o
         = Err (new_Error (problem_parsing_message "--blockDomains" (error_message inner))))) /\
    (forall (o : CliText.Options.CLIOptions) choices inner,
        text_json_fails o = false ->
        (CliText.Options.block o = Some choices ->
         all_entries "--block" choices = Err inner ->
         CliText.normalizeCLIConfig D U o
         = Err (new_Error (problem_parsing_message "--block" (error_message inner)))) /\
        (list_fails "--block" (CliText.Options.block o) = false ->
         CliText.Options.blockDomains o = Some choices ->
         all_entries "--blockDomains" choices = Err inner ->
         CliText.normalizeCLIConfig D U o
         = Err (new_Error (problem_parsing_message "--blockDomains" (error_message inner))))).
Proof.
  intros D U. split; [|split; [|split; [|split; [|split]]]].
  - intros flagName choices. apply parse_list_entries.
  - intros flagName entry Hi strings. unfold entry_strings. rewrite Hi.
    destruct (JSON_parse entry) as [v|e]; [|discriminate]. cbn [bind].
    destruct (parseUnknown flagName v StringArraySchema) as [a|e] eqn:E; [|discriminate].
    cbn [bind]. intros H. injection H as <-.
    destruct (StringArraySchema_Ok _ _ _ E) as [l (-> & -> & _)].
    rewrite string_elems_map. now exists (VArr (map VStr l)).
  - intros o c H.
    assert (F : typed_fails U o = false)
      by (rewrite <- (typed_normalize_is_Err D), H; reflexivity).
    unfold typed_fails in F. repeat (apply orb_false_iff in F as [?F F]).
    apply typed_normalize_Ok in H as ->. unfold typed_assemble.
    split; intros choices Hx.
    + do 2 (rewrite (upd_frame Config.block) by (intros; reflexivity)).
      rewrite upd_block. unfold list_value, list_fails in *. rewrite Hx in *.
      rewrite <- parse_list_entries.
      destruct (parseJSONArrayOrCommaSeparatedStrings "--block" choices);
        [reflexivity | discriminate].
    + rewrite (upd_frame Config.blockDomains) by (intros; reflexivity).
      rewrite upd_blockDomains. unfold list_value, list_fails in *. rewrite Hx in *.
      rewrite <- parse_list_entries.
      destruct (parseJSONArrayOrCommaSeparatedStrings "--blockDomains" choices);
        [reflexivity | discriminate].
  - intros o c H.
    assert (F : text_fails U o = false)
      by (rewrite <- (text_normalize_is_Err D), H; reflexivity).
    unfold text_fails in F. repeat (apply orb_false_iff in F as [?F F]).
    apply text_normalize_Ok in H as ->. unfold text_assemble.
    split; intros choices Hx.
    + do 2 (rewrite (upd_frame Config.block) by (intros; reflexivity)).
      rewrite upd_block. unfold list_value, list_fails in *. rewrite Hx in *.
      rewrite <- parse_list_entries.
      destruct (parseJSONArrayOrCommaSeparatedStrings "--block" choices);
        [reflexivity | discriminate].
    + rewrite (upd_frame Config.blockDomains) by (intros; reflexivity).
      rewrite upd_blockDomains. unfold list_value, list_fails in *. rewrite Hx in *.
      rewrite <- parse_list_entries.
      destruct (parseJSONArrayOrCommaSeparatedStrings "--blockDomains" choices);
        [reflexivity | discriminate].
  - intros o choices inner. split.
    + intros Hx He. rewrite <- parse_list_entries in He.
      apply (typed_normalize_block_Err D U o choices inner Hx He).
    + intros Fb Hx He. rewrite <- parse_list_entries in He.
      apply (typed_normalize_blockDomains_Err D U o choices inner Fb Hx He).
  - intros o choices inner Fj. split.
    + intros Hx He. rewrite <- parse_list_entries in He.
      apply (text_normalize_block_Err D U o choices inner Fj Hx He).
    + intros Fb Hx He. rewrite <- parse_list_entries in He.
      apply (text_normalize_blockDomains_Err D U o choices inner Fj Fb Hx He).
Qed.

(** The block of the test [throws on bad JSON in block array items], and a
    mixed list. *)
Lemma block_lists_parsed_witness :
  CliText.normalizeCLIConfig example_defaults example_URL_canParse
    (text_options None None None (Some ["[ 'one', 'two' ]"]) None None)
  = Err (new_Error (problem_parsing_message "--block"
                      "Unexpected token ' in JSON at position 2")) /\
  parseJSONArrayOrCommaSeparatedStrings "--block"
    ["a,b"; quoted "['c', 'd,e']"; ",f,,g,"]
  = Ok ["a"; "b"; "c"; "d,e"; "f"; "g"].
Proof.
  destruct (block_lists_parsed example_defaults example_URL_canParse)
    as (H1 & _ & _ & _ & _ & H6).
  split.
  - apply (H6 (text_options None None None (Some ["[ 'one', 'two' ]"]) None None)
              ["[ 'one', 'two' ]"]
              (new_SyntaxError "Unexpected token ' in JSON at position 2") eq_refl);
      reflexivity.
  - rewrite H1. reflexivity.
Defined.

(** *** Numbers given as options *)

Lemma upd_cpuThrottle (x : option number) (c : Config.LaunchOptions) :
  Config.cpuThrottle (upd x Config.set_cpuThrottle c)
  = match x with Some v => Some v | None => Config.cpuThrottle c end.
Proof. destruct x; reflexivity. Qed.

Lemma text_assemble_numbers (D : DefaultOptions) (U : string -> bool)
  (o : CliText.Options.CLIOptions) :
  dimensions (text_assemble D U o)
  = (nullish (CliText.Options.width o) (default_width D),
     nullish (CliText.Options.height o) (default_height D),
     nullish (CliText.Options.frameRate o) (default_frameRate D),
     nullish (CliText.Options.timeout o) (default_timeout D)) /\
  Config.cpuThrottle (text_assemble D U o)
  = truthy_opt truthy_number (CliText.Options.cpuThrottle o).
Proof.
  unfold dimensions, text_assemble. split.
  - do 12 (rewrite (upd_frame Config.width), (upd_frame Config.height),
             (upd_frame Config.frameRate), (upd_frame Config.timeout)
            by (intros; reflexivity)).
    reflexivity.
  - do 3 (rewrite (upd_frame Config.cpuThrottle) by (intros; reflexivity)).
    rewrite upd_cpuThrottle.
    do 8 (rewrite (upd_frame Config.cpuThrottle) by (intros; reflexivity)).
    destruct (truthy_opt truthy_number (CliText.Options.cpuThrottle o)); reflexivity.
Qed.

Lemma typed_assemble_numbers (D : DefaultOptions) (U : string -> bool)
  (o : PreParsed.Options.CLIOptions) :
  dimensions (typed_assemble D U o)
  = (nullish (PreParsed.Options.width o) (default_width D),
     nullish (PreParsed.Options.height o) (default_height D),
     nullish (PreParsed.Options.frameRate o) (default_frameRate D),
     nullish (PreParsed.Options.timeout o) (default_timeout D)) /\
  Config.cpuThrottle (typed_assemble D U o)
  = truthy_opt truthy_number (PreParsed.Options.cpuThrottle o).
Proof.
  unfold dimensions, typed_assemble. split.
  - do 12 (rewrite (upd_frame Config.width), (upd_frame Config.height),
             (upd_frame Config.frameRate), (upd_frame Config.timeout)
            by (intros; reflexivity)).
    reflexivity.
  - do 3 (rewrite (upd_frame Config.cpuThrottle) by (intros; reflexivity)).
    rewrite upd_cpuThrottle.
    do 8 (rewrite (upd_frame Config.cpuThrottle) by (intros; reflexivity)).
    destruct (truthy_opt truthy_number (PreParsed.Options.cpuThrottle o)); reflexivity.
Qed.

(** C9. In both revisions a [cpuThrottle] of zero (of either sign) is
    dropped: the configuration has no [cpuThrottle]. A supplied width,
    height, frame rate or timeout is kept whatever its value, zero
    included. *)
Theorem zero_cpuThrottle_omitted :
  forall (D : DefaultOptions) (U : string -> bool),
    (forall (o : CliText.Options.CLIOptions) (c : Config.LaunchOptions),
        CliText.normalizeCLIConfig D U o = Ok c ->
        (forall sign, CliText.Options.cpuThrottle o = Some (S754_zero sign) ->
                      Config.cpuThrottle c = None) /\
        (forall n, CliText.Options.width o = Some n -> Config.width c = n) /\
        (forall n, CliText.Options.height o = Some n -> Config.height c = n) /\
        (forall n, CliText.Options.frameRate o = Some n -> Config.frameRate c = n) /\
        (forall n, CliText.Options.timeout o = Some n -> Config.timeout c = n)) /\
    (forall (o : PreParsed.Options.CLIOptions) (c : Config.LaunchOptions),
        PreParsed.normalizeCLIConfig D U o = Ok c ->
        (forall sign, PreParsed.Options.cpuThrottle o = Some (S754_zero sign) ->
                      Config.cpuThrottle c = None) /\
        (forall n, PreParsed.Options.width o = Some n -> Config.width c = n) /\
        (forall n, PreParsed.Options.height o = Some n -> Config.height c = n) /\
        (forall n, PreParsed.Options.frameRate o = Some n -> Config.frameRate c = n) /\
        (forall n, PreParsed.Options.timeout o = Some n -> Config.timeout c = n)).
Proof.
  intros D U. split; intros o c H.
  - apply text_normalize_Ok in H as ->.
    destruct (text_assemble_numbers D U o) as [Hd Hc]. unfold dimensions in Hd.
    injection Hd as Hw Hh Hf Ht.
    repeat split; intros n Hn.
    + rewrite Hc, Hn. reflexivity.
    + rewrite Hw, Hn. reflexivity.
    + rewrite Hh, Hn. reflexivity.
    + rewrite Hf, Hn. reflexivity.
    + rewrite Ht, Hn. reflexivity.
  - apply typed_normalize_Ok in H as ->.
    destruct (typed_assemble_numbers D U o) as [Hd Hc]. unfold dimensions in Hd.
    injection Hd as Hw Hh Hf Ht.
    repeat split; intros n Hn.
    + rewrite Hc, Hn. reflexivity.
    + rewrite Hw, Hn. reflexivity.
    + rewrite Hh, Hn. reflexivity.
    + rewrite Hf, Hn. reflexivity.
    + rewrite Ht, Hn. reflexivity.
Qed.

(** Both a width and a [cpuThrottle] of zero: the width stays, the
    [cpuThrottle] goes. *)
Lemma zero_cpuThrottle_omitted_witness :
  exists c : Config.LaunchOptions,
    CliText.normalizeCLIConfig example_defaults example_URL_canParse
      (text_options None None None None (Some pos_zero) (Some pos_zero)) = Ok c /\
    Config.cpuThrottle c = None /\ Config.width c = pos_zero.
Proof.
  eexists. split; [reflexivity|].
  destruct (proj1 (zero_cpuThrottle_omitted example_defaults example_URL_canParse)
              (text_options None None None None (Some pos_zero) (Some pos_zero)) _ eq_refl)
    as (Hc & Hw & _).
  split; [apply (Hc false eq_refl) | apply (Hw pos_zero eq_refl)].
Defined.

(** A [cpuThrottle] that is not zero is kept, as in the test
    [uses cpuThrottle as a number directly]. *)
Lemma nonzero_cpuThrottle_kept (D : DefaultOptions) (U : string -> bool)
  (o : CliText.Options.CLIOptions) (c : Config.LaunchOptions) (n : number) :
  CliText.normalizeCLIConfig D U o = Ok c ->
  CliText.Options.cpuThrottle o = Some n -> truthy_number n = true ->
  Config.cpuThrottle c = Some n.
Proof.
  intros H Hn Ht. apply text_normalize_Ok in H as ->.
  rewrite (proj2 (text_assemble_numbers D U o)), Hn. unfold truthy_opt. now rewrite Ht.
Qed.

(** *** Comma separated tokens *)

(** C10. An entry without a bracket contributes its comma separated
    tokens as they are, less the empty ones: nothing is trimmed. So
    [a, b] gives [a] and [ b] with its leading space, and a token of
    white space only is kept. *)
Theorem comma_tokens_not_trimmed :
  forall flagName : string,
    (forall entry,
        includes "[" entry = false ->
        parseJSONArrayOrCommaSeparatedStrings flagName [entry]
        = Ok (filter (fun token => negb (String.eqb token EmptyString)) (split "," entry))) /\
    parseJSONArrayOrCommaSeparatedStrings flagName ["a, b"] = Ok ["a"; " b"] /\
    parseJSONArrayOrCommaSeparatedStrings flagName ["a, ,b,,"] = Ok ["a"; " "; "b"] /\
    parseJSONArrayOrCommaSeparatedStrings flagName [" "] = Ok [" "].
Proof.
  intros flagName. split; [|repeat split].
  intros entry H. rewrite parse_list_entries. cbn [all_entries]. unfold entry_strings.
  rewrite H. cbn [bind]. rewrite app_nil_r. f_equal. apply filter_ext.
  intros [|a s]; reflexivity.
Qed.

Lemma comma_tokens_not_trimmed_witness :
  parseJSONArrayOrCommaSeparatedStrings "--blockDomains" [" example.com ,cdn.example.com "]
  = Ok [" example.com "; "cdn.example.com "].
Proof.
  rewrite (proj1 (comma_tokens_not_trimmed "--blockDomains")
             " example.com ,cdn.example.com " eq_refl).
  reflexivity.
Defined.

(** ** The numeric schemas *)

Lemma PositiveFloatSchema_spec (v : value) (x : number) :
  safeParse PositiveFloatSchema v = Ok x <->
  x = ToNumber v /\ num_ltb pos_zero x = true.
Proof.
  unfold safeParse, PositiveFloatSchema, positive, z_coerce_number, parse_number_schema.
  cbn [coerce checks app flat_map check_number].
  destruct (ToNumber v) as [s| s | |s m e] eqn:E; try destruct s; cbn;
    (split;
     [ intros H; try discriminate; injection H as <-; split; reflexivity
     | intros [-> H]; try discriminate; reflexivity ]).
Qed.

Lemma PositiveIntSchema_spec (v : value) (x : number) :
  safeParse PositiveIntSchema v = Ok x <->
  x = ToNumber v /\ isInteger x = true /\ num_ltb pos_zero x = true.
Proof.
  unfold safeParse, PositiveIntSchema, positive, int, z_coerce_number, parse_number_schema.
  cbn [coerce checks app flat_map check_number].
  destruct (ToNumber v) as [s| s | |s m e] eqn:E;
    [ | | | destruct (isInteger (S754_finite s m e)) eqn:I ]; try destruct s; cbn;
    (split;
     [ intros H; try discriminate; injection H as <-; repeat split; assumption
     | intros (-> & H1 & H2); try discriminate; try congruence; reflexivity ]).
Qed.

(** C8. The positive-integer schema turns the string [42] into 42 and
    keeps the number 10, and rejects the strings [0], [-5], [3.5], [abc]
    and the empty string; the positive-float schema turns [4.5] into 4.5
    and [2] into 2, keeps 3.14, and rejects [0], [-1.5] and [fast]. The
    numbers are the binary64 floats nearest to the decimal numerals. *)
Theorem positive_number_schemas :
  safeParse PositiveIntSchema (VStr "42") = Ok (number_of_Z 42) /\
  safeParse PositiveIntSchema (VNum (number_of_Z 10)) = Ok (number_of_Z 10) /\
  is_Err (safeParse PositiveIntSchema (VStr "0")) = true /\
  is_Err (safeParse PositiveIntSchema (VStr "-5")) = true /\
  is_Err (safeParse PositiveIntSchema (VStr "3.5")) = true /\
  is_Err (safeParse PositiveIntSchema (VStr "abc")) = true /\
  is_Err (safeParse PositiveIntSchema (VStr EmptyString)) = true /\
  safeParse PositiveFloatSchema (VStr "4.5") = Ok (number_of_decimal false 45 (-1)) /\
  safeParse PositiveFloatSchema (VStr "2") = Ok (number_of_Z 2) /\
  safeParse PositiveFloatSchema (VNum (number_of_decimal false 314 (-2)))
  = Ok (number_of_decimal false 314 (-2)) /\
  is_Err (safeParse PositiveFloatSchema (VStr "0")) = true /\
  is_Err (safeParse PositiveFloatSchema (VStr "-1.5")) = true /\
  is_Err (safeParse PositiveFloatSchema (VStr "fast")) = true.
Proof. repeat split; vm_compute; reflexivity. Qed.

(** Which check refuses which string. *)
Lemma positive_int_issues :
  map (fun s => match safeParse PositiveIntSchema (VStr s) with
                | Ok _ => []
                | Err e => map message (issues e)
                end) ["0"; "-5"; "3.5"; "abc"; EmptyString]
  = [ ["Number must be greater than 0"];
      ["Number must be greater than 0"];
      ["Expected integer, received float"];
      ["Expected number, received nan"];
      ["Number must be greater than 0"] ].
Proof. vm_compute. reflexivity. Qed.

Lemma numerals_are_nearest_floats :
  number_of_Z 42 = S754_finite false 5910974510923776 (-47) /\
  number_of_decimal false 45 (-1) = S754_finite false 5066549580791808 (-50) /\
  number_of_decimal false 314 (-2) = S754_finite false 7070651414971679 (-51).
Proof. repeat split; vm_compute; reflexivity. Qed.

(** * Further properties *)

(** ** Splitting what was joined *)

Lemma includes_char_cons (sep c : ascii) (s : string) :
  includes (String sep EmptyString) (String c s)
  = Ascii.eqb sep c || includes (String sep EmptyString) s.
Proof.
  cbn [includes starts_with]. destruct (Ascii.eqb sep c); [reflexivity|].
  simpl. reflexivity.
Qed.

Lemma split_clean (sep : ascii) (x : string) :
  includes (String sep EmptyString) x = false -> split sep x = [x].
Proof.
  induction x as [|c x IH]; [reflexivity|].
  rewrite includes_char_cons. intros H. apply orb_false_iff in H as [Hc Hx].
  cbn [split]. rewrite Ascii.eqb_sym, Hc, (IH Hx). reflexivity.
Qed.

Lemma split_app_sep (sep : ascii) (x rest : string) :
  includes (String sep EmptyString) x = false ->
  split sep (x ++ String sep rest) = x :: split sep rest.
Proof.
  induction x as [|c x IH].
  - intros _. simpl. now rewrite Ascii.eqb_refl.
  - rewrite includes_char_cons. intros H. apply orb_false_iff in H as [Hc Hx].
    change (String c x ++ String sep rest) with (String c (x ++ String sep rest)).
    cbn [split]. rewrite Ascii.eqb_sym, Hc, (IH Hx). reflexivity.
Qed.

Lemma split_join (sep : ascii) (l : list string) :
  l <> [] ->
  (forall x, In x l -> includes (String sep EmptyString) x = false) ->
  split sep (join (String sep EmptyString) l) = l.
Proof.
  unfold join. induction l as [|x l IH]; intros Hne H; [now elim Hne|].
  destruct l as [|y l].
  - simpl. apply split_clean, H. now left.
  - change (String.concat (String sep EmptyString) (x :: y :: l))
      with (x ++ String sep (String.concat (String sep EmptyString) (y :: l))).
    rewrite split_app_sep by (apply H; now left).
    f_equal. apply IH; [discriminate|]. intros z Hz. apply H. now right.
Qed.

(** ** The validation engine, continued *)

(** X1. When no rendered issue holds a line break, splitting the report of
    [formatZodError] at the line breaks gives back the rendered issues, one
    line for each issue and in their order. *)
Theorem formatZodError_lines :
  forall error : ZodError,
    issues error <> [] ->
    (forall issue, In issue (issues error) ->
                   includes newline (format_issue issue) = false) ->
    split (chr 10) (formatZodError error) = map format_issue (issues error) /\
    List.length (split (chr 10) (formatZodError error)) = List.length (issues error).
Proof.
  intros error Hne H.
  assert (E : split (chr 10) (formatZodError error) = map format_issue (issues error)).
  { unfold formatZodError. apply (split_join (chr 10)).
    - destruct (issues error); [now elim Hne | discriminate].
    - intros x Hx. apply in_map_iff in Hx as (issue & <- & Hi). now apply H. }
  split; [exact E | rewrite E; apply length_map].
Qed.

Lemma formatZodError_lines_witness :
  split (chr 10) (formatZodError auth_issues)
  = [ "  - password: Expected string, received number";
      "  - send: Invalid enum value. Expected 'unauthorized' | 'always', received 'never'" ].
Proof.
  apply (proj1 (formatZodError_lines auth_issues ltac:(discriminate)
                  ltac:(intros issue [<-|[<-|[]]]; reflexivity))).
Defined.

(** X2. [parseCLIOption] returns data exactly when the text is JSON and the
    schema accepts the value read from it, and then it returns what
    [parseUnknown] returns for that value; on JSON text the two agree on
    errors too. Whatever it throws is a plain [Error], never the
    [SyntaxError] of the parser. *)
Theorem parseCLIOption_outcomes :
  forall (T : Type) (flagName jsonString : string) (schema : ZodSchema T),
    (forall data,
        parseCLIOption flagName jsonString schema = Ok data <->
        exists v, JSON_parse jsonString = Ok v /\ safeParse schema v = Ok data) /\
    (forall v, JSON_parse jsonString = Ok v ->
               parseCLIOption flagName jsonString schema = parseUnknown flagName v schema) /\
    (forall e, parseCLIOption flagName jsonString schema = Err e -> error_name e = "Error").
Proof.
  intros T flagName jsonString schema. unfold parseCLIOption, parseUnknown.
  destruct (JSON_parse jsonString) as [v|err].
  - split; [|split].
    + intros data. split.
      * destruct (safeParse schema v) as [d|e] eqn:E; [|discriminate].
        intros H. injection H as <-. now exists v.
      * intros (v' & Hv & Hs). injection Hv as <-. now rewrite Hs.
    + intros v' Hv. injection Hv as <-. reflexivity.
    + intros e. destruct (safeParse schema v); [discriminate|].
      intros H. now injection H as <-.
  - split; [|split].
    + intros data. split; [discriminate | intros (v & Hv & _); discriminate].
    + intros v Hv. discriminate.
    + intros e H. now injection H as <-.
Qed.

(** ** The schemas, continued *)

Lemma is_Err_safeParse {T} (schema : ZodSchema T) (v : value) :
  is_Err (safeParse schema v) = is_Err (schema [] v).
Proof. unfold safeParse. destruct (schema [] v); reflexivity. Qed.

Lemma safeParse_Err {T} (schema : ZodSchema T) (v : value) (e : ZodError) :
  safeParse schema v = Err e -> schema [] v = Err (issues e).
Proof.
  unfold safeParse. destruct (schema [] v); [discriminate|].
  intros H. now injection H as <-.
Qed.

Lemma existsb_negb {A} (f g : A -> bool) (l : list A) :
  (forall x, f x = negb (g x)) -> existsb f l = negb (forallb g l).
Proof.
  intros H. induction l as [|x l IH]; [reflexivity|].
  simpl. rewrite H, IH, negb_andb. reflexivity.
Qed.

Lemma merge_Ok_issues {A} (rs : list (Result (list ZodIssue) A)) (l : list A) :
  merge rs = Ok l -> flat_map errs rs = [].
Proof.
  revert l. induction rs as [|r rs IH]; intros l; [reflexivity|].
  simpl. destruct r as [a|i], (merge rs) as [l'|i']; try discriminate.
  intros _. simpl. now apply (IH l').
Qed.

Lemma merge_Err_issues {A} (rs : list (Result (list ZodIssue) A)) (is_ : list ZodIssue) :
  merge rs = Err is_ -> is_ = flat_map errs rs.
Proof.
  revert is_. induction rs as [|r rs IH]; intros is_; [discriminate|].
  simpl. destruct r as [a|i], (merge rs) as [l'|i'] eqn:E; try discriminate;
    intros H; injection H as <-; simpl.
  - now apply IH.
  - rewrite (merge_Ok_issues rs l' E). now rewrite app_nil_r.
  - f_equal. now apply IH.
Qed.

(** A record schema with string keys visits the values in key order. *)
Lemma record_schema_spec (valueSchema : ZodSchema value) (props : list (string * value)) :
  is_Err (z_record z_string valueSchema [] (VObj props))
  = existsb (fun kv => is_Err (valueSchema [PKey (fst kv)] (snd kv))) props /\
  forall is_, z_record z_string valueSchema [] (VObj props) = Err is_ ->
              is_ = flat_map (fun kv => errs (valueSchema [PKey (fst kv)] (snd kv))) props.
Proof.
  unfold z_record.
  match goal with |- context [merge ?l] => set (entries := l) end.
  assert (Hb : existsb is_Err entries
               = existsb (fun kv => is_Err (valueSchema [PKey (fst kv)] (snd kv))) props).
  { subst entries. induction props as [|[k v] props IH]; [reflexivity|].
    cbn [map existsb]. rewrite IH. cbn [fst snd app z_string].
    destruct (valueSchema [PKey k] v); reflexivity. }
  assert (He : flat_map errs entries
               = flat_map (fun kv => errs (valueSchema [PKey (fst kv)] (snd kv))) props).
  { clear Hb. subst entries. induction props as [|[k v] props IH]; [reflexivity|].
    cbn [map flat_map]. rewrite IH. cbn [fst snd app z_string].
    destruct (valueSchema [PKey k] v); reflexivity. }
  pose proof (merge_is_Err entries) as Hi. rewrite Hb in Hi.
  pose proof (merge_Err_issues entries) as Hx. rewrite He in Hx.
  clearbody entries.
  destruct (merge entries) as [kvs|is0]; simpl in *.
  - split; [exact Hi | intros is_ H; discriminate].
  - split; [exact Hi | intros is_ H; injection H as <-; now apply Hx].
Qed.

Lemma z_string_spec (p : list PathSeg) (v : value) :
  z_string p v = if is_str v then Ok v else Err [invalid_type p "string" v].
Proof. destruct v; reflexivity. Qed.

(** X3. The headers schema, which is also the schema of the host
    overrides, accepts exactly the objects all of whose values are strings.
    For any other value it reports one issue for each value that is not a
    string, at the key of that value and in key order, or one issue at the
    root when the value is not an object, an array included. *)
Theorem string_map_schema_spec :
  forall v : value,
    OverrideHostSchema = HeadersSchema /\
    is_Err (safeParse HeadersSchema v) = negb (string_map_accepts v) /\
    (forall e, safeParse HeadersSchema v = Err e -> issues e = string_map_issues v).
Proof.
  intros v. split; [reflexivity|]. rewrite is_Err_safeParse.
  assert (K : forall e, safeParse HeadersSchema v = Err e ->
                        HeadersSchema [] v = Err (issues e))
    by (intros e; apply safeParse_Err).
  unfold HeadersSchema in *.
  destruct v as [| |b|n|s|l|props];
    try (split; [reflexivity | intros e H; apply K in H; now injection H as <-]).
  destruct (record_schema_spec z_string props) as [Hi Hx]. split.
  - rewrite Hi. apply existsb_negb. intros [k x]. simpl. rewrite z_string_spec.
    destruct (is_str x); reflexivity.
  - intros e H. apply K, Hx in H. rewrite H. unfold string_map_issues.
    apply flat_map_ext. intros [k x]. simpl. rewrite z_string_spec.
    destruct (is_str x); reflexivity.
Qed.

Lemma firefox_value_spec (p : list PathSeg) (v : value) :
  z_union [z_string; z_number; z_boolean] p v
  = if pref_ok v then Ok v else Err [mkIssue "invalid_union" p "Invalid input"].
Proof. destruct v as [| |b|[]|s|l|props]; reflexivity. Qed.

(** X4. The schema of the Firefox preferences accepts exactly the objects
    all of whose values are strings, numbers other than NaN, or booleans.
    For any other object it reports one issue [Invalid input] for each
    other value (null, an array, an object), at its key and in key order;
    for a value that is no object, one issue at the root. *)
Theorem firefox_prefs_schema_spec :
  forall v : value,
    is_Err (safeParse FirefoxPrefsSchema v) = negb (prefs_accepts v) /\
    (forall e, safeParse FirefoxPrefsSchema v = Err e -> issues e = prefs_issues v).
Proof.
  intros v. rewrite is_Err_safeParse.
  assert (K : forall e, safeParse FirefoxPrefsSchema v = Err e ->
                        FirefoxPrefsSchema [] v = Err (issues e))
    by (intros e; apply safeParse_Err).
  unfold FirefoxPrefsSchema in *.
  destruct v as [| |b|n|s|l|props];
    try (split; [reflexivity | intros e H; apply K in H; now injection H as <-]).
  destruct (record_schema_spec (z_union [z_string; z_number; z_boolean]) props) as [Hi Hx].
  split.
  - rewrite Hi. apply existsb_negb. intros [k x]. cbn [fst snd].
    rewrite firefox_value_spec. destruct (pref_ok x); reflexivity.
  - intros e H. apply K, Hx in H. rewrite H. unfold prefs_issues.
    apply flat_map_ext. intros [k x]. cbn [fst snd]. rewrite firefox_value_spec.
    destruct (pref_ok x); reflexivity.
Qed.

Lemma string_items_spec (p : list PathSeg) (i : nat) (l : list value) :
  is_Err (merge (parse_items z_string p i l)) = negb (forallb is_str l) /\
  flat_map errs (parse_items z_string p i l)
  = map (fun issue => mkIssue (issue_code issue) (p ++ path issue)%list (message issue))
      (string_items_issues i l).
Proof.
  rewrite merge_is_Err. revert i. induction l as [|x l IH]; intros i; [split; reflexivity|].
  destruct (IH (S i)) as [H1 H2]. cbn [parse_items existsb flat_map forallb string_items_issues].
  rewrite H1, H2, z_string_spec, map_app, negb_andb.
  destruct (is_str x); [split; reflexivity|]. split; [reflexivity|].
  cbn [errs map app is_Err negb orb]. reflexivity.
Qed.

(** X5. The schema of string arrays accepts exactly the arrays all of whose
    elements are strings and returns them as they are. For any other array
    it reports one issue for each element that is not a string, at the index
    of the element and in order; for a value that is no array, one issue at
    the root. *)
Theorem string_array_schema_spec :
  forall v : value,
    is_Err (safeParse StringArraySchema v) = negb (string_array_accepts v) /\
    (forall e, safeParse StringArraySchema v = Err e -> issues e = string_array_issues v) /\
    (forall out, safeParse StringArraySchema v = Ok out -> out = v).
Proof.
  intros v. rewrite is_Err_safeParse.
  assert (K : forall e, safeParse StringArraySchema v = Err e ->
                        StringArraySchema [] v = Err (issues e))
    by (intros e; apply safeParse_Err).
  unfold safeParse, StringArraySchema, z_array in *.
  destruct v as [| |b|n|s|l|props];
    try (split; [reflexivity|split; [intros e H; apply K in H; now injection H as <-
                                     | intros out H; discriminate]]).
  destruct (string_items_spec [] 0 l) as [H1 H2].
  pose proof (merge_Err_issues (parse_items z_string [] 0 l)) as Hx.
  pose proof (string_items_Ok [] l 0) as Ho.
  destruct (merge (parse_items z_string [] 0 l)) as [l'|is0]; simpl in *.
  - split; [exact H1|]. split; [intros e H; apply K in H; discriminate|].
    intros out H. injection H as <-. destruct (Ho l' eq_refl) as [-> _]. reflexivity.
  - split; [exact H1|]. split; [|intros out H; discriminate].
    intros e H. apply K in H. injection H as <-. rewrite (Hx is0 eq_refl), H2.
    rewrite <- (map_id (string_items_issues 0 l)) at 2. apply map_ext.
    intros [c p m]. reflexivity.
Qed.

(** ** Objects: looking up what was set *)

Lemma digit_val_range (c : ascii) : is_digit c = true -> (0 <= digit_val c <= 9)%Z.
Proof.
  unfold is_digit, digit_val. intros H. apply andb_true_iff in H as [H1 H2].
  apply Nat.leb_le in H1, H2. lia.
Qed.

Lemma digit_val_inj (c1 c2 : ascii) :
  is_digit c1 = true -> is_digit c2 = true -> digit_val c1 = digit_val c2 -> c1 = c2.
Proof.
  intros H1 H2 H. pose proof (digit_val_range c1 H1). pose proof (digit_val_range c2 H2).
  unfold digit_val, code in *. rewrite <- (ascii_nat_embedding c1), <- (ascii_nat_embedding c2).
  f_equal. lia.
Qed.

Lemma digits_val_bounds (s : string) :
  forall (a n : Z), (0 <= a)%Z -> digits_val s a = Some n ->
    (a * 10 ^ Z.of_nat (String.length s) <= n
     < (a + 1) * 10 ^ Z.of_nat (String.length s))%Z.
Proof.
  induction s as [|c s IH]; intros a n Ha; cbn [digits_val].
  - intros H. injection H as <-. simpl. lia.
  - destruct (is_digit c) eqn:Hc; [|discriminate]. intros H.
    pose proof (digit_val_range c Hc) as Hd.
    apply IH in H; [|lia]. cbn [String.length]. rewrite Nat2Z.inj_succ, Z.pow_succ_r by lia.
    assert (0 < 10 ^ Z.of_nat (String.length s))%Z by (apply Z.pow_pos_nonneg; lia).
    nia.
Qed.

Lemma digits_val_inj (s1 : string) :
  forall (s2 : string) (a n : Z),
    (0 <= a)%Z -> String.length s1 = String.length s2 ->
    digits_val s1 a = Some n -> digits_val s2 a = Some n -> s1 = s2.
Proof.
  induction s1 as [|c1 s1 IH]; intros [|c2 s2] a n Ha Hl; try discriminate; [reflexivity|].
  cbn [digits_val]. destruct (is_digit c1) eqn:H1; [|discriminate].
  destruct (is_digit c2) eqn:H2; [|discriminate].
  intros E1 E2. injection Hl as Hl.
  pose proof (digit_val_range c1 H1). pose proof (digit_val_range c2 H2).
  assert (B1 := digits_val_bounds s1 (10 * a + digit_val c1)%Z n ltac:(lia) E1).
  assert (B2 := digits_val_bounds s2 (10 * a + digit_val c2)%Z n ltac:(lia) E2).
  rewrite Hl in B1.
  assert (0 < 10 ^ Z.of_nat (String.length s2))%Z by (apply Z.pow_pos_nonneg; lia).
  assert (D : digit_val c1 = digit_val c2) by nia.
  rewrite (digit_val_inj c1 c2 H1 H2 D) in *. f_equal.
  apply (IH s2 (10 * a + digit_val c2)%Z n); [lia | exact Hl | exact E1 | exact E2].
Qed.

(** A canonical numeric key: its digits, and how long it is for its value. *)
Lemma array_index_digits (k : string) (i : Z) :
  array_index k = Some i ->
  digits_val k 0%Z = Some i /\
  (10 ^ Z.of_nat (String.length k) <= 10 * i \/ k = "0")%Z /\
  (i < 10 ^ Z.of_nat (String.length k))%Z.
Proof.
  unfold array_index. destruct k as [|c rest]; [discriminate|].
  destruct (Ascii.eqb c "0" && truthy_string rest) eqn:Hz; [discriminate|].
  destruct (digits_val (String c rest) 0%Z) as [n|] eqn:E; [|discriminate].
  destruct (n <? 4294967295)%Z; [|discriminate]. intros H. injection H as <-.
  split; [reflexivity|].
  pose proof (digits_val_bounds _ 0%Z n ltac:(lia) E) as B. split; [|lia].
  cbn [digits_val] in E. destruct (is_digit c) eqn:Hc; [|discriminate].
  pose proof (digit_val_range c Hc) as Hd.
  assert (B' := digits_val_bounds rest (10 * 0 + digit_val c)%Z n ltac:(lia) E).
  cbn [String.length]. rewrite Nat2Z.inj_succ, Z.pow_succ_r by lia.
  assert (0 < 10 ^ Z.of_nat (String.length rest))%Z by (apply Z.pow_pos_nonneg; lia).
  destruct (Z.eq_dec (digit_val c) 0) as [D0|D0].
  - right. assert (c = "0"%char) by (apply digit_val_inj; [exact Hc | reflexivity | exact D0]).
    subst c. simpl in Hz. destruct rest; [reflexivity | discriminate].
  - left. nia.
Qed.

Lemma array_index_inj (k1 k2 : string) (i : Z) :
  array_index k1 = Some i -> array_index k2 = Some i -> k1 = k2.
Proof.
  intros H1 H2.
  destruct (array_index_digits k1 i H1) as (E1 & L1 & U1).
  destruct (array_index_digits k2 i H2) as (E2 & L2 & U2).
  assert (Hl : String.length k1 = String.length k2).
  { destruct (Nat.lt_trichotomy (String.length k1) (String.length k2)) as [Hlt|[He|Hlt]];
      [|exact He|]; exfalso.
    - assert (10 * 10 ^ Z.of_nat (String.length k1) <= 10 ^ Z.of_nat (String.length k2))%Z.
      { rewrite <- Z.pow_succ_r by lia. apply Z.pow_le_mono_r; lia. }
      destruct L2 as [L2| ->]; [lia|]. simpl in Hlt.
      assert (String.length k1 = 0) by lia. destruct k1; [discriminate | discriminate].
    - assert (10 * 10 ^ Z.of_nat (String.length k2) <= 10 ^ Z.of_nat (String.length k1))%Z.
      { rewrite <- Z.pow_succ_r by lia. apply Z.pow_le_mono_r; lia. }
      destruct L1 as [L1| ->]; [lia|]. simpl in Hlt.
      assert (String.length k2 = 0) by lia. destruct k2; [discriminate | discriminate]. }
  apply (digits_val_inj k1 k2 0%Z i); [lia | exact Hl | exact E1 | exact E2].
Qed.

Lemma obj_get_insert_index (q k : string) (v : value) (i : Z) (props : list (string * value)) :
  array_index k = Some i ->
  obj_get q (insert_index i k v props) = if String.eqb k q then v else obj_get q props.
Proof.
  intros Hk. induction props as [|[k' v'] props IH]; [reflexivity|].
  cbn [insert_index]. destruct (array_index k') as [j|] eqn:Hk'; [|reflexivity].
  destruct (i <? j)%Z eqn:Hlt; [reflexivity|].
  destruct (i =? j)%Z eqn:Heq.
  - apply Z.eqb_eq in Heq. subst j. rewrite (array_index_inj k' k i Hk' Hk).
    cbn [obj_get]. destruct (String.eqb k q); reflexivity.
  - cbn [obj_get]. rewrite IH. destruct (String.eqb k' q) eqn:E1; [|reflexivity].
    destruct (String.eqb k q) eqn:E2; [|reflexivity].
    apply String.eqb_eq in E1, E2. subst. rewrite Hk in Hk'. injection Hk' as <-.
    rewrite Z.eqb_refl in Heq. discriminate.
Qed.

Lemma obj_get_set_string_key (q k : string) (v : value) (props : list (string * value)) :
  obj_get q (set_string_key k v props) = if String.eqb k q then v else obj_get q props.
Proof.
  induction props as [|[k' v'] props IH]; [reflexivity|].
  cbn [set_string_key]. destruct (String.eqb k' k) eqn:E.
  - apply String.eqb_eq in E. subst k'. cbn [obj_get]. destruct (String.eqb k q); reflexivity.
  - cbn [obj_get]. rewrite IH. destruct (String.eqb k' q) eqn:E1; [|reflexivity].
    destruct (String.eqb k q) eqn:E2; [|reflexivity].
    apply String.eqb_eq in E1, E2. subst. rewrite String.eqb_refl in E. discriminate.
Qed.

(** Looking up [q] after [obj[k] = v]. *)
Lemma obj_get_set (q k : string) (v : value) (props : list (string * value)) :
  obj_get q (obj_set k v props) = if String.eqb k q then v else obj_get q props.
Proof.
  unfold obj_set. destruct (array_index k) as [i|] eqn:E.
  - now apply obj_get_insert_index.
  - apply obj_get_set_string_key.
Qed.

Lemma obj_get_set_parsed (q k : string) (always : bool) (v : value)
  (props : list (string * value)) :
  obj_get q (set_parsed always k v props)
  = if String.eqb k q
    then match v with
         | VUndefined => if always then VUndefined else obj_get q props
         | _ => v
         end
    else obj_get q props.
Proof.
  unfold set_parsed. destruct v; try apply obj_get_set.
  destruct always; [apply obj_get_set|]. destruct (String.eqb k q); reflexivity.
Qed.

Lemma obj_get_absent (q : string) (l : list (string * value)) :
  ~ In q (map fst l) -> obj_get q l = VUndefined.
Proof.
  induction l as [|[k v] l IH]; [reflexivity|]. cbn [map fst In obj_get]. intros H.
  destruct (String.eqb k q) eqn:E; [apply String.eqb_eq in E; tauto | apply IH; tauto].
Qed.

(** The fields of the shape, parsed and set one after the other. *)
Lemma known_fields_lookup (always : string -> bool) (props : list (string * value))
  (sh : list (string * ZodSchema value)) :
  forall acc,
    (forall q, obj_get q acc = VUndefined \/ obj_get q acc = obj_get q props) ->
    forall q,
      obj_get q
        (fold_left (fun acc kv => set_parsed (always (fst kv)) (fst kv) (snd kv) acc)
           (map (fun kv : string * ZodSchema value => (fst kv, obj_get (fst kv) props)) sh)
           acc)
      = if existsb (fun kv => String.eqb (fst kv) q) sh then obj_get q props
        else obj_get q acc.
Proof.
  induction sh as [|[k sch] sh IH]; intros acc Hacc q; [reflexivity|].
  cbn [map fold_left fst snd existsb].
  assert (H1 : forall q0,
             obj_get q0 (set_parsed (always k) k (obj_get k props) acc)
             = if String.eqb k q0 then obj_get q0 props else obj_get q0 acc).
  { intros q0. rewrite obj_get_set_parsed. destruct (String.eqb k q0) eqn:E; [|reflexivity].
    apply String.eqb_eq in E. subst q0.
    destruct (obj_get k props) eqn:G; try reflexivity.
    destruct (always k); [reflexivity|]. destruct (Hacc k) as [->| ->]; [reflexivity | exact G]. }
  rewrite IH.
  - rewrite H1. destruct (String.eqb k q), (existsb _ sh); reflexivity.
  - intros q0. rewrite H1. destruct (String.eqb k q0); [now right | apply Hacc].
Qed.

(** The other properties of the input, set one after the other. *)
Lemma extra_fields_lookup (l : list (string * value)) :
  NoDup (map fst l) ->
  forall acc q,
    obj_get q (fold_left (fun acc kv => set_parsed false (fst kv) (snd kv) acc) l acc)
    = match obj_get q l with
      | VUndefined => obj_get q acc
      | v => v
      end.
Proof.
  induction l as [|[k v] l IH]; intros Hn acc q; [reflexivity|].
  cbn [map fst] in Hn. apply NoDup_cons_iff in Hn as [Hk Hn].
  cbn [fold_left fst snd obj_get]. rewrite (IH Hn), obj_get_set_parsed.
  destruct (String.eqb k q) eqn:E; [|reflexivity].
  apply String.eqb_eq in E. subst q. rewrite (obj_get_absent k l Hk).
  destruct v; reflexivity.
Qed.

Lemma obj_get_filter (f : string -> bool) (q : string) (l : list (string * value)) :
  obj_get q (filter (fun kv => f (fst kv)) l) = if f q then obj_get q l else VUndefined.
Proof.
  induction l as [|[k v] l IH]; [now destruct (f q)|].
  cbn [filter fst]. destruct (f k) eqn:Fk; cbn [obj_get]; rewrite IH;
    destruct (String.eqb k q) eqn:E; try reflexivity;
    apply String.eqb_eq in E; subst q; rewrite Fk; reflexivity.
Qed.

Lemma NoDup_filter_keys (f : string * value -> bool) (l : list (string * value)) :
  NoDup (map fst l) -> NoDup (map fst (filter f l)).
Proof.
  induction l as [|kv l IH]; [intros; constructor|].
  cbn [map filter]. intros H. apply NoDup_cons_iff in H as [Hk Hn].
  destruct (f kv); [|now apply IH]. cbn [map]. constructor; [|now apply IH].
  intros Hin. apply Hk. apply in_map_iff in Hin as (x & Hx & Hf).
  apply filter_In in Hf as [Hf _]. apply in_map_iff. now exists x.
Qed.

Lemma fields_return_input (sh : list (string * ZodSchema value)) (p : list PathSeg)
  (props : list (string * value)) (vs : list value) :
  Forall returns_input (map snd sh) ->
  merge (map (fun kv : string * ZodSchema value =>
                snd kv (p ++ [PKey (fst kv)])%list (obj_get (fst kv) props)) sh) = Ok vs ->
  combine (map fst sh) vs
  = map (fun kv : string * ZodSchema value => (fst kv, obj_get (fst kv) props)) sh.
Proof.
  revert vs. induction sh as [|[k sch] sh IH]; intros vs Hf; [reflexivity|].
  cbn [map fst snd] in *. apply Forall_cons_iff in Hf as [Hs Hf]. cbn [merge].
  destruct (sch (p ++ [PKey k])%list (obj_get k props)) as [y|] eqn:E;
    destruct (merge _) as [vs'|] eqn:Em; try discriminate.
  intros H. injection H as <-. cbn [combine]. rewrite (Hs _ _ _ E), (IH vs' Hf eq_refl).
  reflexivity.
Qed.

(** An object schema whose fields hand back what they accept: the lookups
    of its result. *)
Lemma parse_object_lookup (o : ZodObject) (props : list (string * value)) (out : value) :
  Forall returns_input (map snd (shape o)) ->
  (unknownKeys o = Passthrough -> NoDup (map fst props)) ->
  parse_object o [] (VObj props) = Ok out ->
  exists oprops,
    out = VObj oprops /\
    forall q, obj_get q oprops
              = if in_shape o q then obj_get q props
                else match unknownKeys o with
                     | Strip => VUndefined
                     | Passthrough => obj_get q props
                     end.
Proof.
  intros Hf Hn. unfold parse_object.
  match goal with |- context [map snd ?l] => set (fields := l) end.
  assert (E1 : map snd fields
               = map (fun kv : string * ZodSchema value =>
                        snd kv ([] ++ [PKey (fst kv)])%list (obj_get (fst kv) props))
                   (shape o)) by (subst fields; rewrite map_map; reflexivity).
  assert (E2 : map fst fields = map fst (shape o))
    by (subst fields; rewrite map_map; reflexivity).
  rewrite E1, E2. clearbody fields. clear E1 E2 fields.
  destruct (merge _) as [vs|] eqn:Em; [|discriminate].
  intros H. injection H as <-. eexists. split; [reflexivity|]. intros q.
  rewrite (fields_return_input (shape o) [] props vs Hf Em).
  assert (K : forall q0,
             obj_get q0
               (fold_left
                  (fun acc kv => set_parsed (has_key (fst kv) props) (fst kv) (snd kv) acc)
                  (map (fun kv : string * ZodSchema value =>
                          (fst kv, obj_get (fst kv) props)) (shape o)) [])
             = if in_shape o q0 then obj_get q0 props else VUndefined).
  { intros q0.
    apply (known_fields_lookup (fun k => has_key k props) props (shape o) []).
    intros q1. now left. }
  unfold extra_props. destruct (unknownKeys o) eqn:U.
  - cbn [fold_left]. apply K.
  - rewrite extra_fields_lookup by (apply NoDup_filter_keys, Hn; reflexivity).
    rewrite (obj_get_filter (fun k => negb (in_shape o k))), K.
    destruct (in_shape o q); cbn [negb]; [reflexivity|]. destruct (obj_get q props); reflexivity.
Qed.

(** ** The object schemas *)

Lemma is_Err_z_string (p : list PathSeg) (v : value) :
  is_Err (z_string p v) = negb (is_str v).
Proof. destruct v; reflexivity. Qed.

Lemma is_Err_optional (schema : ZodSchema value) (ok : value -> bool) (p : list PathSeg)
  (v : value) :
  (forall x, is_Err (schema p x) = negb (ok x)) ->
  is_Err (optional schema p v) = negb (absent_or ok v).
Proof. intros H. destruct v; try apply H. reflexivity. Qed.

Lemma is_Err_z_number (p : list PathSeg) (v : value) :
  is_Err (z_number p v) = negb (is_num v).
Proof. destruct v as [| |b|[]|s|l|props]; reflexivity. Qed.

Lemma is_Err_z_boolean (p : list PathSeg) (v : value) :
  is_Err (z_boolean p v) = negb (is_bool v).
Proof. destruct v; reflexivity. Qed.

Lemma is_Err_z_enum (values : list string) (p : list PathSeg) (v : value) :
  is_Err (z_enum values p v) = negb (one_of values v).
Proof.
  destruct v; try reflexivity. simpl. destruct (existsb (String.eqb s) values); reflexivity.
Qed.

Lemma cookie_object_is_Err (p : list PathSeg) (v : value) :
  is_Err (parse_object CookieSchema p v) = negb (cookie_accepts v).
Proof.
  destruct v as [| |b|n|s|l|props]; try reflexivity.
  rewrite parse_object_is_Err. cbn [CookieSchema passthrough z_object shape existsb fst snd].
  unfold cookie_accepts.
  rewrite !is_Err_z_string.
  rewrite (is_Err_optional z_number is_num) by (intros; apply is_Err_z_number).
  rewrite !(is_Err_optional z_boolean is_bool) by (intros; apply is_Err_z_boolean).
  rewrite (is_Err_optional (z_enum ["Strict"; "Lax"; "None"]) (one_of ["Strict"; "Lax"; "None"]))
    by (intros; apply is_Err_z_enum).
  rewrite (is_Err_optional z_string is_str) by (intros; apply is_Err_z_string).
  rewrite !negb_andb, orb_false_r, !orb_assoc. reflexivity.
Qed.

Lemma auth_object_is_Err (p : list PathSeg) (v : value) :
  is_Err (parse_object AuthSchema p v) = negb (auth_accepts v).
Proof.
  destruct v as [| |b|n|s|l|props]; try reflexivity.
  rewrite parse_object_is_Err. cbn [AuthSchema z_object shape existsb fst snd].
  unfold auth_accepts.
  rewrite !is_Err_z_string.
  rewrite (is_Err_optional z_string is_str) by (intros; apply is_Err_z_string).
  rewrite (is_Err_optional (z_enum ["unauthorized"; "always"])
             (one_of ["unauthorized"; "always"])) by (intros; apply is_Err_z_enum).
  rewrite !negb_andb, orb_false_r, !orb_assoc. reflexivity.
Qed.

Lemma items_is_Err (element : ZodSchema value) (ok : value -> bool) (p : list PathSeg) :
  (forall q x, is_Err (element q x) = negb (ok x)) ->
  forall i l, existsb is_Err (parse_items element p i l) = negb (forallb ok l).
Proof.
  intros H i l. revert i. induction l as [|x l IH]; intros i; [reflexivity|].
  cbn [parse_items existsb forallb]. rewrite H, IH, negb_andb. reflexivity.
Qed.

(** X6. The cookie schema accepts exactly the objects whose [name],
    [value], [domain] and [path] are strings and whose [expires],
    [httpOnly], [secure], [sameSite] and [url], when present, are a number,
    booleans, one of [Strict], [Lax], [None], and a string. The schema of the
    cookies option accepts exactly such an object or an array of such
    objects, the empty array included, and whatever it rejects it reports
    as the single issue [Invalid input] at the root. *)
Theorem cookies_schema_spec :
  forall v : value,
    is_Err (safeParse CookieSchema v) = negb (cookie_accepts v) /\
    is_Err (safeParse CookiesSchema v) = negb (cookies_accepts v) /\
    (forall e, safeParse CookiesSchema v = Err e ->
               issues e = [mkIssue "invalid_union" [] "Invalid input"]).
Proof.
  intros v. split; [|split].
  - rewrite is_Err_safeParse. apply cookie_object_is_Err.
  - rewrite is_Err_safeParse. unfold CookiesSchema. cbn [z_union].
    pose proof (cookie_object_is_Err [] v) as Ho.
    destruct v as [| |b|n|s|l|props]; try reflexivity.
    + cbn [z_array cookies_accepts].
      pose proof (merge_is_Err (parse_items CookieSchema [] 0 l)) as Hm.
      rewrite (items_is_Err CookieSchema cookie_accepts [] cookie_object_is_Err) in Hm.
      destruct (merge (parse_items CookieSchema [] 0 l)); simpl in *; exact Hm.
    + cbn [z_array cookies_accepts].
      destruct (parse_object CookieSchema [] (VObj props)); simpl in *; exact Ho.
  - intros e H. apply safeParse_Err in H. unfold CookiesSchema in H. cbn [z_union] in H.
    destruct (z_array CookieSchema [] v); [discriminate|].
    destruct (parse_object CookieSchema [] v); [discriminate|].
    now injection H as <-.
Qed.

Lemma returns_input_z_string : returns_input z_string.
Proof. intros p x y. destruct x; simpl; intros H; now inversion H. Qed.



Lemma returns_input_z_enum (values : list string) : returns_input (z_enum values).
Proof.
  intros p x y. destruct x; simpl; try (intros H; now inversion H).
  destruct (existsb (String.eqb s) values); intros H; now inversion H.
Qed.

Lemma returns_input_optional (schema : ZodSchema value) :
  returns_input schema -> returns_input (optional schema).
Proof. intros Hs p x y. destruct x; simpl; try apply Hs. intros H. now inversion H. Qed.



(** X8. The credentials schema accepts exactly the objects whose
    [username] and [password] are strings and whose [origin] and [send],
    when present, are a string and one of [unauthorized], [always]. What it
    returns holds the four declared properties as the input had them and
    nothing else: every other key is dropped. *)
Theorem auth_schema_spec :
  forall v : value,
    is_Err (safeParse AuthSchema v) = negb (auth_accepts v) /\
    (forall out, safeParse AuthSchema v = Ok out ->
       exists props oprops,
         v = VObj props /\ out = VObj oprops /\
         forall q, obj_get q oprops
                   = if existsb (String.eqb q) ["username"; "password"; "origin"; "send"]
                     then obj_get q props else VUndefined).
Proof.
  intros v. split; [rewrite is_Err_safeParse; apply auth_object_is_Err|].
  intros out H. unfold safeParse in H.
  destruct (parse_object AuthSchema [] v) as [d|] eqn:E; [|discriminate].
  injection H as <-. destruct v as [| |b|n|s|l|props]; try discriminate.
  destruct (parse_object_lookup AuthSchema props d) as (oprops & -> & Hq);
    [|intros U; discriminate U | exact E|].
  - cbn [AuthSchema z_object shape map snd].
    repeat constructor;
      auto using returns_input_z_string, returns_input_z_enum, returns_input_optional.
  - exists props, oprops. split; [reflexivity|]. split; [reflexivity|]. intros q.
    rewrite Hq. cbn [AuthSchema z_object unknownKeys in_shape shape existsb fst].
    rewrite !(String.eqb_sym q). reflexivity.
Qed.

(** ** The normaliser, as a whole *)

Lemma step_result {L B} (x : option string) (P : string -> Result Error B) (g : B -> L -> L)
  (c : L) :
  if_string x c (fun s => bind (P s) (fun v => Ok (g v c)))
  = match step_error x P with
    | Some e => Err e
    | None => Ok (upd (step_value x P) g c)
    end.
Proof.
  unfold if_string, step_error, step_value, upd. destruct x as [s|]; [|reflexivity].
  destruct (truthy_string s); [|reflexivity]. destruct (P s); reflexivity.
Qed.

Lemma list_step_result {L} (flag : string) (x : option (list string))
  (g : list string -> L -> L) (c : L) :
  match x with
  | Some choices =>
      try_catch
        (bind (parseJSONArrayOrCommaSeparatedStrings flag choices)
              (fun chosen => Ok (g chosen c)))
        (problem_parsing flag)
  | None => Ok c
  end
  = match list_error flag x with
    | Some e => Err e
    | None => Ok (upd (list_value flag x) g c)
    end.
Proof.
  unfold list_error, list_value, upd. destruct x as [choices|]; [|reflexivity].
  destruct (parseJSONArrayOrCommaSeparatedStrings flag choices); reflexivity.
Qed.

Lemma upload_step_result {L} (URL_canParse : string -> bool) (x : option string)
  (g : string -> L -> L) (c : L) :
  if_string x c
    (fun uploadUrl =>
       if URL_canParse uploadUrl then Ok (g uploadUrl c)
       else Err (new_Error "--uploadUrl must be a valid URL"))
  = match upload_error URL_canParse x with
    | Some e => Err e
    | None => Ok (upd (upload_value URL_canParse x) g c)
    end.
Proof.
  unfold if_string, upload_error, upload_value, upd. destruct x as [s|]; [|reflexivity].
  destruct (truthy_string s); [|reflexivity]. destruct (URL_canParse s); reflexivity.
Qed.

Ltac next_step :=
  match goal with
  | |- bind (match ?e with Some _ => _ | None => _ end) _ = _ =>
      destruct e; [reflexivity | cbn [bind first_error]]
  end.

Lemma text_normalize_result (D : DefaultOptions) (U : string -> bool)
  (o : CliText.Options.CLIOptions) :
  CliText.normalizeCLIConfig D U o
  = match text_first_error U o with
    | Some e => Err e
    | None => Ok (text_assemble D U o)
    end.
Proof.
  unfold CliText.normalizeCLIConfig, text_first_error, text_assemble,
    cookies_step, headers_step, auth_step, firefoxPrefs_step, overrideHost_step.
  cbv zeta. cbn [first_error].
  do 6 (rewrite step_result; next_step).
  do 2 (rewrite list_step_result; next_step).
  rewrite upload_step_result; next_step.
  rewrite if_number_upd, text_delayUsing_upd. reflexivity.
Qed.

Lemma typed_normalize_result (D : DefaultOptions) (U : string -> bool)
  (o : PreParsed.Options.CLIOptions) :
  PreParsed.normalizeCLIConfig D U o
  = match typed_first_error U o with
    | Some e => Err e
    | None => Ok (typed_assemble D U o)
    end.
Proof.
  unfold PreParsed.normalizeCLIConfig, typed_first_error, typed_assemble.
  cbv zeta. cbn [first_error].
  do 2 (rewrite list_step_result; next_step).
  rewrite upload_step_result; next_step.
  rewrite if_number_upd, typed_delayUsing_upd, !if_value_upd. reflexivity.
Qed.

(** X9. The first revision of the normaliser throws the error of the first
    step that fails, the steps taken in the order cookies, headers, auth,
    delay, firefoxPrefs, overrideHost, block, blockDomains, uploadUrl; when
    no step fails it returns the defaults with every supplied option
    applied. Nothing after a failing step is looked at. *)
Theorem text_normalize_fails_fast :
  forall (D : DefaultOptions) (U : string -> bool) (o : CliText.Options.CLIOptions),
    CliText.normalizeCLIConfig D U o
    = match text_first_error U o with
      | Some e => Err e
      | None => Ok (text_assemble D U o)
      end.
Proof.
  exact text_normalize_result.
Qed.

(** X10. The second revision of the normaliser can only throw for block,
    blockDomains and uploadUrl, in that order, and otherwise returns the
    defaults with every supplied option applied: no structured option makes
    it throw. *)
Theorem typed_normalize_fails_fast :
  forall (D : DefaultOptions) (U : string -> bool) (o : PreParsed.Options.CLIOptions),
    PreParsed.normalizeCLIConfig D U o
    = match typed_first_error U o with
      | Some e => Err e
      | None => Ok (typed_assemble D U o)
      end.
Proof.
  exact typed_normalize_result.
Qed.

Ltac frames pi := repeat (rewrite (upd_frame pi) by (intros; reflexivity)).

Lemma or_bool_on (supplied : option bool) (default : bool) :
  on_when supplied default (or_bool supplied default).
Proof.
  unfold on_when, or_bool. destruct supplied as [[|]|], default; split; intros H;
    try reflexivity; try discriminate; auto; destruct H as [H|H]; discriminate.
Qed.

(** X11. In both revisions each of the flags disableJS, debug, html,
    openHtml, list, zip and dry is on in the configuration exactly when it
    is supplied as [true] or is on by default: a flag supplied as [false]
    does not switch off a default that is on. *)
Theorem flags_on_when_supplied_or_default :
  forall (D : DefaultOptions) (U : string -> bool),
    (forall (o : CliText.Options.CLIOptions) (c : Config.LaunchOptions),
        CliText.normalizeCLIConfig D U o = Ok c ->
        on_when (CliText.Options.disableJS o) (default_disableJS D) (Config.disableJS c) /\
        on_when (CliText.Options.debug o) (default_debug D) (Config.debug c) /\
        on_when (CliText.Options.html o) (default_html D) (Config.html c) /\
        on_when (CliText.Options.openHtml o) (default_openHtml D) (Config.openHtml c) /\
        on_when (CliText.Options.list_ o) (default_list D) (Config.list_ c) /\
        on_when (CliText.Options.zip o) (default_zip D) (Config.zip c) /\
        on_when (CliText.Options.dry o) (default_dry D) (Config.dry c)) /\
    (forall (o : PreParsed.Options.CLIOptions) (c : Config.LaunchOptions),
        PreParsed.normalizeCLIConfig D U o = Ok c ->
        on_when (PreParsed.Options.disableJS o) (default_disableJS D) (Config.disableJS c) /\
        on_when (PreParsed.Options.debug o) (default_debug D) (Config.debug c) /\
        on_when (PreParsed.Options.html o) (default_html D) (Config.html c) /\
        on_when (PreParsed.Options.openHtml o) (default_openHtml D) (Config.openHtml c) /\
        on_when (PreParsed.Options.list_ o) (default_list D) (Config.list_ c) /\
        on_when (PreParsed.Options.zip o) (default_zip D) (Config.zip c) /\
        on_when (PreParsed.Options.dry o) (default_dry D) (Config.dry c)).
Proof.
  intros D U. split; intros o c H.
  - apply text_normalize_Ok in H as ->. unfold text_assemble.
    frames Config.disableJS. frames Config.debug. frames Config.html.
    frames Config.openHtml. frames Config.list_. frames Config.zip. frames Config.dry.
    repeat split; apply or_bool_on.
  - apply typed_normalize_Ok in H as ->. unfold typed_assemble.
    frames Config.disableJS. frames Config.debug. frames Config.html.
    frames Config.openHtml. frames Config.list_. frames Config.zip. frames Config.dry.
    repeat split; apply or_bool_on.
Qed.

Lemma flags_on_when_supplied_or_default_witness :
  exists c : Config.LaunchOptions,
    CliText.normalizeCLIConfig defaults_with_debug_on example_URL_canParse
      text_options_debug_off = Ok c /\
    Config.debug c = true.
Proof.
  eexists. split; [reflexivity|].
  destruct (proj1 (flags_on_when_supplied_or_default defaults_with_debug_on
                     example_URL_canParse) text_options_debug_off _ eq_refl)
    as (_ & Hd & _).
  apply Hd. right. reflexivity.
Defined.

Lemma step_error_blank {B} (x : option string) (P : string -> Result Error B) :
  step_error (blank x) P = step_error x P.
Proof.
  unfold step_error, blank. destruct x as [s|]; [|reflexivity].
  destruct (truthy_string s) eqn:E; [rewrite E|]; reflexivity.
Qed.

Lemma step_value_blank {B} (x : option string) (P : string -> Result Error B) :
  step_value (blank x) P = step_value x P.
Proof.
  unfold step_value, blank. destruct x as [s|]; [|reflexivity].
  destruct (truthy_string s) eqn:E; [rewrite E|]; reflexivity.
Qed.

(** X12. In the first revision an empty text for cookies, headers, auth,
    delay, firefoxPrefs or overrideHost is the same as no text: the option
    is not parsed, so it raises no error, and the normaliser returns or
    throws exactly what it does without the option. *)
Theorem empty_structured_text_is_absent :
  forall (D : DefaultOptions) (U : string -> bool)
         (cookies headers auth delay firefoxPrefs overrideHost : option string)
         (o : CliText.Options.CLIOptions),
    CliText.normalizeCLIConfig D U
      (text_with_structured cookies headers auth delay firefoxPrefs overrideHost o)
    = CliText.normalizeCLIConfig D U
        (text_with_structured (blank cookies) (blank headers) (blank auth) (blank delay)
           (blank firefoxPrefs) (blank overrideHost) o).
Proof.
  intros D U c h a d f oh o.
  rewrite !text_normalize_result.
  unfold text_first_error, text_assemble, text_defaulted, text_with_structured.
  cbn [CliText.Options.url CliText.Options.browser CliText.Options.width
       CliText.Options.height CliText.Options.frameRate CliText.Options.timeout
       CliText.Options.blockDomains CliText.Options.block CliText.Options.disableJS
       CliText.Options.debug CliText.Options.html CliText.Options.openHtml
       CliText.Options.list_ CliText.Options.connectionType CliText.Options.zip
       CliText.Options.dry CliText.Options.cookies CliText.Options.headers
       CliText.Options.auth CliText.Options.delay CliText.Options.delayUsing
       CliText.Options.firefoxPrefs CliText.Options.overrideHost CliText.Options.flags
       CliText.Options.cpuThrottle CliText.Options.uploadUrl].
  rewrite !step_error_blank, !step_value_blank. reflexivity.
Qed.

(** ** The upload url *)

Lemma upload_value_checked (U : string -> bool) (x : option string) :
  upload_error U x = None ->
  upload_value U x = truthy_opt truthy_string x /\
  (forall s, upload_value U x = Some s -> U s = true).
Proof.
  unfold upload_error, upload_value, truthy_opt. destruct x as [s|]; [|now split].
  destruct (truthy_string s), (U s) eqn:E; cbn; intros H; try discriminate;
    (split; [reflexivity|]); intros s' H'; try discriminate.
  injection H' as <-. exact E.
Qed.

Lemma upload_error_invalid (U : string -> bool) (s : string) :
  truthy_string s = true -> U s = false ->
  upload_error U (Some s) = Some (new_Error "--uploadUrl must be a valid URL").
Proof. intros H1 H2. unfold upload_error. rewrite H1, H2. reflexivity. Qed.

Lemma first_error_None (steps : list (option Error)) :
  first_error steps = None -> forall x, In x steps -> x = None.
Proof.
  induction steps as [|[e|] steps IH]; cbn; intros H x Hx; [contradiction|discriminate|].
  destruct Hx as [<-|Hx]; [reflexivity|]. now apply IH.
Qed.

Ltac in_steps := cbn [In]; repeat (first [left; reflexivity | right]).

Ltac pass_steps N :=
  repeat match goal with
         | |- context [match ?e with Some _ => _ | None => _ end] =>
             rewrite (N e) by in_steps
         end.

Lemma text_uploadUrl (D : DefaultOptions) (U : string -> bool)
  (o : CliText.Options.CLIOptions) :
  Config.uploadUrl (text_assemble D U o) = upload_value U (CliText.Options.uploadUrl o).
Proof.
  unfold text_assemble. destruct (upload_value U (CliText.Options.uploadUrl o)); cbn [upd].
  - reflexivity.
  - frames Config.uploadUrl. reflexivity.
Qed.

Lemma typed_uploadUrl (D : DefaultOptions) (U : string -> bool)
  (o : PreParsed.Options.CLIOptions) :
  Config.uploadUrl (typed_assemble D U o) = upload_value U (PreParsed.Options.uploadUrl o).
Proof.
  unfold typed_assemble. destruct (upload_value U (PreParsed.Options.uploadUrl o)); cbn [upd].
  - reflexivity.
  - frames Config.uploadUrl. reflexivity.
Qed.

(** X13. In both revisions the upload url of the configuration is the
    supplied one when it is not empty, and is unset otherwise; a
    configuration is only returned with an upload url that parses as a URL.
    When the url is not empty and does not parse, and nothing before that
    check throws (the normaliser passes with a check that accepts every
    url), the normaliser throws [--uploadUrl must be a valid URL]. *)
Theorem uploadUrl_checked :
  forall (D : DefaultOptions) (U : string -> bool),
    (forall (o : CliText.Options.CLIOptions) (c : Config.LaunchOptions),
        CliText.normalizeCLIConfig D U o = Ok c ->
        Config.uploadUrl c = truthy_opt truthy_string (CliText.Options.uploadUrl o) /\
        (forall s, Config.uploadUrl c = Some s -> U s = true)) /\
    (forall (o : CliText.Options.CLIOptions) (s : string),
        CliText.Options.uploadUrl o = Some s -> truthy_string s = true -> U s = false ->
        is_Err (CliText.normalizeCLIConfig D (fun _ => true) o) = false ->
        CliText.normalizeCLIConfig D U o = Err (new_Error "--uploadUrl must be a valid URL")) /\
    (forall (o : PreParsed.Options.CLIOptions) (c : Config.LaunchOptions),
        PreParsed.normalizeCLIConfig D U o = Ok c ->
        Config.uploadUrl c = truthy_opt truthy_string (PreParsed.Options.uploadUrl o) /\
        (forall s, Config.uploadUrl c = Some s -> U s = true)) /\
    (forall (o : PreParsed.Options.CLIOptions) (s : string),
        PreParsed.Options.uploadUrl o = Some s -> truthy_string s = true -> U s = false ->
        is_Err (PreParsed.normalizeCLIConfig D (fun _ => true) o) = false ->
        PreParsed.normalizeCLIConfig D U o
        = Err (new_Error "--uploadUrl must be a valid URL")).
Proof.
  intros D U. split; [|split; [|split]].
  - intros o c H. rewrite text_normalize_result in H.
    destruct (text_first_error U o) eqn:E; [discriminate|]. injection H as <-.
    rewrite text_uploadUrl. apply upload_value_checked.
    apply (first_error_None _ E). unfold text_first_error. do 8 right. left. reflexivity.
  - intros o s Hs Ht Hu H. rewrite text_normalize_result in H. rewrite text_normalize_result.
    destruct (text_first_error (fun _ => true) o) eqn:E; [discriminate H|].
    pose proof (first_error_None _ E) as N.
    unfold text_first_error. cbn [first_error]. pass_steps N.
    rewrite Hs, (upload_error_invalid U s Ht Hu). reflexivity.
  - intros o c H. rewrite typed_normalize_result in H.
    destruct (typed_first_error U o) eqn:E; [discriminate|]. injection H as <-.
    rewrite typed_uploadUrl. apply upload_value_checked.
    apply (first_error_None _ E). unfold typed_first_error. do 2 right. left. reflexivity.
  - intros o s Hs Ht Hu H. rewrite typed_normalize_result in H. rewrite typed_normalize_result.
    destruct (typed_first_error (fun _ => true) o) eqn:E; [discriminate H|].
    pose proof (first_error_None _ E) as N.
    unfold typed_first_error. cbn [first_error]. pass_steps N.
    rewrite Hs, (upload_error_invalid U s Ht Hu). reflexivity.
Qed.

Lemma uploadUrl_checked_witness :
  CliText.normalizeCLIConfig example_defaults example_URL_canParse
    (text_options_upload None (Some "results.example.com/upload"))
  = Err (new_Error "--uploadUrl must be a valid URL") /\
  exists c : Config.LaunchOptions,
    CliText.normalizeCLIConfig example_defaults example_URL_canParse
      (text_options_upload None (Some "https://results.example.com/upload")) = Ok c /\
    Config.uploadUrl c = Some "https://results.example.com/upload".
Proof.
  split.
  - apply (proj1 (proj2 (uploadUrl_checked example_defaults example_URL_canParse))
             (text_options_upload None (Some "results.example.com/upload"))
             "results.example.com/upload"); reflexivity.
  - eexists. split; [reflexivity|].
    apply (proj1 (uploadUrl_checked example_defaults example_URL_canParse)
             (text_options_upload None (Some "https://results.example.com/upload")) _ eq_refl).
Defined.

(** ** Options that are copied *)

(** X14. In both revisions a supplied width, height, frame rate or timeout
    is kept whatever number it is, zero included, and the default is used
    only when none is supplied; the browser is the supplied one unless it is
    missing or empty, in which case it is the default. *)
Theorem sizes_and_browser_defaulted :
  forall (D : DefaultOptions) (U : string -> bool),
    (forall (o : CliText.Options.CLIOptions) (c : Config.LaunchOptions),
        CliText.normalizeCLIConfig D U o = Ok c ->
        Config.width c
        = match CliText.Options.width o with Some n => n | None => default_width D end /\
        Config.height c
        = match CliText.Options.height o with Some n => n | None => default_height D end /\
        Config.frameRate c
        = match CliText.Options.frameRate o with Some n => n | None => default_frameRate D end /\
        Config.timeout c
        = match CliText.Options.timeout o with Some n => n | None => default_timeout D end /\
        Config.browser c
        = match CliText.Options.browser o with
          | Some b => if String.eqb b EmptyString then default_browser D else b
          | None => default_browser D
          end) /\
    (forall (o : PreParsed.Options.CLIOptions) (c : Config.LaunchOptions),
        PreParsed.normalizeCLIConfig D U o = Ok c ->
        Config.width c
        = match PreParsed.Options.width o with Some n => n | None => default_width D end /\
        Config.height c
        = match PreParsed.Options.height o with Some n => n | None => default_height D end /\
        Config.frameRate c
        = match PreParsed.Options.frameRate o with
          | Some n => n
          | None => default_frameRate D
          end /\
        Config.timeout c
        = match PreParsed.Options.timeout o with Some n => n | None => default_timeout D end /\
        Config.browser c
        = match PreParsed.Options.browser o with
          | Some b => if String.eqb b EmptyString then default_browser D else b
          | None => default_browser D
          end).
Proof.
  intros D U. split; intros o c H.
  - apply text_normalize_Ok in H as ->. unfold text_assemble.
    frames Config.width. frames Config.height. frames Config.frameRate.
    frames Config.timeout. frames Config.browser.
    repeat split. cbn [text_defaulted Config.browser]. unfold or_string.
    destruct (CliText.Options.browser o) as [[|a b]|]; reflexivity.
  - apply typed_normalize_Ok in H as ->. unfold typed_assemble.
    frames Config.width. frames Config.height. frames Config.frameRate.
    frames Config.timeout. frames Config.browser.
    repeat split. cbn [typed_defaulted Config.browser]. unfold or_string.
    destruct (PreParsed.Options.browser o) as [[|a b]|]; reflexivity.
Qed.

Lemma sizes_and_browser_defaulted_witness :
  exists c : Config.LaunchOptions,
    CliText.normalizeCLIConfig example_defaults example_URL_canParse
      (text_options None None None None (Some (number_of_Z 0)) None) = Ok c /\
    Config.width c = number_of_Z 0 /\
    Config.height c = default_height example_defaults.
Proof.
  eexists. split; [reflexivity|].
  destruct (proj1 (sizes_and_browser_defaulted example_defaults example_URL_canParse)
              (text_options None None None None (Some (number_of_Z 0)) None) _ eq_refl)
    as (Hw & Hh & _).
  split; [exact Hw | exact Hh].
Defined.

(** X15. In both revisions the flags are copied to [args] as they are, an
    empty list included, and [args] is unset when no flags are supplied; the
    url is copied as it is. *)
Theorem flags_and_url_copied :
  forall (D : DefaultOptions) (U : string -> bool),
    (forall (o : CliText.Options.CLIOptions) (c : Config.LaunchOptions),
        CliText.normalizeCLIConfig D U o = Ok c ->
        Config.args c = CliText.Options.flags o /\ Config.url c = CliText.Options.url o) /\
    (forall (o : PreParsed.Options.CLIOptions) (c : Config.LaunchOptions),
        PreParsed.normalizeCLIConfig D U o = Ok c ->
        Config.args c = PreParsed.Options.flags o /\ Config.url c = PreParsed.Options.url o).
Proof.
  intros D U. split; intros o c H.
  - apply text_normalize_Ok in H as ->. unfold text_assemble.
    frames Config.args. frames Config.url. split; [|reflexivity].
    destruct (CliText.Options.flags o); cbn [upd]; [reflexivity|].
    frames Config.args. reflexivity.
  - apply typed_normalize_Ok in H as ->. unfold typed_assemble.
    frames Config.args. frames Config.url. split; [|reflexivity].
    destruct (PreParsed.Options.flags o); cbn [upd]; [reflexivity|].
    frames Config.args. reflexivity.
Qed.

Lemma flags_and_url_copied_witness :
  exists c : Config.LaunchOptions,
    CliText.normalizeCLIConfig example_defaults example_URL_canParse
      (text_options_upload (Some ["--headless"; "--mute-audio"]) None) = Ok c /\
    Config.args c = Some ["--headless"; "--mute-audio"] /\
    Config.url c = "https://example.com".
Proof.
  eexists. split; [reflexivity|].
  apply (proj1 (flags_and_url_copied example_defaults example_URL_canParse)
           (text_options_upload (Some ["--headless"; "--mute-audio"]) None) _ eq_refl).
Defined.

(** ** The delay of the first revision *)

(** X16. In the first revision a delay text that [JSON.parse] rejects makes
    the normaliser throw the error of [JSON.parse] itself, once cookies,
    headers and auth have passed: the error is not rewritten to name the
    flag, as it is for the options read by [parseCLIOption]. *)
Theorem delay_parse_error_thrown_as_is :
  forall (D : DefaultOptions) (U : string -> bool) (o : CliText.Options.CLIOptions)
         (s : string) (e : Error),
    step_error (CliText.Options.cookies o) cookies_step = None ->
    step_error (CliText.Options.headers o) headers_step = None ->
    step_error (CliText.Options.auth o) auth_step = None ->
    CliText.Options.delay o = Some s ->
    s <> EmptyString ->
    JSON_parse s = Err e ->
    CliText.normalizeCLIConfig D U o = Err e.
Proof.
  intros D U o s e H1 H2 H3 Hs Hne He. rewrite text_normalize_result.
  unfold text_first_error. cbn [first_error]. rewrite H1, H2, H3, Hs.
  unfold step_error at 1. destruct s as [|a s]; [now elim Hne|].
  cbn [truthy_string]. rewrite He. reflexivity.
Qed.

Lemma delay_parse_error_thrown_as_is_witness :
  CliText.normalizeCLIConfig example_defaults example_URL_canParse
    (text_options None (Some "{") None None None None)
  = Err (new_SyntaxError "Unexpected end of JSON input").
Proof.
  apply (delay_parse_error_thrown_as_is example_defaults example_URL_canParse
           (text_options None (Some "{") None None None None) "{");
    [reflexivity | reflexivity | reflexivity | reflexivity | discriminate | reflexivity].
Defined.

(** ** The list parser: reading back and failing *)

Lemma includes_char_app (c : ascii) (a b : string) :
  includes (String c EmptyString) (a ++ b)
  = includes (String c EmptyString) a || includes (String c EmptyString) b.
Proof.
  induction a as [|x a IH].
  - reflexivity.
  - change (String x a ++ b) with (String x (a ++ b)).
    rewrite !includes_char_cons, IH, orb_assoc. reflexivity.
Qed.

Lemma includes_char_join (c : ascii) (sep : string) (l : list string) :
  includes (String c EmptyString) sep = false ->
  (forall x, In x l -> includes (String c EmptyString) x = false) ->
  includes (String c EmptyString) (join sep l) = false.
Proof.
  intros Hsep. unfold join. induction l as [|x l IH]; intros H; [reflexivity|].
  destruct l as [|y l].
  - apply H. now left.
  - change (String.concat sep (x :: y :: l)) with (x ++ sep ++ String.concat sep (y :: l)).
    rewrite !includes_char_app, Hsep, (H x (or_introl eq_refl)), IH; [reflexivity|].
    intros z Hz. apply H. now right.
Qed.

Lemma filter_truthy_all (l : list string) :
  (forall x, In x l -> x <> EmptyString) -> filter truthy_string l = l.
Proof.
  induction l as [|x l IH]; intros H; [reflexivity|]. cbn [filter].
  destruct x as [|a x]; [now elim (H EmptyString (or_introl eq_refl))|].
  cbn [truthy_string]. rewrite IH; [reflexivity|]. intros z Hz. apply H. now right.
Qed.

(** X17. Tokens that are not empty and hold neither a comma nor an opening
    bracket, joined with commas into one entry, are read back by the list
    parser as the same tokens in the same order. *)
Theorem comma_joined_tokens_read_back :
  forall (flagName : string) (tokens : list string),
    tokens <> [] ->
    (forall token, In token tokens ->
                   token <> EmptyString /\
                   includes "," token = false /\
                   includes "[" token = false) ->
    parseJSONArrayOrCommaSeparatedStrings flagName [join "," tokens] = Ok tokens.
Proof.
  intros flagName tokens Hne H. rewrite parse_list_entries. cbn [all_entries].
  unfold entry_strings.
  rewrite (includes_char_join "[" "," tokens eq_refl) by (intros x Hx; apply (H x Hx)).
  cbn [bind]. rewrite app_nil_r, split_join, filter_truthy_all;
    [reflexivity | | assumption | ]; intros x Hx; apply (H x Hx).
Qed.

Lemma comma_joined_tokens_read_back_witness :
  parseJSONArrayOrCommaSeparatedStrings "--blockDomains"
    [join "," ["ads.example.com"; "cdn.example.com"; "tracker.example.org"]]
  = Ok ["ads.example.com"; "cdn.example.com"; "tracker.example.org"].
Proof.
  apply (comma_joined_tokens_read_back "--blockDomains"
           ["ads.example.com"; "cdn.example.com"; "tracker.example.org"]).
  - discriminate.
  - intros token [<-|[<-|[<-|[]]]]; (split; [discriminate | split; reflexivity]).
Defined.

Lemma string_array_result (v : value) :
  safeParse StringArraySchema v
  = if string_array_accepts v then Ok v else Err {| issues := string_array_issues v |}.
Proof.
  unfold safeParse, StringArraySchema, z_array.
  destruct v as [| |b|n|s|l|props]; try reflexivity.
  destruct (string_items_spec [] 0 l) as [H1 H2].
  pose proof (merge_Err_issues (parse_items z_string [] 0 l)) as Hx.
  pose proof (string_items_Ok [] l 0) as Ho.
  cbn [string_array_accepts string_array_issues].
  destruct (merge (parse_items z_string [] 0 l)) as [l'|is0]; cbn [is_Err] in H1.
  - destruct (forallb is_str l); [|discriminate H1].
    destruct (Ho l' eq_refl) as [-> _]. reflexivity.
  - destruct (forallb is_str l); [discriminate H1|].
    rewrite (Hx is0 eq_refl), H2. do 2 f_equal.
    rewrite <- (map_id (string_items_issues 0 l)) at 2. apply map_ext.
    intros [c p m]. reflexivity.
Qed.

(** X18. An entry of the list parser that holds an opening bracket anywhere
    is read as JSON and never split on commas. If [JSON.parse] rejects it,
    the list parser throws the error of [JSON.parse] as it is; if the value
    is not an array of strings, it throws [Invalid data for] the flag,
    followed by one line for each issue of the value. *)
Theorem bracket_entry_errors :
  forall (flagName entry : string),
    includes "[" entry = true ->
    (forall e, JSON_parse entry = Err e ->
               parseJSONArrayOrCommaSeparatedStrings flagName [entry] = Err e) /\
    (forall v, JSON_parse entry = Ok v ->
               string_array_accepts v = false ->
               parseJSONArrayOrCommaSeparatedStrings flagName [entry]
               = Err (new_Error ("Invalid data for " ++ dquote ++ flagName ++ dquote ++ ":"
                                 ++ newline
                                 ++ formatZodError {| issues := string_array_issues v |}))).
Proof.
  intros flagName entry H. split.
  - intros e He. rewrite parse_list_entries. cbn [all_entries]. unfold entry_strings.
    rewrite H, He. reflexivity.
  - intros v Hv Ha. rewrite parse_list_entries. cbn [all_entries]. unfold entry_strings.
    rewrite H, Hv. cbn [bind]. unfold parseUnknown. rewrite string_array_result, Ha.
    reflexivity.
Qed.

Lemma bracket_entry_errors_witness :
  parseJSONArrayOrCommaSeparatedStrings "--block" ["a[0].js,b.js"]
  = Err (new_SyntaxError "Unexpected token a in JSON at position 0") /\
  parseJSONArrayOrCommaSeparatedStrings "--block" ["[1]"]
  = Err (new_Error ("Invalid data for " ++ dquote ++ "--block" ++ dquote ++ ":" ++ newline
                    ++ "  - 0: Expected string, received number")).
Proof.
  split.
  - apply (proj1 (bracket_entry_errors "--block" "a[0].js,b.js" eq_refl)). reflexivity.
  - apply (proj2 (bracket_entry_errors "--block" "[1]" eq_refl)
             (VArr [VNum (number_of_Z 1)])); reflexivity.
Defined.

(** ** The numeric schemas, in general *)

(** X19. The positive-integer schema accepts a value exactly when the
    number the value is coerced to is an integer greater than zero, and the
    positive-float schema exactly when that number is greater than zero;
    both return the coerced number, so what the integer schema accepts the
    float schema accepts with the same result. *)
Theorem positive_schemas_accept_exactly :
  forall (v : value) (x : number),
    (safeParse PositiveIntSchema v = Ok x <->
     x = ToNumber v /\ isInteger x = true /\ num_ltb pos_zero x = true) /\
    (safeParse PositiveFloatSchema v = Ok x <->
     x = ToNumber v /\ num_ltb pos_zero x = true) /\
    (safeParse PositiveIntSchema v = Ok x -> safeParse PositiveFloatSchema v = Ok x).
Proof.
  intros v x. split; [apply PositiveIntSchema_spec|]. split; [apply PositiveFloatSchema_spec|].
  intros H. apply PositiveIntSchema_spec in H as (H1 & _ & H3).
  apply PositiveFloatSchema_spec. split; assumption.
Qed.
